(** * polymarket-btc: the backtest replay engine, the validators and the
    trade table

    A shallow embedding of [src/backtest/engine.ts] (class [BacktestEngine]),
    of the configuration validators of [src/backtest/index.ts] and
    [src/config.ts], of the trade table of [src/db.ts] and of
    [applyCompoundLimit] of [src/bot.ts], with the properties the
    specification states about them and further ones the code shows.

    Conventions of the embedding.
    - A JavaScript [number] that holds a price, a share count or an amount of
      money is an exact rational ([Q]); comparisons are the boolean ones the
      code evaluates.  Rounding of IEEE doubles is not modelled: a sum, a
      difference or a product is the exact one, so where the code compares
      such a result with a threshold and the exact result lies on the
      threshold, the code may decide the other way ([0.605 - 0.6] is 0.005
      here and a little more in doubles); the statements on such a test
      leave that case open.  A quotient with divisor zero is [0] here
      (JavaScript gives an infinity or NaN); no statement below depends on
      the value of such a quotient.
    - A number that [validateBacktestConfig] only compares may come from the
      command line and be NaN or an infinity; it is a [number].
    - Timestamps and durations in milliseconds are integers ([Z]).
    - [Date.now()] is an oracle [now : nat -> Z]: the engine counts its reads
      ([clock]) and the k-th read returns [now k].
    - A method that mutates [this] is a function from engine state to engine
      state; [this.ladderState] is the one ladder object every ladder method
      receives, so a method taking [ladderState] returns the engine with that
      object written back. *)

From Stdlib Require Import QArith Qminmax Qabs ZArith Lia Lqa.
From Stdlib Require Import Sorting.Sorted Sorting.Permutation.
From stdpp Require Import gmap strings list pretty.
From Equations Require Import Equations.
From Equations.Prop Require Import Logic.

Local Open Scope Q_scope.

(** ** Numbers *)

(** [x <= y], [x < y], [x >= y] and [x > y] on numbers, as booleans. *)
Definition Qleb (x y : Q) : bool := Qle_bool x y.
Definition Qltb (x y : Q) : bool := negb (Qle_bool y x).
Definition Qgeb (x y : Q) : bool := Qle_bool y x.
Definition Qgtb (x y : Q) : bool := negb (Qle_bool x y).

(** ** Data model *)

Inductive Side := UP | DOWN.
Inductive StepPhase := phaseBuy | phaseSell.
Inductive LadderStatus := active | completed | stopped.
Inductive SizeType := percent | fixed.
(** [RiskMode = "normal" | "ladder" | string] *)
Inductive RiskMode := normal | ladder | otherMode (name : string).
Inductive ExitReason :=
| PROFIT_TARGET | STOP_LOSS | MARKET_RESOLVED | TIME_EXIT
| LADDER_STEP_SELL | LADDER_STOP_LOSS.

#[global] Instance Side_eq_dec : EqDecision Side.
Proof. solve_decision. Defined.
#[global] Instance StepPhase_eq_dec : EqDecision StepPhase.
Proof. solve_decision. Defined.
#[global] Instance LadderStatus_eq_dec : EqDecision LadderStatus.
Proof. solve_decision. Defined.
#[global] Instance RiskMode_eq_dec : EqDecision RiskMode.
Proof. solve_decision. Defined.
#[global] Instance ExitReason_eq_dec : EqDecision ExitReason.
Proof. solve_decision. Defined.

(** [LadderStepSideConfig] and [LadderStep] (config.ts). *)
Record LadderStepSideConfig := {
  triggerPrice : Q;
  sizeType : SizeType;
  sizeValue : Q;
}.

Record LadderStep := {
  step_id : string;
  step_stopLoss : Q;
  step_buy : LadderStepSideConfig;
  step_sell : LadderStepSideConfig;
  step_enabled : bool;
}.

(** [BacktestConfig] (types.ts), the fields the engine reads;
    [ladderSteps] is [config.ladderSteps ?? []]. *)
Record BacktestConfig := {
  entryThreshold : Q;
  maxEntryPrice : Q;
  stopLoss : Q;
  maxSpread : Q;
  timeWindowMs : Z;
  profitTarget : Q;
  startingBalance : Q;
  slippage : Q;
  compoundLimit : Q;
  baseBalance : Q;
  riskMode : RiskMode;
  ladderSteps : list LadderStep;
}.

Record PriceTick := {
  tick_timestamp : Z;
  tick_tokenId : string;
  tick_marketSlug : string;
  bestBid : Q;
  bestAsk : Q;
  midPrice : Q;
}.

(** [HistoricalMarket]; [market_endDate] is [endDate.getTime()]. *)
Record HistoricalMarket := {
  market_slug : string;
  market_endDate : Z;
  upTokenId : string;
  downTokenId : string;
  outcome : option Side;
  priceTicks : list PriceTick;
}.

Record SimulatedPosition := {
  pos_tokenId : string;
  pos_marketSlug : string;
  pos_side : Side;
  pos_shares : Q;
  pos_entryPrice : Q;
  pos_entryTimestamp : Z;
}.

Record BacktestTrade := {
  trade_marketSlug : string;
  trade_tokenId : string;
  trade_side : Side;
  trade_entryPrice : Q;
  trade_exitPrice : Q;
  trade_shares : Q;
  trade_entryTimestamp : Z;
  trade_exitTimestamp : Z;
  trade_exitReason : ExitReason;
  trade_pnl : Q;
  trade_ladderStepId : option string;
}.

Record EquityPoint := { eq_timestamp : Z; eq_balance : Q }.
Record DrawdownPoint := { dd_timestamp : Z; dd_drawdown : Q }.

Record LadderState := {
  ls_tokenId : string;
  ls_side : Side;
  ls_marketSlug : string;
  ls_marketEndDate : Z;
  currentStepIndex : nat;
  currentStepPhase : StepPhase;
  completedSteps : list string;
  skippedSteps : list string;
  skippedReasons : gmap string string;
  totalShares : Q;
  totalCostBasis : Q;
  averageEntryPrice : Q;
  totalSharesSold : Q;
  totalSellProceeds : Q;
  ladderStartTime : Z;
  lastStepTime : Z;
  lastStepPrice : Q;
  needsRecovery : bool;
  ls_status : LadderStatus;
}.

(** The private fields of [BacktestEngine] ([config] is a parameter of the
    methods), and the number of [Date.now()] reads so far. *)
Record Engine := {
  balance : Q;
  savedProfit : Q;
  position : option SimulatedPosition;
  ladderState : option LadderState;
  ladderMarketLocks : gset string;
  trades : list BacktestTrade;
  equityCurve : list EquityPoint;
  peakBalance : Q;
  lastTrade : option BacktestTrade;
  currentMarket : option HistoricalMarket;
  clock : nat;
}.

(** ** Field updates

    One function per field the engine assigns. *)

Definition set_currentStepIndex (v : nat) (l : LadderState) : LadderState :=
  Build_LadderState (ls_tokenId l) (ls_side l) (ls_marketSlug l) (ls_marketEndDate l)
    v (currentStepPhase l) (completedSteps l) (skippedSteps l) (skippedReasons l)
    (totalShares l) (totalCostBasis l) (averageEntryPrice l) (totalSharesSold l)
    (totalSellProceeds l) (ladderStartTime l) (lastStepTime l) (lastStepPrice l)
    (needsRecovery l) (ls_status l).

Definition set_currentStepPhase (v : StepPhase) (l : LadderState) : LadderState :=
  Build_LadderState (ls_tokenId l) (ls_side l) (ls_marketSlug l) (ls_marketEndDate l)
    (currentStepIndex l) v (completedSteps l) (skippedSteps l) (skippedReasons l)
    (totalShares l) (totalCostBasis l) (averageEntryPrice l) (totalSharesSold l)
    (totalSellProceeds l) (ladderStartTime l) (lastStepTime l) (lastStepPrice l)
    (needsRecovery l) (ls_status l).

Definition set_completedSteps (v : list string) (l : LadderState) : LadderState :=
  Build_LadderState (ls_tokenId l) (ls_side l) (ls_marketSlug l) (ls_marketEndDate l)
    (currentStepIndex l) (currentStepPhase l) v (skippedSteps l) (skippedReasons l)
    (totalShares l) (totalCostBasis l) (averageEntryPrice l) (totalSharesSold l)
    (totalSellProceeds l) (ladderStartTime l) (lastStepTime l) (lastStepPrice l)
    (needsRecovery l) (ls_status l).

Definition set_skippedSteps (v : list string) (l : LadderState) : LadderState :=
  Build_LadderState (ls_tokenId l) (ls_side l) (ls_marketSlug l) (ls_marketEndDate l)
    (currentStepIndex l) (currentStepPhase l) (completedSteps l) v (skippedReasons l)
    (totalShares l) (totalCostBasis l) (averageEntryPrice l) (totalSharesSold l)
    (totalSellProceeds l) (ladderStartTime l) (lastStepTime l) (lastStepPrice l)
    (needsRecovery l) (ls_status l).

Definition set_skippedReasons (v : gmap string string) (l : LadderState) : LadderState :=
  Build_LadderState (ls_tokenId l) (ls_side l) (ls_marketSlug l) (ls_marketEndDate l)
    (currentStepIndex l) (currentStepPhase l) (completedSteps l) (skippedSteps l) v
    (totalShares l) (totalCostBasis l) (averageEntryPrice l) (totalSharesSold l)
    (totalSellProceeds l) (ladderStartTime l) (lastStepTime l) (lastStepPrice l)
    (needsRecovery l) (ls_status l).

Definition set_totalShares (v : Q) (l : LadderState) : LadderState :=
  Build_LadderState (ls_tokenId l) (ls_side l) (ls_marketSlug l) (ls_marketEndDate l)
    (currentStepIndex l) (currentStepPhase l) (completedSteps l) (skippedSteps l)
    (skippedReasons l) v (totalCostBasis l) (averageEntryPrice l) (totalSharesSold l)
    (totalSellProceeds l) (ladderStartTime l) (lastStepTime l) (lastStepPrice l)
    (needsRecovery l) (ls_status l).

Definition set_totalCostBasis (v : Q) (l : LadderState) : LadderState :=
  Build_LadderState (ls_tokenId l) (ls_side l) (ls_marketSlug l) (ls_marketEndDate l)
    (currentStepIndex l) (currentStepPhase l) (completedSteps l) (skippedSteps l)
    (skippedReasons l) (totalShares l) v (averageEntryPrice l) (totalSharesSold l)
    (totalSellProceeds l) (ladderStartTime l) (lastStepTime l) (lastStepPrice l)
    (needsRecovery l) (ls_status l).

Definition set_averageEntryPrice (v : Q) (l : LadderState) : LadderState :=
  Build_LadderState (ls_tokenId l) (ls_side l) (ls_marketSlug l) (ls_marketEndDate l)
    (currentStepIndex l) (currentStepPhase l) (completedSteps l) (skippedSteps l)
    (skippedReasons l) (totalShares l) (totalCostBasis l) v (totalSharesSold l)
    (totalSellProceeds l) (ladderStartTime l) (lastStepTime l) (lastStepPrice l)
    (needsRecovery l) (ls_status l).

Definition set_totalSharesSold (v : Q) (l : LadderState) : LadderState :=
  Build_LadderState (ls_tokenId l) (ls_side l) (ls_marketSlug l) (ls_marketEndDate l)
    (currentStepIndex l) (currentStepPhase l) (completedSteps l) (skippedSteps l)
    (skippedReasons l) (totalShares l) (totalCostBasis l) (averageEntryPrice l) v
    (totalSellProceeds l) (ladderStartTime l) (lastStepTime l) (lastStepPrice l)
    (needsRecovery l) (ls_status l).

Definition set_totalSellProceeds (v : Q) (l : LadderState) : LadderState :=
  Build_LadderState (ls_tokenId l) (ls_side l) (ls_marketSlug l) (ls_marketEndDate l)
    (currentStepIndex l) (currentStepPhase l) (completedSteps l) (skippedSteps l)
    (skippedReasons l) (totalShares l) (totalCostBasis l) (averageEntryPrice l)
    (totalSharesSold l) v (ladderStartTime l) (lastStepTime l) (lastStepPrice l)
    (needsRecovery l) (ls_status l).

Definition set_lastStepTime (v : Z) (l : LadderState) : LadderState :=
  Build_LadderState (ls_tokenId l) (ls_side l) (ls_marketSlug l) (ls_marketEndDate l)
    (currentStepIndex l) (currentStepPhase l) (completedSteps l) (skippedSteps l)
    (skippedReasons l) (totalShares l) (totalCostBasis l) (averageEntryPrice l)
    (totalSharesSold l) (totalSellProceeds l) (ladderStartTime l) v (lastStepPrice l)
    (needsRecovery l) (ls_status l).

Definition set_lastStepPrice (v : Q) (l : LadderState) : LadderState :=
  Build_LadderState (ls_tokenId l) (ls_side l) (ls_marketSlug l) (ls_marketEndDate l)
    (currentStepIndex l) (currentStepPhase l) (completedSteps l) (skippedSteps l)
    (skippedReasons l) (totalShares l) (totalCostBasis l) (averageEntryPrice l)
    (totalSharesSold l) (totalSellProceeds l) (ladderStartTime l) (lastStepTime l) v
    (needsRecovery l) (ls_status l).

Definition set_needsRecovery (v : bool) (l : LadderState) : LadderState :=
  Build_LadderState (ls_tokenId l) (ls_side l) (ls_marketSlug l) (ls_marketEndDate l)
    (currentStepIndex l) (currentStepPhase l) (completedSteps l) (skippedSteps l)
    (skippedReasons l) (totalShares l) (totalCostBasis l) (averageEntryPrice l)
    (totalSharesSold l) (totalSellProceeds l) (ladderStartTime l) (lastStepTime l)
    (lastStepPrice l) v (ls_status l).

Definition set_status (v : LadderStatus) (l : LadderState) : LadderState :=
  Build_LadderState (ls_tokenId l) (ls_side l) (ls_marketSlug l) (ls_marketEndDate l)
    (currentStepIndex l) (currentStepPhase l) (completedSteps l) (skippedSteps l)
    (skippedReasons l) (totalShares l) (totalCostBasis l) (averageEntryPrice l)
    (totalSharesSold l) (totalSellProceeds l) (ladderStartTime l) (lastStepTime l)
    (lastStepPrice l) (needsRecovery l) v.

Definition set_balance (v : Q) (e : Engine) : Engine :=
  Build_Engine v (savedProfit e) (position e) (ladderState e) (ladderMarketLocks e)
    (trades e) (equityCurve e) (peakBalance e) (lastTrade e) (currentMarket e) (clock e).

Definition set_savedProfit (v : Q) (e : Engine) : Engine :=
  Build_Engine (balance e) v (position e) (ladderState e) (ladderMarketLocks e)
    (trades e) (equityCurve e) (peakBalance e) (lastTrade e) (currentMarket e) (clock e).

Definition set_position (v : option SimulatedPosition) (e : Engine) : Engine :=
  Build_Engine (balance e) (savedProfit e) v (ladderState e) (ladderMarketLocks e)
    (trades e) (equityCurve e) (peakBalance e) (lastTrade e) (currentMarket e) (clock e).

Definition set_ladderState (v : option LadderState) (e : Engine) : Engine :=
  Build_Engine (balance e) (savedProfit e) (position e) v (ladderMarketLocks e)
    (trades e) (equityCurve e) (peakBalance e) (lastTrade e) (currentMarket e) (clock e).

Definition set_ladderMarketLocks (v : gset string) (e : Engine) : Engine :=
  Build_Engine (balance e) (savedProfit e) (position e) (ladderState e) v
    (trades e) (equityCurve e) (peakBalance e) (lastTrade e) (currentMarket e) (clock e).

Definition set_trades (v : list BacktestTrade) (e : Engine) : Engine :=
  Build_Engine (balance e) (savedProfit e) (position e) (ladderState e) (ladderMarketLocks e)
    v (equityCurve e) (peakBalance e) (lastTrade e) (currentMarket e) (clock e).

Definition set_equityCurve (v : list EquityPoint) (e : Engine) : Engine :=
  Build_Engine (balance e) (savedProfit e) (position e) (ladderState e) (ladderMarketLocks e)
    (trades e) v (peakBalance e) (lastTrade e) (currentMarket e) (clock e).

Definition set_peakBalance (v : Q) (e : Engine) : Engine :=
  Build_Engine (balance e) (savedProfit e) (position e) (ladderState e) (ladderMarketLocks e)
    (trades e) (equityCurve e) v (lastTrade e) (currentMarket e) (clock e).

Definition set_lastTrade (v : option BacktestTrade) (e : Engine) : Engine :=
  Build_Engine (balance e) (savedProfit e) (position e) (ladderState e) (ladderMarketLocks e)
    (trades e) (equityCurve e) (peakBalance e) v (currentMarket e) (clock e).

Definition set_currentMarket (v : option HistoricalMarket) (e : Engine) : Engine :=
  Build_Engine (balance e) (savedProfit e) (position e) (ladderState e) (ladderMarketLocks e)
    (trades e) (equityCurve e) (peakBalance e) (lastTrade e) v (clock e).

Definition set_clock (v : nat) (e : Engine) : Engine :=
  Build_Engine (balance e) (savedProfit e) (position e) (ladderState e) (ladderMarketLocks e)
    (trades e) (equityCurve e) (peakBalance e) (lastTrade e) (currentMarket e) v.

(** ** The engine ([BacktestEngine]) *)

Section BacktestEngine.

Variable cfg : BacktestConfig.
(** [Date.now()]: the value of the k-th read. *)
Variable now : nat -> Z.

(** [checkCompoundLimit] *)
Definition checkCompoundLimit (e : Engine) : Engine :=
  if Qleb (compoundLimit cfg) 0 then e
  else if Qleb (balance e) (compoundLimit cfg) then e
  else
    let profit := balance e - baseBalance cfg in
    let e := set_savedProfit (savedProfit e + profit) e in
    set_balance (baseBalance cfg) e.

(** [executeEntry] *)
Definition executeEntry (tick : PriceTick) (market : HistoricalMarket)
    (side : Side) (e : Engine) : Engine :=
  let entryPrice := Qmin (bestAsk tick * (1 + slippage cfg)) 0.99 in
  let shares := balance e / entryPrice in
  let e := set_position (Some {|
    pos_tokenId := tick_tokenId tick;
    pos_marketSlug := market_slug market;
    pos_side := side;
    pos_shares := shares;
    pos_entryPrice := entryPrice;
    pos_entryTimestamp := tick_timestamp tick |}) e in
  set_balance 0 e.

(** [executeExit] *)
Definition executeExit (exitPrice : Q) (exitTimestamp : Z)
    (exitReason : ExitReason) (e : Engine) : Engine :=
  match position e with
  | None => e
  | Some p =>
    let finalExitPrice :=
      if bool_decide (exitReason = STOP_LOSS)
      then Qmax (exitPrice * (1 - slippage cfg)) 0.01
      else exitPrice in
    let pnl := (finalExitPrice - pos_entryPrice p) * pos_shares p in
    let trade := {|
      trade_marketSlug := pos_marketSlug p;
      trade_tokenId := pos_tokenId p;
      trade_side := pos_side p;
      trade_entryPrice := pos_entryPrice p;
      trade_exitPrice := finalExitPrice;
      trade_shares := pos_shares p;
      trade_entryTimestamp := pos_entryTimestamp p;
      trade_exitTimestamp := exitTimestamp;
      trade_exitReason := exitReason;
      trade_pnl := pnl;
      trade_ladderStepId := None |} in
    let e := set_trades (trades e ++ [trade]) e in
    let e := set_lastTrade (Some trade) e in
    let proceeds := finalExitPrice * pos_shares p in
    let e := set_balance proceeds e in
    let e := set_equityCurve
      (equityCurve e ++ [{| eq_timestamp := exitTimestamp; eq_balance := balance e |}]) e in
    let e := if Qgtb (balance e) (peakBalance e)
             then set_peakBalance (balance e) e else e in
    let e := set_position None e in
    checkCompoundLimit e
  end.

(** [checkStopLoss] *)
Definition checkStopLoss (tick : PriceTick) (e : Engine) : Engine :=
  match position e with
  | None => e
  | Some _ =>
    let currentBid := bestBid tick in
    if Qleb currentBid (stopLoss cfg)
    then executeExit currentBid (tick_timestamp tick) STOP_LOSS e
    else e
  end.

(** The opposite-side test of [checkEntry] and [processLadderTick]:
    [lastTrade && lastTrade.marketSlug === market.slug &&
     lastTrade.side === side && lastTrade.pnl > 0]. *)
Definition lastTradeWonSide (market : HistoricalMarket) (side : Side)
    (e : Engine) : bool :=
  match lastTrade e with
  | None => false
  | Some t =>
    bool_decide (trade_marketSlug t = market_slug market)
    && bool_decide (trade_side t = side)
    && Qgtb (trade_pnl t) 0
  end.

(** [tick.tokenId === market.upTokenId ? "UP" : "DOWN"] *)
Definition sideOf (tick : PriceTick) (market : HistoricalMarket) : Side :=
  if bool_decide (tick_tokenId tick = upTokenId market) then UP else DOWN.

(** [checkEntry] *)
Definition checkEntry (tick : PriceTick) (market : HistoricalMarket)
    (e : Engine) : Engine :=
  let now_ := tick_timestamp tick in
  let marketEndTime := market_endDate market in
  let timeRemaining := (marketEndTime - now_)%Z in
  if (timeRemaining <=? 0)%Z || (timeRemaining >? timeWindowMs cfg)%Z then e
  else
    let side := sideOf tick market in
    let spread := bestAsk tick - bestBid tick in
    if Qgtb spread (maxSpread cfg) then e
    else
      let askPrice := bestAsk tick in
      if Qltb askPrice (entryThreshold cfg) || Qgtb askPrice (maxEntryPrice cfg) then e
      else if Qgeb askPrice (profitTarget cfg) then e
      else if lastTradeWonSide market side e then e
      else executeEntry tick market side e.

(** [closePositionAtExpiry] and the resolution price both expiry closes use. *)
Definition resolutionPrice (market : HistoricalMarket) (side : Side) : Q :=
  match outcome market with
  | Some o => if bool_decide (o = side) then profitTarget cfg else 0.01
  | None => profitTarget cfg
  end.

Definition closePositionAtExpiry (market : HistoricalMarket) (e : Engine) : Engine :=
  match position e with
  | None => e
  | Some p =>
    let exitPrice := resolutionPrice market (pos_side p) in
    executeExit exitPrice (market_endDate market) MARKET_RESOLVED e
  end.

(** *** Ladder mode *)

Definition isLadderMarketLocked (marketSlug : string) (e : Engine) : bool :=
  bool_decide (marketSlug ∈ ladderMarketLocks e).

Definition lockLadderMarket (marketSlug : string) (e : Engine) : Engine :=
  set_ladderMarketLocks (ladderMarketLocks e ∪ {[ marketSlug ]}) e.

Definition clearLadderMarketLock (marketSlug : string) (e : Engine) : Engine :=
  set_ladderMarketLocks (ladderMarketLocks e ∖ {[ marketSlug ]}) e.

(** [initializeLadderState]; [t] is the value [Date.now()] returned. *)
Definition initializeLadderState (t : Z) (tokenId : string) (side : Side)
    (marketSlug : string) (marketEndDate : Z) : LadderState := {|
  ls_tokenId := tokenId;
  ls_side := side;
  ls_marketSlug := marketSlug;
  ls_marketEndDate := marketEndDate;
  currentStepIndex := 0;
  currentStepPhase := phaseBuy;
  completedSteps := [];
  skippedSteps := [];
  skippedReasons := ∅;
  totalShares := 0;
  totalCostBasis := 0;
  averageEntryPrice := 0;
  totalSharesSold := 0;
  totalSellProceeds := 0;
  ladderStartTime := t;
  lastStepTime := t;
  lastStepPrice := 0;
  needsRecovery := false;
  ls_status := active |}.

(** [step.id] is neither in [completedSteps] nor in [skippedSteps]. *)
Definition stepDone (ls : LadderState) (step : LadderStep) : bool :=
  bool_decide (step_id step ∈ completedSteps ls)
  || bool_decide (step_id step ∈ skippedSteps ls).

(** [getActiveStep]: the recursion advances [currentStepIndex] past every
    step that is disabled, completed or skipped; it is well founded because
    [steps.length - currentStepIndex] decreases at each call. *)
Equations? getActiveStep (steps : list LadderStep) (ls : LadderState)
    : option LadderStep * LadderState
    by wf (length steps - currentStepIndex ls)%nat lt :=
  getActiveStep steps ls with inspect (steps !! currentStepIndex ls) := {
    | exist _ None _ => (None, ls)
    | exist _ (Some step) Hstep =>
      if negb (step_enabled step) then
        getActiveStep steps (set_currentStepIndex (S (currentStepIndex ls)) ls)
      else if bool_decide (step_id step ∈ completedSteps ls) then
        getActiveStep steps (set_currentStepIndex (S (currentStepIndex ls)) ls)
      else if bool_decide (step_id step ∈ skippedSteps ls) then
        getActiveStep steps (set_currentStepIndex (S (currentStepIndex ls)) ls)
      else (Some step, ls) }.
Proof.
  all: apply lookup_lt_Some in Hstep; simpl; lia.
Qed.

(** [getActiveStopLossStep]: the first step from [currentStepIndex] on that is
    enabled and neither completed nor skipped (the [while] loop), else the
    last enabled step (the [for] loop from the end). *)
Definition getActiveStopLossStep (ls : LadderState) (steps : list LadderStep)
    : option LadderStep :=
  match find (fun step => step_enabled step && negb (stepDone ls step))
             (drop (currentStepIndex ls) steps) with
  | Some step => Some step
  | None => find step_enabled (reverse steps)
  end.

(** [skipLadderStep] *)
Definition skipLadderStep (stepId reason : string) (ls : LadderState) : LadderState :=
  let ls := set_skippedSteps (skippedSteps ls ++ [stepId]) ls in
  set_skippedReasons (<[stepId := reason]> (skippedReasons ls)) ls.

(** [calculateStepSize]; [side] is ["buy"] or ["sell"]. *)
Definition calculateStepSize (side : StepPhase) (stepConfig : LadderStepSideConfig)
    (ls : LadderState) (availableBalance currentPrice : Q) : Q :=
  match side with
  | phaseBuy =>
    match sizeType stepConfig with
    | percent => availableBalance * (sizeValue stepConfig / 100)
    | fixed => Qmin (sizeValue stepConfig) availableBalance
    end
  | phaseSell =>
    let remainingShares := totalShares ls - totalSharesSold ls in
    match sizeType stepConfig with
    | percent => remainingShares * (sizeValue stepConfig / 100)
    | fixed => Qmin (sizeValue stepConfig / currentPrice) remainingShares
    end
  end.

(** [getOpenLadderShares] *)
Definition getOpenLadderShares (ls : LadderState) : Q :=
  Qmax 0 (totalShares ls - totalSharesSold ls).

(** [recordLadderTrade] *)
Definition recordLadderTrade (trade : BacktestTrade) (e : Engine) : Engine :=
  let e := set_trades (trades e ++ [trade]) e in
  let e := set_lastTrade (Some trade) e in
  let e := set_equityCurve
    (equityCurve e ++
     [{| eq_timestamp := trade_exitTimestamp trade; eq_balance := balance e |}]) e in
  if Qgtb (balance e) (peakBalance e) then set_peakBalance (balance e) e else e.

(** [resetLadderState]; [t] is the value [Date.now()] returned. *)
Definition resetLadderState (t : Z) (ls : LadderState) : LadderState :=
  let ls := set_currentStepIndex 0 ls in
  let ls := set_currentStepPhase phaseBuy ls in
  let ls := set_completedSteps [] ls in
  let ls := set_skippedSteps [] ls in
  let ls := set_skippedReasons ∅ ls in
  let ls := set_totalShares 0 ls in
  let ls := set_totalCostBasis 0 ls in
  let ls := set_averageEntryPrice 0 ls in
  let ls := set_totalSharesSold 0 ls in
  let ls := set_totalSellProceeds 0 ls in
  let ls := set_lastStepTime t ls in
  let ls := set_lastStepPrice 0 ls in
  let ls := set_needsRecovery true ls in
  set_status active ls.

(** [executeLadderBuyStep] *)
Definition executeLadderBuyStep (tick : PriceTick) (ls : LadderState)
    (step : LadderStep) (e : Engine) : Engine :=
  if bool_decide (step_id step ∈ completedSteps ls) then set_ladderState (Some ls) e
  else if bool_decide (step_id step ∈ skippedSteps ls) then set_ladderState (Some ls) e
  else
    let availableBalance := balance e in
    let buyAmount :=
      calculateStepSize phaseBuy (step_buy step) ls availableBalance (bestAsk tick) in
    if Qltb buyAmount 1 then
      let ls := skipLadderStep (step_id step) "insufficient_balance" ls in
      let ls := set_currentStepIndex (S (currentStepIndex ls)) ls in
      let ls := set_currentStepPhase phaseBuy ls in
      set_ladderState (Some ls) e
    else
      let entryPrice := Qmin (bestAsk tick * (1 + slippage cfg)) 0.99 in
      let shares := buyAmount / entryPrice in
      let ls := set_totalShares (totalShares ls + shares) ls in
      let ls := set_totalCostBasis (totalCostBasis ls + buyAmount) ls in
      let ls := set_averageEntryPrice (totalCostBasis ls / totalShares ls) ls in
      let ls := set_lastStepTime (tick_timestamp tick) ls in
      let ls := set_lastStepPrice (bestAsk tick) ls in
      let e := set_balance (balance e - buyAmount) e in
      let ls := set_currentStepPhase phaseSell ls in
      set_ladderState (Some ls) e.

(** [(shares / totalShares) * totalCostBasis] when [totalShares > 0], else [0]. *)
Definition costBasisPortion (ls : LadderState) (shares : Q) : Q :=
  if Qgtb (totalShares ls) 0
  then (shares / totalShares ls) * totalCostBasis ls
  else 0.

(** [executeLadderSellStep] *)
Definition executeLadderSellStep (tick : PriceTick) (ls : LadderState)
    (step : LadderStep) (e : Engine) : Engine :=
  if bool_decide (step_id step ∈ completedSteps ls) then set_ladderState (Some ls) e
  else if bool_decide (step_id step ∈ skippedSteps ls) then set_ladderState (Some ls) e
  else
    let remainingShares := totalShares ls - totalSharesSold ls in
    let sellShares :=
      calculateStepSize phaseSell (step_sell step) ls 0 (bestBid tick) in
    if Qltb sellShares 0.01 || Qltb remainingShares 0.01 then
      let ls := skipLadderStep (step_id step) "insufficient_shares" ls in
      let ls := set_currentStepIndex (S (currentStepIndex ls)) ls in
      let ls := set_currentStepPhase phaseBuy ls in
      set_ladderState (Some ls) e
    else
      let actualSellShares := Qmin sellShares remainingShares in
      let proceeds := actualSellShares * bestBid tick in
      let pnl := proceeds - costBasisPortion ls actualSellShares in
      let ls := set_totalSharesSold (totalSharesSold ls + actualSellShares) ls in
      let ls := set_totalSellProceeds (totalSellProceeds ls + proceeds) ls in
      let e := set_balance (balance e + proceeds) e in
      let trade := {|
        trade_marketSlug := ls_marketSlug ls;
        trade_tokenId := ls_tokenId ls;
        trade_side := ls_side ls;
        trade_entryPrice := averageEntryPrice ls;
        trade_exitPrice := bestBid tick;
        trade_shares := actualSellShares;
        trade_entryTimestamp := lastStepTime ls;
        trade_exitTimestamp := tick_timestamp tick;
        trade_exitReason := LADDER_STEP_SELL;
        trade_pnl := pnl;
        trade_ladderStepId := Some (step_id step) |} in
      let e := recordLadderTrade trade e in
      let ls := set_completedSteps (completedSteps ls ++ [step_id step]) ls in
      let ls := set_currentStepIndex (S (currentStepIndex ls)) ls in
      let ls := set_currentStepPhase phaseBuy ls in
      let ls := set_lastStepTime (tick_timestamp tick) ls in
      let ls := set_lastStepPrice (bestBid tick) ls in
      let remainingAfterSell := totalShares ls - totalSharesSold ls in
      let ls :=
        if Qltb remainingAfterSell 0.01 then
          let ls := set_totalShares 0 ls in
          let ls := set_totalCostBasis 0 ls in
          let ls := set_averageEntryPrice 0 ls in
          let ls := set_totalSharesSold 0 ls in
          set_totalSellProceeds 0 ls
        else ls in
      checkCompoundLimit (set_ladderState (Some ls) e).

(** The trade [executeLadderStopLoss] records for [openShares] shares. *)
Definition stopLossTrade (tick : PriceTick) (ls : LadderState) (step : LadderStep)
    (openShares : Q) : BacktestTrade :=
  let exitPrice := Qmax (bestBid tick * (1 - slippage cfg)) 0.01 in
  let proceeds := openShares * exitPrice in
  let pnl := proceeds - costBasisPortion ls openShares in
  {| trade_marketSlug := ls_marketSlug ls;
     trade_tokenId := ls_tokenId ls;
     trade_side := ls_side ls;
     trade_entryPrice := averageEntryPrice ls;
     trade_exitPrice := exitPrice;
     trade_shares := openShares;
     trade_entryTimestamp := lastStepTime ls;
     trade_exitTimestamp := tick_timestamp tick;
     trade_exitReason := LADDER_STOP_LOSS;
     trade_pnl := pnl;
     trade_ladderStepId := Some (step_id step) |}.

(** [executeLadderStopLoss] *)
Definition executeLadderStopLoss (tick : PriceTick) (ls : LadderState)
    (step : LadderStep) (e : Engine) : Engine :=
  let openShares := getOpenLadderShares ls in
  if Qltb openShares 0.01 then
    let e := clearLadderMarketLock (ls_marketSlug ls) e in
    let ls := resetLadderState (now (clock e)) ls in
    set_clock (S (clock e)) (set_ladderState (Some ls) e)
  else
    let exitPrice := Qmax (bestBid tick * (1 - slippage cfg)) 0.01 in
    let proceeds := openShares * exitPrice in
    let trade := stopLossTrade tick ls step openShares in
    let ls := set_totalSharesSold (totalSharesSold ls + openShares) ls in
    let ls := set_totalSellProceeds (totalSellProceeds ls + proceeds) ls in
    let e := set_balance (balance e + proceeds) e in
    let e := recordLadderTrade trade e in
    let e := checkCompoundLimit e in
    let e := clearLadderMarketLock (ls_marketSlug ls) e in
    let ls := resetLadderState (now (clock e)) ls in
    set_clock (S (clock e)) (set_ladderState (Some ls) e).

(** [closeLadderAtExpiry].  The ladder object is dropped at the end, so its
    last two assignments ([totalSharesSold], [totalSellProceeds]) are not
    kept. *)
Definition closeLadderAtExpiry (market : HistoricalMarket) (e : Engine) : Engine :=
  match ladderState e with
  | None => e
  | Some ls =>
    let remainingShares := totalShares ls - totalSharesSold ls in
    if Qltb remainingShares 0.01 then set_ladderState None e
    else
      let exitPrice := resolutionPrice market (ls_side ls) in
      let proceeds := remainingShares * exitPrice in
      let pnl := proceeds - costBasisPortion ls remainingShares in
      let e := set_balance (balance e + proceeds) e in
      let trade := {|
        trade_marketSlug := ls_marketSlug ls;
        trade_tokenId := ls_tokenId ls;
        trade_side := ls_side ls;
        trade_entryPrice := averageEntryPrice ls;
        trade_exitPrice := exitPrice;
        trade_shares := remainingShares;
        trade_entryTimestamp := lastStepTime ls;
        trade_exitTimestamp := market_endDate market;
        trade_exitReason := MARKET_RESOLVED;
        trade_pnl := pnl;
        trade_ladderStepId := None |} in
      let e := recordLadderTrade trade e in
      let e := checkCompoundLimit e in
      set_ladderState None e
  end.

(** The stop-loss test of [processLadderStateTick]:
    [hasShares && stopLossStep && tick.bestBid > 0 &&
     tick.bestBid <= stopLossStep.stopLoss]. *)
Definition ladderStopLossHit (tick : PriceTick) (ls : LadderState)
    (ladderSteps : list LadderStep) : option LadderStep :=
  let hasShares := Qgtb (getOpenLadderShares ls) 0.01 in
  match getActiveStopLossStep ls ladderSteps with
  | Some stopLossStep =>
    if hasShares && Qgtb (bestBid tick) 0
       && Qleb (bestBid tick) (step_stopLoss stopLossStep)
    then Some stopLossStep else None
  | None => None
  end.

(** The recovery test:
    [firstBuyStep && tick.bestAsk > 0 &&
     tick.bestAsk > firstBuyStep.buy.triggerPrice]. *)
Definition recoveryCleared (tick : PriceTick) (ladderSteps : list LadderStep) : bool :=
  match find step_enabled ladderSteps with
  | Some firstBuyStep =>
    Qgtb (bestAsk tick) 0
    && Qgtb (bestAsk tick) (triggerPrice (step_buy firstBuyStep))
  | None => false
  end.

(** [processLadderStateTick].  [currentStepPhase] is always ["buy"] or
    ["sell"], so the assignment guarded by [!currentStepPhase] never runs. *)
Definition processLadderStateTick (tick : PriceTick) (_market : HistoricalMarket)
    (ladderSteps : list LadderStep) (e : Engine) : Engine :=
  match ladderState e with
  | None => e
  | Some ls =>
    match ladderStopLossHit tick ls ladderSteps with
    | Some stopLossStep => executeLadderStopLoss tick ls stopLossStep e
    | None =>
      if negb (bool_decide (ls_status ls = active)) then e
      else if needsRecovery ls && negb (recoveryCleared tick ladderSteps) then e
      else
        let ls :=
          if needsRecovery ls
          then set_lastStepTime (tick_timestamp tick) (set_needsRecovery false ls)
          else ls in
        match getActiveStep ladderSteps ls with
        | (None, ls) =>
          if bool_decide (ls_status ls = active) then
            let ls := set_status completed ls in
            let e := lockLadderMarket (ls_marketSlug ls) e in
            let remainingShares := totalShares ls - totalSharesSold ls in
            if Qltb remainingShares 0.01
            then set_ladderState None e
            else set_ladderState (Some ls) e
          else set_ladderState (Some ls) e
        | (Some nextStep, ls) =>
          match currentStepPhase ls with
          | phaseBuy =>
            if Qgtb (bestAsk tick) 0
               && Qleb (bestAsk tick) (triggerPrice (step_buy nextStep))
            then executeLadderBuyStep tick ls nextStep e
            else set_ladderState (Some ls) e
          | phaseSell =>
            if Qgtb (bestBid tick) 0
               && Qgeb (bestBid tick) (triggerPrice (step_sell nextStep))
            then executeLadderSellStep tick ls nextStep e
            else set_ladderState (Some ls) e
          end
        end
    end
  end.

(** [processLadderTick] *)
Definition processLadderTick (tick : PriceTick) (market : HistoricalMarket)
    (e : Engine) : Engine :=
  let ladderSteps := ladderSteps cfg in
  if bool_decide (length ladderSteps = 0%nat) then e
  else
    match ladderState e with
    | Some ls =>
      if negb (bool_decide (tick_tokenId tick = ls_tokenId ls)) then e
      else processLadderStateTick tick market ladderSteps e
    | None =>
      if Qltb (balance e) 1 then e
      else if isLadderMarketLocked (market_slug market) e then e
      else
        let now_ := tick_timestamp tick in
        let marketEndTime := market_endDate market in
        let timeRemaining := (marketEndTime - now_)%Z in
        if (timeRemaining <=? 0)%Z || (timeRemaining >? timeWindowMs cfg)%Z then e
        else
          let spread := bestAsk tick - bestBid tick in
          if Qgtb spread (maxSpread cfg) then e
          else
            let askPrice := bestAsk tick in
            if Qltb askPrice (entryThreshold cfg) || Qgtb askPrice (maxEntryPrice cfg)
            then e
            else
              let side := sideOf tick market in
              if lastTradeWonSide market side e then e
              else
                match find step_enabled ladderSteps with
                | None => e
                | Some firstEnabledStep =>
                  if Qltb askPrice (triggerPrice (step_buy firstEnabledStep)) then e
                  else
                    let ls := initializeLadderState (now (clock e)) (tick_tokenId tick)
                                side (market_slug market) (market_endDate market) in
                    let e := set_clock (S (clock e)) e in
                    let ls := set_lastStepPrice askPrice ls in
                    let ls := set_lastStepTime (tick_timestamp tick) ls in
                    let e := set_ladderState (Some ls) e in
                    let priceTolerance := 0.005 in
                    if Qleb (Qabs (askPrice - triggerPrice (step_buy firstEnabledStep)))
                            priceTolerance
                    then executeLadderBuyStep tick ls firstEnabledStep e
                    else e
                end
    end.

(** [processTick] *)
Definition processTick (tick : PriceTick) (market : HistoricalMarket)
    (e : Engine) : Engine :=
  if bool_decide (riskMode cfg = ladder) then processLadderTick tick market e
  else
    match position e with
    | Some p =>
      if bool_decide (pos_tokenId p = tick_tokenId tick) then
        if Qgeb (bestBid tick) (profitTarget cfg)
        then executeExit (profitTarget cfg) (tick_timestamp tick) PROFIT_TARGET e
        else checkStopLoss tick e
      else e
    | None =>
      if Qgeb (balance e) 1 then checkEntry tick market e else e
    end.

(** *** The replay loop of [run] *)

(** [marketMap]: a later market of the same slug replaces an earlier one. *)
Definition marketMapOf (markets : list HistoricalMarket)
    : gmap string HistoricalMarket :=
  foldl (fun m market => <[market_slug market := market]> m) ∅ markets.

(** [allTicks] before sorting: every tick with its market, market by market. *)
Definition allTicksOf (markets : list HistoricalMarket)
    : list (PriceTick * HistoricalMarket) :=
  flat_map (fun market => map (fun tick => (tick, market)) (priceTicks market))
           markets.

(** [allTicks.sort((a, b) => a.tick.timestamp - b.tick.timestamp)]: the sort
    is stable, ticks of equal timestamp keep their order. *)
Fixpoint insertTick (x : PriceTick * HistoricalMarket)
    (l : list (PriceTick * HistoricalMarket)) : list (PriceTick * HistoricalMarket) :=
  match l with
  | [] => [x]
  | y :: l' =>
    if (tick_timestamp (fst x) <=? tick_timestamp (fst y))%Z
    then x :: y :: l'
    else y :: insertTick x l'
  end.

Definition sortTicks (l : list (PriceTick * HistoricalMarket))
    : list (PriceTick * HistoricalMarket) :=
  foldr insertTick [] l.

(** [slug || fallback] for the slug of an optional object. *)
Definition slugOr (slug : option string) (fallback : string) : string :=
  match slug with
  | Some s => if bool_decide (s = EmptyString) then fallback else s
  | None => fallback
  end.

(** The first block of the loop body: the market of the open position has
    ended. *)
Definition expirePosition (marketMap : gmap string HistoricalMarket)
    (tick : PriceTick) (st : Engine * gset string) : Engine * gset string :=
  let '(e, expiredMarkets) := st in
  match position e with
  | Some p =>
    if bool_decide (pos_marketSlug p ∈ expiredMarkets) then st
    else
      match marketMap !! pos_marketSlug p with
      | Some positionMarket =>
        if (tick_timestamp tick >=? market_endDate positionMarket)%Z then
          let e := closePositionAtExpiry positionMarket e in
          (e, expiredMarkets ∪
                {[ slugOr (pos_marketSlug <$> position e) (market_slug positionMarket) ]})
        else st
      | None => st
      end
  | None => st
  end.

(** The second block: the market of the active ladder has ended. *)
Definition expireLadder (marketMap : gmap string HistoricalMarket)
    (tick : PriceTick) (st : Engine * gset string) : Engine * gset string :=
  let '(e, expiredMarkets) := st in
  match ladderState e with
  | Some ls =>
    if bool_decide (ls_marketSlug ls ∈ expiredMarkets) then st
    else
      match marketMap !! ls_marketSlug ls with
      | Some ladderMarket =>
        if (tick_timestamp tick >=? market_endDate ladderMarket)%Z then
          let e := closeLadderAtExpiry ladderMarket e in
          (e, expiredMarkets ∪
                {[ slugOr (ls_marketSlug <$> ladderState e) (market_slug ladderMarket) ]})
        else st
      | None => st
      end
  | None => st
  end.

(** One iteration of [for (const { tick, market } of allTicks)]. *)
Definition runTick (marketMap : gmap string HistoricalMarket)
    (st : Engine * gset string) (tm : PriceTick * HistoricalMarket)
    : Engine * gset string :=
  let '(tick, market) := tm in
  let st := expirePosition marketMap tick st in
  let '(e, expiredMarkets) := expireLadder marketMap tick st in
  if bool_decide (market_slug market ∈ expiredMarkets) then (e, expiredMarkets)
  else if (tick_timestamp tick >=? market_endDate market)%Z then
    let e :=
      match position e with
      | Some p =>
        if bool_decide (pos_marketSlug p = market_slug market)
        then closePositionAtExpiry market e else e
      | None => e
      end in
    let e :=
      match ladderState e with
      | Some ls =>
        if bool_decide (ls_marketSlug ls = market_slug market)
        then closeLadderAtExpiry market e else e
      | None => e
      end in
    (e, expiredMarkets ∪ {[ market_slug market ]})
  else
    let e := set_currentMarket (Some market) e in
    (processTick tick market e, expiredMarkets).

(** The two forced closes after the loop. *)
Definition closeRemaining (marketMap : gmap string HistoricalMarket)
    (e : Engine) : Engine :=
  let e :=
    match position e with
    | Some p =>
      match marketMap !! pos_marketSlug p with
      | Some market => closePositionAtExpiry market e
      | None => e
      end
    | None => e
    end in
  match ladderState e with
  | Some ls =>
    match marketMap !! ls_marketSlug ls with
    | Some market => closeLadderAtExpiry market e
    | None => e
    end
  | None => e
  end.

(** The state [run] starts from: every field reset but [currentMarket]. *)
Definition resetEngine (e : Engine) : Engine := {|
  balance := startingBalance cfg;
  savedProfit := 0;
  position := None;
  ladderState := None;
  ladderMarketLocks := ∅;
  trades := [];
  equityCurve := [];
  peakBalance := startingBalance cfg;
  lastTrade := None;
  currentMarket := currentMarket e;
  clock := clock e |}.

(** The engine after the loop and the forced closes of [run]. *)
Definition replay (markets : list HistoricalMarket) (e : Engine) : Engine :=
  let e := resetEngine e in
  let marketMap := marketMapOf markets in
  let allTicks := sortTicks (allTicksOf markets) in
  let '(e, _) := foldl (runTick marketMap) (e, ∅) allTicks in
  closeRemaining marketMap e.

(** *** Metrics *)

(** A number that may be [Infinity] ([profitFactor]). *)
Inductive Ratio := Finite (q : Q) | Infinity.

Record PerformanceMetrics := {
  totalTrades : nat;
  wins : nat;
  losses : nat;
  winRate : Q;
  totalPnL : Q;
  maxDrawdown : Q;
  maxDrawdownPercent : Q;
  sharpeRatio : Q;
  profitFactor : Ratio;
  avgWin : Q;
  avgLoss : Q;
  avgTradeReturn : Q;
  maxConsecutiveWins : nat;
  maxConsecutiveLosses : nat;
  expectancy : Q;
  returnOnCapital : Q;
}.

Record BacktestResult := {
  res_config : BacktestConfig;
  res_metrics : PerformanceMetrics;
  res_trades : list BacktestTrade;
  res_equityCurve : list EquityPoint;
  res_drawdownCurve : list DrawdownPoint;
  res_savedProfit : Q;
  res_finalBalance : Q;
}.

(** [Math.sqrt] *)
Variable sqrt : Q -> Q.

(** An array length as a number. *)
Definition lengthQ {A} (l : list A) : Q := inject_Z (Z.of_nat (length l)).

(** [l.reduce((s, x) => s + f(x), 0)] *)
Definition sumOf {A} (f : A -> Q) (l : list A) : Q :=
  foldl (fun s x => s + f x) 0 l.

(** [calculateMaxDrawdown]: the loop state is
    [(peak, maxDrawdown, maxDrawdownPercent)]. *)
Definition drawdownStep (st : Q * Q * Q) (point : EquityPoint) : Q * Q * Q :=
  let '(peak, maxDrawdown, maxDrawdownPercent) := st in
  let peak := if Qgtb (eq_balance point) peak then eq_balance point else peak in
  let drawdown := peak - eq_balance point in
  let drawdownPercent := if Qgtb peak 0 then drawdown / peak else 0 in
  if Qgtb drawdown maxDrawdown
  then (peak, drawdown, drawdownPercent)
  else (peak, maxDrawdown, maxDrawdownPercent).

Definition calculateMaxDrawdown (e : Engine) : Q * Q :=
  let '(_, maxDrawdown, maxDrawdownPercent) :=
    foldl drawdownStep (startingBalance cfg, 0, 0) (equityCurve e) in
  (maxDrawdown, maxDrawdownPercent).

(** [calculateDrawdownCurve]: the loop state is [(peak, drawdownCurve)]. *)
Definition drawdownCurveStep (st : Q * list DrawdownPoint) (point : EquityPoint)
    : Q * list DrawdownPoint :=
  let '(peak, curve) := st in
  let peak := if Qgtb (eq_balance point) peak then eq_balance point else peak in
  let drawdown := if Qgtb peak 0 then (peak - eq_balance point) / peak else 0 in
  (peak, curve ++ [{| dd_timestamp := eq_timestamp point; dd_drawdown := drawdown |}]).

Definition calculateDrawdownCurve (e : Engine) : list DrawdownPoint :=
  snd (foldl drawdownCurveStep (startingBalance cfg, []) (equityCurve e)).

(** [calculateConsecutive]: the loop state is
    [(maxConsecutiveWins, maxConsecutiveLosses, currentWins, currentLosses)]. *)
Definition consecutiveStep (st : nat * nat * nat * nat) (trade : BacktestTrade)
    : nat * nat * nat * nat :=
  let '(maxW, maxL, curW, curL) := st in
  if Qgtb (trade_pnl trade) 0 then
    let curW := S curW in
    (if (maxW <? curW)%nat then curW else maxW, maxL, curW, 0%nat)
  else
    let curL := S curL in
    (maxW, if (maxL <? curL)%nat then curL else maxL, 0%nat, curL).

Definition calculateConsecutive (e : Engine) : nat * nat :=
  let '(maxW, maxL, _, _) :=
    foldl consecutiveStep (0, 0, 0, 0)%nat (trades e) in
  (maxW, maxL).

(** [calculateMetrics] *)
Definition calculateMetrics (e : Engine) : PerformanceMetrics :=
  let wins_ := filter (fun t => Qgtb (trade_pnl t) 0 = true) (trades e) in
  let losses_ := filter (fun t => Qleb (trade_pnl t) 0 = true) (trades e) in
  let totalPnL_ := sumOf trade_pnl (trades e) in
  let avgWin_ :=
    if (0 <? length wins_)%nat then sumOf trade_pnl wins_ / lengthQ wins_ else 0 in
  let avgLoss_ :=
    if (0 <? length losses_)%nat
    then Qabs (sumOf trade_pnl losses_ / lengthQ losses_) else 0 in
  let winRate_ :=
    if (0 <? length (trades e))%nat then lengthQ wins_ / lengthQ (trades e) else 0 in
  let '(maxDrawdown_, maxDrawdownPercent_) := calculateMaxDrawdown e in
  let returns := map (fun t => trade_pnl t / startingBalance cfg) (trades e) in
  let avgReturn :=
    if (0 <? length returns)%nat then sumOf id returns / lengthQ returns else 0 in
  let stdDev :=
    if (0 <? length returns)%nat
    then sqrt (sumOf (fun r => (r - avgReturn) ^ 2) returns / lengthQ returns)
    else 0 in
  let sharpeRatio_ :=
    if Qgtb stdDev 0 then (avgReturn / stdDev) * sqrt (lengthQ returns) else 0 in
  let grossProfit := sumOf trade_pnl wins_ in
  let grossLoss := Qabs (sumOf trade_pnl losses_) in
  let profitFactor_ :=
    if Qgtb grossLoss 0 then Finite (grossProfit / grossLoss)
    else if Qgtb grossProfit 0 then Infinity else Finite 0 in
  let '(maxConsecutiveWins_, maxConsecutiveLosses_) := calculateConsecutive e in
  let expectancy_ := winRate_ * avgWin_ - (1 - winRate_) * avgLoss_ in
  let returnOnCapital_ := totalPnL_ / startingBalance cfg in
  {| totalTrades := length (trades e);
     wins := length wins_;
     losses := length losses_;
     winRate := winRate_;
     totalPnL := totalPnL_;
     maxDrawdown := maxDrawdown_;
     maxDrawdownPercent := maxDrawdownPercent_;
     sharpeRatio := sharpeRatio_;
     profitFactor := profitFactor_;
     avgWin := avgWin_;
     avgLoss := avgLoss_;
     avgTradeReturn :=
       if (0 <? length (trades e))%nat then totalPnL_ / lengthQ (trades e) else 0;
     maxConsecutiveWins := maxConsecutiveWins_;
     maxConsecutiveLosses := maxConsecutiveLosses_;
     expectancy := expectancy_;
     returnOnCapital := returnOnCapital_ |}.

(** [run]: the result, and the engine it leaves behind. *)
Definition run (markets : list HistoricalMarket) (e : Engine)
    : BacktestResult * Engine :=
  let e := replay markets e in
  ({| res_config := cfg;
      res_metrics := calculateMetrics e;
      res_trades := trades e;
      res_equityCurve := equityCurve e;
      res_drawdownCurve := calculateDrawdownCurve e;
      res_savedProfit := savedProfit e;
      res_finalBalance := balance e |}, e).

End BacktestEngine.

(** [new BacktestEngine(config)] *)
Definition newEngine (cfg : BacktestConfig) : Engine := {|
  balance := startingBalance cfg;
  savedProfit := 0;
  position := None;
  ladderState := None;
  ladderMarketLocks := ∅;
  trades := [];
  equityCurve := [];
  peakBalance := startingBalance cfg;
  lastTrade := None;
  currentMarket := None;
  clock := 0 |}.

(** [runBacktest] *)
Definition runBacktest (now : nat -> Z) (sqrt : Q -> Q) (cfg : BacktestConfig)
    (markets : list HistoricalMarket) : BacktestResult :=
  fst (run cfg now sqrt markets (newEngine cfg)).

(** ** Predicates used in the statements *)

(** Two engine states that hold the same account up to equality of
    rationals, and are otherwise identical. *)
Definition sameAccount (e1 e2 : Engine) : Prop :=
  balance e1 == balance e2 /\ savedProfit e1 == savedProfit e2 /\
  set_balance 0 (set_savedProfit 0 e1) = set_balance 0 (set_savedProfit 0 e2).

(** A step the ladder can still act on. *)
Definition actionable (ls : LadderState) (step : LadderStep) : Prop :=
  step_enabled step = true /\
  (step_id step ∉ completedSteps ls) /\ (step_id step ∉ skippedSteps ls).

(** What a traversal from [ls] returns: [ls'] is [ls] with the index moved
    forward over steps that cannot be acted on, and the result is the step
    found there, or nothing when the index ran off the list. *)
Definition traversal (steps : list LadderStep) (ls : LadderState) (r : option LadderStep)
    (ls' : LadderState) : Prop :=
  ls' = set_currentStepIndex (currentStepIndex ls') ls /\
  (currentStepIndex ls <= currentStepIndex ls')%nat /\
  (currentStepIndex ls' <= Nat.max (currentStepIndex ls) (length steps))%nat /\
  (forall i step, (currentStepIndex ls <= i < currentStepIndex ls')%nat ->
     steps !! i = Some step -> ~ actionable ls step) /\
  match r with
  | Some step => steps !! currentStepIndex ls' = Some step /\ actionable ls step
  | None => (length steps <= currentStepIndex ls')%nat
  end.


(** ** Proof automation *)

(** Splits the five parts of [traversal]. *)
Ltac split_traversal := split; [|split; [|split; [|split]]].

(** The constraints of the entry filter that both modes share: time
    remaining in [(0, timeWindowMs]], spread at most [maxSpread], ask within
    [[entryThreshold, maxEntryPrice]]. *)
Definition entryFilter (cfg : BacktestConfig) (tick : PriceTick)
    (market : HistoricalMarket) : Prop :=
  (0 < market_endDate market - tick_timestamp tick <= timeWindowMs cfg)%Z /\
  bestAsk tick - bestBid tick <= maxSpread cfg /\
  entryThreshold cfg <= bestAsk tick /\ bestAsk tick <= maxEntryPrice cfg.

(** ** Example inputs *)

(** The configuration of the repository's ladder tests
    ([__tests__/backtest-ladder.test.ts]). *)
Definition testStep : LadderStep := {|
  step_id := "step1";
  step_stopLoss := 0.4;
  step_buy := {| triggerPrice := 0.6; sizeType := percent; sizeValue := 100 |};
  step_sell := {| triggerPrice := 0.7; sizeType := percent; sizeValue := 100 |};
  step_enabled := true |}.

Definition testConfig : BacktestConfig := {|
  entryThreshold := 0.5;
  maxEntryPrice := 0.9;
  stopLoss := 0.4;
  maxSpread := 0.05;
  timeWindowMs := 900000;
  profitTarget := 0.99;
  startingBalance := 100;
  slippage := 0;
  compoundLimit := 0;
  baseBalance := 10;
  riskMode := ladder;
  ladderSteps := [testStep] |}.

(** The same parameters in normal mode, with the compounding of the
    specification's example ([compoundLimit = 15], [baseBalance = 10]). *)
Definition normalConfig : BacktestConfig := {|
  entryThreshold := 0.5;
  maxEntryPrice := 0.9;
  stopLoss := 0.4;
  maxSpread := 0.05;
  timeWindowMs := 900000;
  profitTarget := 0.99;
  startingBalance := 20;
  slippage := 0;
  compoundLimit := 15;
  baseBalance := 10;
  riskMode := normal;
  ladderSteps := [] |}.

(** 2024-01-01T00:00:00Z and a quarter of an hour later. *)
Definition BASE_START : Z := 1704067200000.
Definition BASE_END : Z := 1704068100000.

Definition makeTick (timestamp : Z) (bid ask : Q) : PriceTick := {|
  tick_timestamp := timestamp;
  tick_tokenId := "UP";
  tick_marketSlug := "btc-updown-15m-1";
  bestBid := bid;
  bestAsk := ask;
  midPrice := (bid + ask) / 2 |}.

Definition makeMarket (ticks : list PriceTick) (o : option Side)
    : HistoricalMarket := {|
  market_slug := "btc-updown-15m-1";
  market_endDate := BASE_END;
  upTokenId := "UP";
  downTokenId := "DOWN";
  outcome := o;
  priceTicks := ticks |}.





(** An engine of [normalConfig] holding 40 shares bought at 0.50. *)
Definition heldPosition : SimulatedPosition := {|
  pos_tokenId := "UP";
  pos_marketSlug := "btc-updown-15m-1";
  pos_side := UP;
  pos_shares := 40;
  pos_entryPrice := 0.5;
  pos_entryTimestamp := BASE_START |}.

Definition holdingEngine : Engine :=
  set_position (Some heldPosition) (set_balance 0 (newEngine normalConfig)).

(** The trade [executeExit] builds when it closes position [p]. *)
Definition closingTrade (cfg : BacktestConfig) (p : SimulatedPosition)
    (exitPrice : Q) (exitTimestamp : Z) (exitReason : ExitReason)
    : BacktestTrade :=
  let finalExitPrice :=
    if bool_decide (exitReason = STOP_LOSS)
    then Qmax (exitPrice * (1 - slippage cfg)) 0.01
    else exitPrice in
  {| trade_marketSlug := pos_marketSlug p;
     trade_tokenId := pos_tokenId p;
     trade_side := pos_side p;
     trade_entryPrice := pos_entryPrice p;
     trade_exitPrice := finalExitPrice;
     trade_shares := pos_shares p;
     trade_entryTimestamp := pos_entryTimestamp p;
     trade_exitTimestamp := exitTimestamp;
     trade_exitReason := exitReason;
     trade_pnl := (finalExitPrice - pos_entryPrice p) * pos_shares p;
     trade_ladderStepId := None |}.

(** Settles a closed comparison of numbers by evaluation. *)
Ltac by_evaluation :=
  vm_compute; first [reflexivity | discriminate | intro; discriminate].


(** A ladder as [resetLadderState] leaves it. *)
Definition isReset (ls : LadderState) : Prop :=
  currentStepIndex ls = 0%nat /\ currentStepPhase ls = phaseBuy /\
  completedSteps ls = [] /\ skippedSteps ls = [] /\ skippedReasons ls = ∅ /\
  totalShares ls = 0 /\ totalCostBasis ls = 0 /\ averageEntryPrice ls = 0 /\
  totalSharesSold ls = 0 /\ totalSellProceeds ls = 0 /\
  needsRecovery ls = true /\ ls_status ls = active.

(** The wall clock of the examples. *)
Definition testClock : nat -> Z := fun _ => BASE_START.

(** The market of the ladder tests, and the engine of [testConfig] after the
    first two ticks of those tests (ask 0.65, then ask 0.60): the ladder has
    bought [100 / 0.60] shares and waits to sell. *)
Definition testMarket : HistoricalMarket := makeMarket [] None.

Definition boughtEngine : Engine :=
  processTick testConfig testClock (makeTick (BASE_START + 120000) 0.59 0.60) testMarket
    (processTick testConfig testClock (makeTick (BASE_START + 60000) 0.64 0.65) testMarket
       (newEngine testConfig)).

(** A ladder that has sold all but 0.005 of 100 shares bought at 0.60, its
    one step completed. *)
Definition dustLadder : LadderState := {|
  ls_tokenId := "UP";
  ls_side := UP;
  ls_marketSlug := "btc-updown-15m-1";
  ls_marketEndDate := BASE_END;
  currentStepIndex := 1;
  currentStepPhase := phaseBuy;
  completedSteps := ["step1"];
  skippedSteps := [];
  skippedReasons := ∅;
  totalShares := 100;
  totalCostBasis := 60;
  averageEntryPrice := 0.6;
  totalSharesSold := 99.995;
  totalSellProceeds := 69.9965;
  ladderStartTime := BASE_START;
  lastStepTime := BASE_START + 180000;
  lastStepPrice := 0.7;
  needsRecovery := false;
  ls_status := active |}.





(** [boughtEngine] after the stop-loss tick of the ladder tests (bid 0.39):
    the ladder is reset and waits for recovery. *)
Definition stoppedEngine : Engine :=
  processTick testConfig testClock (makeTick (BASE_START + 180000) 0.39 0.40)
    testMarket boughtEngine.

Definition stoppedLadder : LadderState :=
  Eval vm_compute in default dustLadder (ladderState stoppedEngine).

(** The timestamp a sorted entry carries. *)
Definition entryTime (x : PriceTick * HistoricalMarket) : Z :=
  tick_timestamp (fst x).

(** What one operation may do to the ledger: nothing, or record one trade,
    which becomes the last trade and adds one equity point stamped with the
    trade's exit time. *)
Inductive ledgerStep (e e' : Engine) : Prop :=
| ledger_same :
    trades e' = trades e -> lastTrade e' = lastTrade e ->
    equityCurve e' = equityCurve e -> ledgerStep e e'
| ledger_record (t : BacktestTrade) (b : Q) :
    trades e' = trades e ++ [t] -> lastTrade e' = Some t ->
    equityCurve e' = equityCurve e ++
      [{| eq_timestamp := trade_exitTimestamp t; eq_balance := b |}] ->
    ledgerStep e e'.

(** Takes the definition of an operation apart, one test at a time. *)
Ltac break_test :=
  match goal with
  | |- context [if ?c then _ else _] => destruct c eqn:?
  | |- context [match ?c with Some _ => _ | None => _ end] => destruct c eqn:?
  | |- context [match ?c with phaseBuy => _ | phaseSell => _ end] => destruct c eqn:?
  | |- context [match ?c with (_, _) => _ end] => destruct c eqn:?
  end.

(** The ledger of an engine: its trades, the last of them as the engine
    remembers it, and the equity curve. *)
Definition ledger (e : Engine)
    : list BacktestTrade * option BacktestTrade * list EquityPoint :=
  (trades e, lastTrade e, equityCurve e).

(** The ledger as [run] leaves it: the remembered trade is the last one
    recorded, and the equity curve has one point per trade, stamped with the
    trade's exit time. *)
Definition ledgerConsistent (e : Engine) : Prop :=
  lastTrade e = last (trades e) /\
  map eq_timestamp (equityCurve e) = map trade_exitTimestamp (trades e).
(** The market an engine is exposed to through its ladder, if any. *)
Definition ladderSlug (e : Engine) : option string :=
  ls_marketSlug <$> ladderState e.

(** The market an engine is exposed to through its position, if any. *)
Definition positionSlug (e : Engine) : option string :=
  pos_marketSlug <$> position e.

(** What an operation on [market] may do to an exposure: keep it, end it, or
    open one in [market]. *)
Definition exposureStep (market : HistoricalMarket) (before after : option string)
    : Prop :=
  after = before \/ after = None \/ after = Some (market_slug market).

(** The engine of [run] after the first [n] ticks of the merged sequence. *)
Definition replayPrefix (cfg : BacktestConfig) (now : nat -> Z)
    (markets : list HistoricalMarket) (e0 : Engine) (n : nat) : Engine :=
  fst (foldl (runTick cfg now (marketMapOf markets)) (resetEngine cfg e0, ∅)
         (take n (sortTicks (allTicksOf markets)))).

(** Every exposure of the engine is to a market of the map. *)
Definition exposureKnown (marketMap : gmap string HistoricalMarket) (e : Engine)
    : Prop :=
  (forall s, positionSlug e = Some s -> is_Some (marketMap !! s)) /\
  (forall s, ladderSlug e = Some s -> is_Some (marketMap !! s)).

(** The engine holds a position only outside ladder mode, a ladder only in
    ladder mode. *)
Definition modeExclusive (cfg : BacktestConfig) (e : Engine) : Prop :=
  (riskMode cfg = ladder -> position e = None) /\
  (riskMode cfg <> ladder -> ladderState e = None).

(** The money a normal-mode position was bought for. *)
Definition invested (e : Engine) : Q :=
  match position e with
  | Some p => pos_entryPrice p * pos_shares p
  | None => 0
  end.

(** The books of a normal-mode engine: all of the balance is in the position
    while one is held, and balance, saved profit and the money invested add
    up to the starting balance plus the profit and loss of the trades. *)
Definition booksBalance (cfg : BacktestConfig) (e : Engine) : Prop :=
  (position e <> None -> balance e == 0) /\
  balance e + savedProfit e + invested e
    == startingBalance cfg + sumOf trade_pnl (trades e).

(** A market for [normalConfig]: an ask of 0.60 a quarter of an hour before
    the end, then a bid at the profit target. *)
Definition normalMarket : HistoricalMarket :=
  makeMarket [makeTick (BASE_START + 60000) 0.59 0.60;
              makeTick (BASE_START + 120000) 0.99 0.995] (Some UP).

(** ** What the wall clock leaves behind

    [Date.now()] is read into [ladderStartTime] when a ladder is created and
    into [lastStepTime] when one is reset; a reset leaves the ladder without
    shares.  [retime t0 t1 ls] is [ls] with another [ladderStartTime], and
    another [lastStepTime] when it holds less than 0.01 shares;
    [reclock c m t0 t1 e] is [e] with another read count and
    [currentMarket], and its ladder retimed. *)
Definition retime (t0 t1 : Z) (ls : LadderState) : LadderState := {|
  ls_tokenId := ls_tokenId ls;
  ls_side := ls_side ls;
  ls_marketSlug := ls_marketSlug ls;
  ls_marketEndDate := ls_marketEndDate ls;
  currentStepIndex := currentStepIndex ls;
  currentStepPhase := currentStepPhase ls;
  completedSteps := completedSteps ls;
  skippedSteps := skippedSteps ls;
  skippedReasons := skippedReasons ls;
  totalShares := totalShares ls;
  totalCostBasis := totalCostBasis ls;
  averageEntryPrice := averageEntryPrice ls;
  totalSharesSold := totalSharesSold ls;
  totalSellProceeds := totalSellProceeds ls;
  ladderStartTime := t0;
  lastStepTime :=
    if Qltb (totalShares ls - totalSharesSold ls) 0.01 then t1 else lastStepTime ls;
  lastStepPrice := lastStepPrice ls;
  needsRecovery := needsRecovery ls;
  ls_status := ls_status ls |}.

Definition reclock (c : nat) (m : option HistoricalMarket) (t0 t1 : Z)
    (e : Engine) : Engine :=
  set_clock c (set_currentMarket m
    (set_ladderState (retime t0 t1 <$> ladderState e) e)).

(** Two engines that differ in nothing but what the wall clock left. *)
Definition sameButClock (e e' : Engine) : Prop :=
  reclock 0 None 0 0 e = reclock 0 None 0 0 e'.

(** An engine that owes nothing: its balance is not negative and it is not
    short of shares. *)
Definition solvent (e : Engine) : Prop :=
  0 <= balance e /\ forall p, position e = Some p -> 0 <= pos_shares p.

(** The first ladder test: an ask of 0.65, one of 0.60 that buys, a bid of
    0.70 that sells. *)
Definition ladderMarket : HistoricalMarket :=
  makeMarket [makeTick (BASE_START + 60000) 0.64 0.65;
              makeTick (BASE_START + 120000) 0.59 0.60;
              makeTick (BASE_START + 180000) 0.70 0.71] None.

(** ** Numbers that may be no number

    What [parseFloat] and [parseInt] make of a command-line argument is a
    number, an infinity, or [NaN]; so is every value of type [number] that
    is only compared.  A comparison with [NaN] on either side is false. *)
Inductive number := NaN | MinusInfinity | Number (q : Q) | PlusInfinity.

Definition isNaN (x : number) : bool :=
  match x with NaN => true | _ => false end.

(** [x < y] *)
Definition number_ltb (x y : number) : bool :=
  match x, y with
  | NaN, _ | _, NaN => false
  | Number a, Number b => Qltb a b
  | MinusInfinity, MinusInfinity => false
  | MinusInfinity, _ => true
  | PlusInfinity, _ => false
  | Number _, MinusInfinity => false
  | Number _, PlusInfinity => true
  end.

(** [x <= y] *)
Definition number_leb (x y : number) : bool :=
  match x, y with
  | NaN, _ | _, NaN => false
  | Number a, Number b => Qleb a b
  | MinusInfinity, _ => true
  | PlusInfinity, PlusInfinity => true
  | PlusInfinity, _ => false
  | Number _, MinusInfinity => false
  | Number _, PlusInfinity => true
  end.

(** [x > y] and [x >= y] *)
Definition number_gtb (x y : number) : bool := number_ltb y x.
Definition number_geb (x y : number) : bool := number_leb y x.

(** ** Validation of a backtest configuration ([backtest/index.ts])

    The values are typed here, so the checks of [validateLadderSteps] on the
    shape of the data ([typeof step.id !== "string"], [!step.buy],
    [sizeType] being neither ["percent"] nor ["fixed"],
    [typeof step.enabled !== "boolean"]) never fire and are left out;
    [config.ladderSteps] being undefined is the empty list.  An error message
    is a string; [showNumber] is the conversion of a number in a template
    literal, [trim] is [String.prototype.trim].  The numbers of the steps
    come from the configuration file and are numbers. *)

Definition dquote : string := String (Ascii.ascii_of_nat 34) EmptyString.
Definition newline : string := String (Ascii.ascii_of_nat 10) EmptyString.

(** [errors.join(sep)] *)
Fixpoint joinWith (sep : string) (l : list string) : string :=
  match l with
  | [] => EmptyString
  | [x] => x
  | x :: rest => x +:+ sep +:+ joinWith sep rest
  end.

Section Validation.

Variable trim : string -> string.

(** The checks of one side ([buy] or [sell]) of a step. *)
Definition validateStepSide (stepPrefix side : string) (c : LadderStepSideConfig)
    : list string :=
  (if Qltb (triggerPrice c) 0.01 || Qgtb (triggerPrice c) 0.99
   then [stepPrefix +:+ "." +:+ side +:+ ".triggerPrice must be between 0.01 and 0.99"]
   else []) ++
  (if Qleb (sizeValue c) 0
   then [stepPrefix +:+ "." +:+ side +:+ ".sizeValue must be positive"]
   else []) ++
  (if match sizeType c with percent => true | fixed => false end
      && Qgtb (sizeValue c) 100
   then [stepPrefix +:+ "." +:+ side +:+ ".sizeValue must be <= 100"]
   else []).

(** The body of the loop of [validateLadderSteps] for [steps[i]]: the errors
    it pushes and the set of step ids afterwards. *)
Definition validateLadderStep (i : nat) (step : LadderStep) (stepIds : gset string)
    : list string * gset string :=
  let stepPrefix := "ladderSteps[" +:+ pretty i +:+ "]" in
  let '(idErrors, stepIds) :=
    if bool_decide (step_id step = EmptyString)
       || bool_decide (trim (step_id step) = EmptyString)
    then ([stepPrefix +:+ ".id must be a non-empty string"], stepIds)
    else if bool_decide (step_id step ∈ stepIds)
    then ([stepPrefix +:+ ".id duplicate step ID " +:+ dquote +:+ step_id step
             +:+ dquote], stepIds)
    else ([], stepIds ∪ {[ step_id step ]}) in
  let stopLossErrors :=
    if Qltb (step_stopLoss step) 0.01 || Qgtb (step_stopLoss step) 0.99
    then [stepPrefix +:+ ".stopLoss must be between 0.01 and 0.99"]
    else if Qgeb (step_stopLoss step) (triggerPrice (step_buy step))
    then [stepPrefix +:+ ".stopLoss must be less than buy.triggerPrice"]
    else [] in
  (idErrors ++ stopLossErrors
     ++ validateStepSide stepPrefix "buy" (step_buy step)
     ++ validateStepSide stepPrefix "sell" (step_sell step),
   stepIds).

(** [for (let i = ...; i < steps.length; i++)], from index [i] on: [steps] is
    what is left of the array. *)
Fixpoint validateStepsFrom (i : nat) (stepIds : gset string) (errors : list string)
    (steps : list LadderStep) : list string :=
  match steps with
  | [] => errors
  | step :: rest =>
    let '(stepErrors, stepIds) := validateLadderStep i step stepIds in
    validateStepsFrom (S i) stepIds (errors ++ stepErrors) rest
  end.

(** [validateLadderSteps] *)
Definition validateLadderSteps (steps : list LadderStep) : list string :=
  if bool_decide (length steps = 0%nat)
  then ["ladderSteps must have at least one step"]
  else
    let errors :=
      match find step_enabled steps with
      | None => ["ladderSteps must have at least one enabled step"]
      | Some _ => []
      end in
    validateStepsFrom 0 ∅ errors steps.

End Validation.

(** The configuration [buildConfig] hands to [validateBacktestConfig]: the
    entry threshold, the maximum entry price, the stop-loss, the spread
    limit, the time window and the starting balance may come from the
    command line, through [parseFloat] and [parseInt]; the other numbers and
    the ladder steps come from the configuration file.  Only the fields the
    validator reads are kept. *)
Record BuiltConfig := {
  built_entryThreshold : number;
  built_maxEntryPrice : number;
  built_stopLoss : number;
  built_maxSpread : number;
  built_timeWindowMs : number;
  built_profitTarget : number;
  built_startingBalance : number;
  built_slippage : number;
  built_riskMode : RiskMode;
  built_ladderSteps : list LadderStep;
}.

(** A configuration of the engine, all of whose numbers are numbers, as
    [buildConfig] hands it over. *)
Definition builtOf (config : BacktestConfig) : BuiltConfig := {|
  built_entryThreshold := Number (entryThreshold config);
  built_maxEntryPrice := Number (maxEntryPrice config);
  built_stopLoss := Number (stopLoss config);
  built_maxSpread := Number (maxSpread config);
  built_timeWindowMs := Number (inject_Z (timeWindowMs config));
  built_profitTarget := Number (profitTarget config);
  built_startingBalance := Number (startingBalance config);
  built_slippage := Number (slippage config);
  built_riskMode := riskMode config;
  built_ladderSteps := ladderSteps config |}.

Section BacktestValidation.

Variable trim : string -> string.
Variable showNumber : number -> string.

(** The [errors] array of [validateBacktestConfig]. *)
Definition backtestConfigErrors (config : BuiltConfig) : list string :=
  (if number_ltb (built_entryThreshold config) (Number 0.01)
      || number_gtb (built_entryThreshold config) (Number 0.99)
   then ["entryThreshold must be between 0.01 and 0.99 (got "
           +:+ showNumber (built_entryThreshold config) +:+ ")"]
   else []) ++
  (if number_ltb (built_maxEntryPrice config) (Number 0.01)
      || number_gtb (built_maxEntryPrice config) (Number 0.99)
   then ["maxEntryPrice must be between 0.01 and 0.99 (got "
           +:+ showNumber (built_maxEntryPrice config) +:+ ")"]
   else []) ++
  (if number_ltb (built_maxSpread config) (Number 0)
      || number_gtb (built_maxSpread config) (Number 0.50)
   then ["maxSpread must be between 0 and 0.50 (got "
           +:+ showNumber (built_maxSpread config) +:+ ")"]
   else []) ++
  (if number_ltb (built_slippage config) (Number 0)
      || number_gtb (built_slippage config) (Number 0.10)
   then ["slippage must be between 0 and 0.10 (got "
           +:+ showNumber (built_slippage config) +:+ ")"]
   else []) ++
  (if number_leb (built_startingBalance config) (Number 0)
   then ["startingBalance must be positive (got "
           +:+ showNumber (built_startingBalance config) +:+ ")"]
   else []) ++
  (if number_geb (built_entryThreshold config) (built_maxEntryPrice config)
   then ["entryThreshold (" +:+ showNumber (built_entryThreshold config)
           +:+ ") must be < maxEntryPrice ("
           +:+ showNumber (built_maxEntryPrice config) +:+ ")"]
   else []) ++
  (if bool_decide (built_riskMode config = ladder)
   then validateLadderSteps trim (built_ladderSteps config)
   else
     (if number_ltb (built_stopLoss config) (Number 0.01)
         || number_gtb (built_stopLoss config) (Number 0.99)
      then ["stopLoss must be between 0.01 and 0.99 (got "
              +:+ showNumber (built_stopLoss config) +:+ ")"]
      else []) ++
     (if number_ltb (built_profitTarget config) (Number 0.01)
         || number_gtb (built_profitTarget config) (Number 0.99)
      then ["profitTarget must be between 0.01 and 0.99 (got "
              +:+ showNumber (built_profitTarget config) +:+ ")"]
      else []) ++
     (if number_geb (built_entryThreshold config) (built_maxEntryPrice config)
      then ["entryThreshold (" +:+ showNumber (built_entryThreshold config)
              +:+ ") must be < maxEntryPrice ("
              +:+ showNumber (built_maxEntryPrice config) +:+ ")"]
      else []) ++
     (if number_geb (built_stopLoss config) (built_entryThreshold config)
      then ["stopLoss (" +:+ showNumber (built_stopLoss config)
              +:+ ") must be < entryThreshold ("
              +:+ showNumber (built_entryThreshold config) +:+ ")"]
      else []) ++
     (if number_geb (built_maxEntryPrice config) (built_profitTarget config)
      then ["maxEntryPrice (" +:+ showNumber (built_maxEntryPrice config)
              +:+ ") must be < profitTarget ("
              +:+ showNumber (built_profitTarget config) +:+ ")"]
      else [])) ++
  (if number_ltb (built_timeWindowMs config) (Number 30000)
      || number_gtb (built_timeWindowMs config) (Number 900000)
   then ["timeWindowMs must be between 30000 (30s) and 900000 (15m) (got "
           +:+ showNumber (built_timeWindowMs config) +:+ ")"]
   else []).

(** [validateBacktestConfig]: the message of the error it throws, if any. *)
Definition validateBacktestConfig (config : BuiltConfig) : option string :=
  let errors := backtestConfigErrors config in
  if (0 <? length errors)%nat
  then Some ("Invalid backtest configuration:" +:+ newline +:+ "  - "
               +:+ joinWith (newline +:+ "  - ") errors)
  else None.

End BacktestValidation.

(** What the comparisons of [validateBacktestConfig] let pass: [NaN], which
    fails every comparison, or a number that does. *)
Definition inRangeOrNaN (lo hi : Q) (x : number) : Prop :=
  match x with
  | NaN => True
  | Number q => lo <= q <= hi
  | MinusInfinity | PlusInfinity => False
  end.

Definition belowOrNaN (x y : number) : Prop :=
  match x, y with
  | NaN, _ | _, NaN => True
  | _, _ => number_ltb x y = true
  end.

Definition positiveOrNaN (x : number) : Prop :=
  match x with
  | NaN | PlusInfinity => True
  | Number q => 0 < q
  | MinusInfinity => False
  end.

(** A configuration with one of the numbers of the command line replaced. *)
Definition with_entryThreshold (v : number) (c : BuiltConfig) : BuiltConfig :=
  Build_BuiltConfig v (built_maxEntryPrice c) (built_stopLoss c)
    (built_maxSpread c) (built_timeWindowMs c) (built_profitTarget c)
    (built_startingBalance c) (built_slippage c) (built_riskMode c)
    (built_ladderSteps c).

(** What [validateLadderSteps] asks of one side of a step, and of a step. *)
Definition validSide (c : LadderStepSideConfig) : Prop :=
  0.01 <= triggerPrice c <= 0.99 /\ 0 < sizeValue c /\
  (sizeType c = percent -> sizeValue c <= 100).

Definition validStep (trim : string -> string) (step : LadderStep) : Prop :=
  step_id step <> EmptyString /\ trim (step_id step) <> EmptyString /\
  0.01 <= step_stopLoss step <= 0.99 /\
  step_stopLoss step < triggerPrice (step_buy step) /\
  validSide (step_buy step) /\ validSide (step_sell step).

(** ** Validation of the trading configuration file ([config.ts])

    The numbers of a mode come from [JSON.parse] and are numbers, which
    [validateRange] is given as such; its test [!isNaN(val)] is kept.  The
    checks on the shape of the data are left out as above, and
    [!Array.isArray(mode.steps)] does not hold of a list. *)

Record ModeConfig := {
  mode_entryThreshold : Q;
  mode_maxEntryPrice : Q;
  mode_stopLoss : Q;
  mode_maxSpread : Q;
  mode_timeWindowMs : Z;
  mode_profitTarget : Q;
}.

Record LadderModeConfig := {
  ladder_entryThreshold : Q;
  ladder_maxEntryPrice : Q;
  ladder_maxSpread : Q;
  ladder_timeWindowMs : Z;
  ladder_steps : list LadderStep;
}.

Record ValidationError := { path : string; message : string }.

Definition validateRange (val : number) (min max : Q) : bool :=
  negb (isNaN val) && number_geb val (Number min) && number_leb val (Number max).

(** [if (cond) errors.push({ path, message })] *)
Definition pushIf (cond : bool) (p m : string) : list ValidationError :=
  if cond then [{| path := p; message := m |}] else [].

(** [validateModeConfig] *)
Definition validateModeConfig (modeName : string) (mode : ModeConfig)
    : list ValidationError :=
  let prefix := "modes." +:+ modeName in
  pushIf (negb (validateRange (Number (mode_entryThreshold mode)) 0.01 0.99))
    (prefix +:+ ".entryThreshold") "must be between 0.01 and 0.99" ++
  pushIf (negb (validateRange (Number (mode_maxEntryPrice mode)) 0.01 0.99))
    (prefix +:+ ".maxEntryPrice") "must be between 0.01 and 0.99" ++
  pushIf (negb (validateRange (Number (mode_stopLoss mode)) 0.01 0.99))
    (prefix +:+ ".stopLoss") "must be between 0.01 and 0.99" ++
  pushIf (negb (validateRange (Number (mode_profitTarget mode)) 0.01 0.99))
    (prefix +:+ ".profitTarget") "must be between 0.01 and 0.99" ++
  pushIf (negb (validateRange (Number (mode_maxSpread mode)) 0 0.5))
    (prefix +:+ ".maxSpread") "must be between 0 and 0.5" ++
  pushIf (mode_timeWindowMs mode <=? 0)%Z
    (prefix +:+ ".timeWindowMs") "must be positive" ++
  pushIf (Qgeb (mode_stopLoss mode) (mode_entryThreshold mode))
    (prefix +:+ ".stopLoss") "must be less than entryThreshold" ++
  pushIf (Qgtb (mode_entryThreshold mode) (mode_maxEntryPrice mode))
    (prefix +:+ ".entryThreshold") "must be <= maxEntryPrice" ++
  pushIf (Qgeb (mode_maxEntryPrice mode) (mode_profitTarget mode))
    (prefix +:+ ".maxEntryPrice") "must be less than profitTarget".

Section ModeValidation.

Variable trim : string -> string.

(** The checks of one side of a step in [validateLadderModeConfig]. *)
Definition validateModeStepSide (stepPrefix side : string)
    (c : LadderStepSideConfig) : list ValidationError :=
  pushIf (negb (validateRange (Number (triggerPrice c)) 0.01 0.99))
    (stepPrefix +:+ "." +:+ side +:+ ".triggerPrice")
    "must be between 0.01 and 0.99" ++
  pushIf (Qleb (sizeValue c) 0)
    (stepPrefix +:+ "." +:+ side +:+ ".sizeValue") "must be positive" ++
  pushIf (match sizeType c with percent => true | fixed => false end
          && Qgtb (sizeValue c) 100)
    (stepPrefix +:+ "." +:+ side +:+ ".sizeValue") "percent value must be <= 100".

(** The body of its loop for [mode.steps[i]]. *)
Definition validateModeStep (prefix : string) (i : nat) (step : LadderStep)
    (stepIds : gset string) : list ValidationError * gset string :=
  let stepPrefix := prefix +:+ ".steps[" +:+ pretty i +:+ "]" in
  let '(idErrors, stepIds) :=
    if bool_decide (step_id step = EmptyString)
       || bool_decide (trim (step_id step) = EmptyString)
    then ([{| path := stepPrefix +:+ ".id";
              message := "must be a non-empty string" |}], stepIds)
    else if bool_decide (step_id step ∈ stepIds)
    then ([{| path := stepPrefix +:+ ".id";
              message := "duplicate step ID " +:+ dquote +:+ step_id step
                           +:+ dquote |}], stepIds)
    else ([], stepIds ∪ {[ step_id step ]}) in
  let stopLossErrors :=
    if negb (validateRange (Number (step_stopLoss step)) 0.01 0.99)
    then [{| path := stepPrefix +:+ ".stopLoss";
             message := "must be between 0.01 and 0.99" |}]
    else if Qgeb (step_stopLoss step) (triggerPrice (step_buy step))
    then [{| path := stepPrefix +:+ ".stopLoss";
             message := "must be less than buy.triggerPrice" |}]
    else [] in
  (idErrors ++ stopLossErrors
     ++ validateModeStepSide stepPrefix "buy" (step_buy step)
     ++ validateModeStepSide stepPrefix "sell" (step_sell step),
   stepIds).

Fixpoint validateModeStepsFrom (prefix : string) (i : nat) (stepIds : gset string)
    (errors : list ValidationError) (steps : list LadderStep)
    : list ValidationError :=
  match steps with
  | [] => errors
  | step :: rest =>
    let '(stepErrors, stepIds) := validateModeStep prefix i step stepIds in
    validateModeStepsFrom prefix (S i) stepIds (errors ++ stepErrors) rest
  end.

(** [validateLadderModeConfig] *)
Definition validateLadderModeConfig (modeName : string) (mode : LadderModeConfig)
    : list ValidationError :=
  let prefix := "modes." +:+ modeName in
  let errors :=
    pushIf (negb (validateRange (Number (ladder_entryThreshold mode)) 0.01 0.99))
      (prefix +:+ ".entryThreshold") "must be between 0.01 and 0.99" ++
    pushIf (negb (validateRange (Number (ladder_maxEntryPrice mode)) 0.01 0.99))
      (prefix +:+ ".maxEntryPrice") "must be between 0.01 and 0.99" ++
    pushIf (negb (validateRange (Number (ladder_maxSpread mode)) 0 0.5))
      (prefix +:+ ".maxSpread") "must be between 0 and 0.5" ++
    pushIf (ladder_timeWindowMs mode <=? 0)%Z
      (prefix +:+ ".timeWindowMs") "must be positive" ++
    pushIf (Qgtb (ladder_entryThreshold mode) (ladder_maxEntryPrice mode))
      (prefix +:+ ".entryThreshold") "must be <= maxEntryPrice" in
  if bool_decide (length (ladder_steps mode) = 0%nat)
  then errors ++ [{| path := prefix +:+ ".steps";
                     message := "must have at least one step" |}]
  else
    let errors :=
      errors ++
      match find step_enabled (ladder_steps mode) with
      | None => [{| path := prefix +:+ ".steps";
                    message := "must have at least one enabled step" |}]
      | Some _ => []
      end in
    validateModeStepsFrom prefix 0 ∅ errors (ladder_steps mode).

End ModeValidation.

(** The mode of the configuration file a backtest configuration is read
    from: the fields the two share. *)
Definition modeOf (config : BacktestConfig) : ModeConfig := {|
  mode_entryThreshold := entryThreshold config;
  mode_maxEntryPrice := maxEntryPrice config;
  mode_stopLoss := stopLoss config;
  mode_maxSpread := maxSpread config;
  mode_timeWindowMs := timeWindowMs config;
  mode_profitTarget := profitTarget config |}.

Definition ladderModeOf (config : BacktestConfig) : LadderModeConfig := {|
  ladder_entryThreshold := entryThreshold config;
  ladder_maxEntryPrice := maxEntryPrice config;
  ladder_maxSpread := maxSpread config;
  ladder_timeWindowMs := timeWindowMs config;
  ladder_steps := ladderSteps config |}.

(** Trades in the order of time: no trade exits before it was entered, and
    no trade is entered before the one recorded before it has exited. *)
Definition chronological (l : list BacktestTrade) : Prop :=
  Forall (fun t => (trade_entryTimestamp t <= trade_exitTimestamp t)%Z) l /\
  forall i a b, l !! i = Some a -> l !! S i = Some b ->
    (trade_exitTimestamp a <= trade_entryTimestamp b)%Z.

(** A normal-mode engine that is on time at [T]: its trades are in the order
    of time and over by [T], and the position it holds was entered by [T],
    after the last trade, in one of [markets] and before that market ends. *)
Definition onTime (markets : list HistoricalMarket) (T : Z) (e : Engine) : Prop :=
  ladderState e = None /\
  chronological (trades e) /\
  (forall t, last (trades e) = Some t -> (trade_exitTimestamp t <= T)%Z) /\
  forall p, position e = Some p ->
    (pos_entryTimestamp p <= T)%Z /\
    (forall t, last (trades e) = Some t ->
       (trade_exitTimestamp t <= pos_entryTimestamp p)%Z) /\
    exists m, m ∈ markets /\ market_slug m = pos_marketSlug p /\
      (pos_entryTimestamp p < market_endDate m)%Z.

(** A ladder in good order: no step is completed or skipped twice, the step
    index has not run past the end of the steps, and the ladder has not sold
    more shares than it has bought. *)
Definition ladderSound (cfg : BacktestConfig) (ls : LadderState) : Prop :=
  NoDup (completedSteps ls ++ skippedSteps ls) /\
  (currentStepIndex ls <= length (ladderSteps cfg))%nat /\
  0 <= totalSharesSold ls <= totalShares ls /\
  0 <= totalCostBasis ls.

(** ** The trades table ([db.ts])

    The table is the list of its rows in the order of their ids, with the
    largest id ever given ([INTEGER PRIMARY KEY AUTOINCREMENT] gives a new
    row that id plus one).  A [REAL] column is an exact rational, a nullable
    column an option; [now] is what [new Date().toISOString()] returns.  The
    queries with an [ORDER BY] are left out: SQL does not fix the order of
    rows that compare equal. *)
Module Db.

Inductive Status := OPEN | STOPPED | RESOLVED.

#[global] Instance Status_eq_dec : EqDecision Status.
Proof. solve_decision. Defined.

Record Trade := {
  id : nat;
  market_slug : string;
  token_id : string;
  side : Side;
  entry_price : Q;
  exit_price : option Q;
  shares : Q;
  cost_basis : Q;
  status : Status;
  pnl : option Q;
  created_at : string;
  closed_at : option string;
  market_end_date : option string;
}.

(** [Omit<Trade, "id" | "exit_price" | "pnl" | "closed_at" | "status">] *)
Record NewTrade := {
  new_market_slug : string;
  new_token_id : string;
  new_side : Side;
  new_entry_price : Q;
  new_shares : Q;
  new_cost_basis : Q;
  new_created_at : string;
  new_market_end_date : option string;
}.

Record Table := {
  rows : list Trade;
  lastId : nat;
}.

(** [insertTrade]: the table afterwards and [lastInsertRowid]. *)
Definition insertTrade (trade : NewTrade) (t : Table) : Table * nat :=
  let rowid := S (lastId t) in
  ({| rows := rows t ++ [{|
        id := rowid;
        market_slug := new_market_slug trade;
        token_id := new_token_id trade;
        side := new_side trade;
        entry_price := new_entry_price trade;
        exit_price := None;
        shares := new_shares trade;
        cost_basis := new_cost_basis trade;
        status := OPEN;
        pnl := None;
        created_at := new_created_at trade;
        closed_at := None;
        market_end_date := new_market_end_date trade |}];
      lastId := rowid |}, rowid).

(** [getTradeById]: [SELECT * FROM trades WHERE id = ?] *)
Definition getTradeById (i : nat) (t : Table) : option Trade :=
  find (fun row => bool_decide (id row = i)) (rows t).

(** [UPDATE trades SET exit_price = ?, status = ?, pnl = ?, closed_at = ?
     WHERE id = ?] *)
Definition updateClosed (i : nat) (exitPrice : Q) (s : Status) (p : Q)
    (closedAt : string) (row : Trade) : Trade :=
  if bool_decide (id row = i) then
    {| id := id row;
       market_slug := market_slug row;
       token_id := token_id row;
       side := side row;
       entry_price := entry_price row;
       exit_price := Some exitPrice;
       shares := shares row;
       cost_basis := cost_basis row;
       status := s;
       pnl := Some p;
       created_at := created_at row;
       closed_at := Some closedAt;
       market_end_date := market_end_date row |}
  else row.

(** [closeTrade]; [s] is ["STOPPED"] or ["RESOLVED"]. *)
Definition closeTrade (now : string) (i : nat) (exitPrice : Q) (s : Status)
    (t : Table) : Table :=
  match getTradeById i t with
  | None => t
  | Some trade =>
    let p := (exitPrice - entry_price trade) * shares trade in
    {| rows := map (updateClosed i exitPrice s p now) (rows t);
       lastId := lastId t |}
  end.

(** [SUM(pnl)] over the rows whose [pnl] is not null; [0] when there is
    none ([COALESCE]). *)
Fixpoint sumPnl (l : list Trade) : Q :=
  match l with
  | [] => 0
  | row :: rest =>
    match pnl row with
    | Some p => p + sumPnl rest
    | None => sumPnl rest
    end
  end.

(** [getTotalPnL]:
    [SELECT COALESCE(SUM(pnl), 0) FROM trades WHERE pnl IS NOT NULL] *)
Definition getTotalPnL (t : Table) : Q := sumPnl (rows t).

Record Stats := {
  stats_total : nat;
  stats_wins : nat;
  stats_losses : nat;
  stats_open : nat;
  stats_winRate : Q;
}.

(** [SELECT COUNT( * ) FROM trades WHERE ...]: a comparison with a null
    [pnl] is not true. *)
Definition countWhere (cond : Trade -> bool) (t : Table) : nat :=
  length (filter (fun row => cond row = true) (rows t)).

(** [getTradeStats] *)
Definition getTradeStats (t : Table) : Stats :=
  let total := length (rows t) in
  let wins := countWhere (fun row =>
    match pnl row with Some p => Qgtb p 0 | None => false end) t in
  let losses := countWhere (fun row =>
    match pnl row with Some p => Qltb p 0 | None => false end) t in
  let open := countWhere (fun row => bool_decide (status row = OPEN)) t in
  let closedTrades := (wins + losses)%nat in
  {| stats_total := total;
     stats_wins := wins;
     stats_losses := losses;
     stats_open := open;
     stats_winRate :=
       if (0 <? closedTrades)%nat
       then (inject_Z (Z.of_nat wins) / inject_Z (Z.of_nat closedTrades)) * 100
       else 0 |}.

(** What SQLite keeps of the table: no two rows share an id, and no id is
    larger than the last one given. *)
Definition wellFormed (t : Table) : Prop :=
  NoDup (map id (rows t)) /\ Forall (fun row => (id row <= lastId t)%nat) (rows t).

(** The row [insertTrade] adds. *)
Definition inserted (rowid : nat) (trade : NewTrade) : Trade := {|
  id := rowid;
  market_slug := new_market_slug trade;
  token_id := new_token_id trade;
  side := new_side trade;
  entry_price := new_entry_price trade;
  exit_price := None;
  shares := new_shares trade;
  cost_basis := new_cost_basis trade;
  status := OPEN;
  pnl := None;
  created_at := new_created_at trade;
  closed_at := None;
  market_end_date := new_market_end_date trade |}.

(** The row [closeTrade] leaves of [trade]. *)
Definition closed (now : string) (exitPrice : Q) (s : Status) (trade : Trade)
    : Trade := {|
  id := id trade;
  market_slug := market_slug trade;
  token_id := token_id trade;
  side := side trade;
  entry_price := entry_price trade;
  exit_price := Some exitPrice;
  shares := shares trade;
  cost_basis := cost_basis trade;
  status := s;
  pnl := Some ((exitPrice - entry_price trade) * shares trade);
  created_at := created_at trade;
  closed_at := Some now;
  market_end_date := market_end_date trade |}.

(** An empty table, and a sample trade. *)
Definition emptyTable : Table := {| rows := []; lastId := 0 |}.

Definition sampleTrade : NewTrade := {|
  new_market_slug := "btc-updown-15m-1";
  new_token_id := "UP";
  new_side := UP;
  new_entry_price := 0.5;
  new_shares := 40;
  new_cost_basis := 20;
  new_created_at := "2024-01-01T00:00:00.000Z";
  new_market_end_date := None |}.

End Db.

(** ** The balance the live bot trades with ([src/bot.ts])

    In real trading [tick] reads the wallet balance and hands it to
    [applyCompoundLimit], which decides how much of it the bot trades with.
    Of [BotState] and [BotConfig] only what the method reads and writes is
    kept; [bot_logged] is the messages passed to [this.log], oldest first.
    [toFixed2 x] is [x.toFixed(2)]. *)
Record BotConfig := {
  bot_compoundLimit : Q;
  bot_baseBalance : Q }.

Record BotState := {
  bot_balance : Q;
  bot_savedProfit : Q;
  bot_logged : list string }.

Definition set_bot_balance (v : Q) (s : BotState) : BotState :=
  {| bot_balance := v; bot_savedProfit := bot_savedProfit s;
     bot_logged := bot_logged s |}.
Definition set_bot_savedProfit (v : Q) (s : BotState) : BotState :=
  {| bot_balance := bot_balance s; bot_savedProfit := v;
     bot_logged := bot_logged s |}.
Definition bot_log (message : string) (s : BotState) : BotState :=
  {| bot_balance := bot_balance s; bot_savedProfit := bot_savedProfit s;
     bot_logged := bot_logged s ++ [message] |}.

Section LiveBalance.

Variable toFixed2 : Q -> string.
Variable config : BotConfig.

(** [applyCompoundLimit]; [!compoundLimit || compoundLimit <= 0] is
    [compoundLimit <= 0] on a number. *)
Definition applyCompoundLimit (walletBalance : Q) (s : BotState) : BotState :=
  let compoundLimit := bot_compoundLimit config in
  let baseBalance := bot_baseBalance config in
  if Qleb compoundLimit 0 then set_bot_balance walletBalance s
  else if Qgtb walletBalance compoundLimit then
    let newSavedProfit := walletBalance - baseBalance in
    let s :=
      if Qgtb newSavedProfit (bot_savedProfit s + 0.01) then
        let profitIncrease := newSavedProfit - bot_savedProfit s in
        let s := bot_log ("COMPOUND LIMIT: +$" ++ toFixed2 profitIncrease
                          ++ " saved (total: $" ++ toFixed2 newSavedProfit
                          ++ ")") s in
        bot_log ("Trading with $" ++ toFixed2 baseBalance ++ ", reserving $"
                 ++ toFixed2 (walletBalance - baseBalance)) s
      else s in
    let s := set_bot_savedProfit newSavedProfit s in
    set_bot_balance baseBalance s
  else
    let s := set_bot_balance walletBalance s in
    if Qgtb (bot_savedProfit s) 0 && Qleb walletBalance baseBalance
    then set_bot_savedProfit 0 s
    else s.

End LiveBalance.

(** ** The trades an engine records

    [recorded P e e']: from [e] to [e'] no trade was recorded, or one that
    satisfies [P]. *)
Definition recorded (P : BacktestTrade -> Prop) (e e' : Engine) : Prop :=
  trades e' = trades e \/ exists t, trades e' = trades e ++ [t] /\ P t.

(** A trade of normal mode: it names no ladder step, its pnl is the price
    difference on its shares, and it was closed at the profit target, by a
    stop-loss at 0.01 or more, or at a market's end at the profit target or
    at 0.01. *)
Definition normalTrade (cfg : BacktestConfig) (t : BacktestTrade) : Prop :=
  trade_ladderStepId t = None /\
  trade_pnl t = (trade_exitPrice t - trade_entryPrice t) * trade_shares t /\
  match trade_exitReason t with
  | PROFIT_TARGET => trade_exitPrice t = profitTarget cfg
  | STOP_LOSS => 0.01 <= trade_exitPrice t
  | MARKET_RESOLVED =>
    trade_exitPrice t = profitTarget cfg \/ trade_exitPrice t = 0.01
  | _ => False
  end.

(** A trade of ladder mode: it sells 0.01 shares or more; a step's sell and
    a step's stop-loss name their step, the stop-loss at a price of 0.01 or
    more; a close at a market's end names none and is at the profit target
    or at 0.01. *)
Definition ladderTrade (cfg : BacktestConfig) (t : BacktestTrade) : Prop :=
  0.01 <= trade_shares t /\
  match trade_exitReason t with
  | LADDER_STEP_SELL => is_Some (trade_ladderStepId t)
  | LADDER_STOP_LOSS =>
    is_Some (trade_ladderStepId t) /\ 0.01 <= trade_exitPrice t
  | MARKET_RESOLVED =>
    trade_ladderStepId t = None /\
    (trade_exitPrice t = profitTarget cfg \/ trade_exitPrice t = 0.01)
  | _ => False
  end.

Definition recordedTrade (cfg : BacktestConfig) (t : BacktestTrade) : Prop :=
  if bool_decide (riskMode cfg = ladder) then ladderTrade cfg t
  else normalTrade cfg t.

(** ** Markets the ladder is done with

    A market is retired when it is locked and the ladder of the engine, if
    there is one, is in another market. *)
Definition retired (s : string) (e : Engine) : Prop :=
  s ∈ ladderMarketLocks e /\ ladderSlug e <> Some s.

(** The first ladder test with two more ticks: one that finds no step left,
    and an ask of 0.65 again. *)
Definition finishedLadderMarket : HistoricalMarket :=
  makeMarket [makeTick (BASE_START + 60000) 0.64 0.65;
              makeTick (BASE_START + 120000) 0.59 0.60;
              makeTick (BASE_START + 180000) 0.70 0.71;
              makeTick (BASE_START + 240000) 0.70 0.71;
              makeTick (BASE_START + 300000) 0.64 0.65] None.

(* ================================================================== *)
(** * Properties *)
(* ================================================================== *)

(** ** Comparisons *)

Lemma Qleb_le x y : Qleb x y = true <-> x <= y.
Proof. apply Qle_bool_iff. Qed.

Lemma Qgeb_le x y : Qgeb x y = true <-> y <= x.
Proof. apply Qle_bool_iff. Qed.

Lemma Qltb_lt x y : Qltb x y = true <-> x < y.
Proof.
  unfold Qltb. rewrite negb_true_iff. split.
  - intros H. apply Qnot_le_lt. intros Hle.
    apply Qle_bool_iff in Hle. congruence.
  - intros H. destruct (Qle_bool y x) eqn:E; [|reflexivity].
    apply Qle_bool_iff in E. exfalso. apply (Qlt_not_le _ _ H E).
Qed.

Lemma Qgtb_lt x y : Qgtb x y = true <-> y < x.
Proof. apply (Qltb_lt y x). Qed.

Lemma Qltb_ge x y : Qltb x y = false <-> y <= x.
Proof. unfold Qltb. rewrite negb_false_iff. apply Qle_bool_iff. Qed.

Lemma Qgtb_le x y : Qgtb x y = false <-> x <= y.
Proof. apply (Qltb_ge y x). Qed.

Lemma Qleb_gt x y : Qleb x y = false <-> y < x.
Proof.
  rewrite <- Qltb_lt. unfold Qleb, Qltb.
  destruct (Qle_bool x y); simpl; intuition congruence.
Qed.

Lemma Qgeb_lt x y : Qgeb x y = false <-> x < y.
Proof. apply (Qleb_gt y x). Qed.

(** ** The compounding sweep *)

Section Compounding.

Variable cfg : BacktestConfig.

Lemma checkCompoundLimit_fires e :
  0 < compoundLimit cfg -> compoundLimit cfg < balance e ->
  checkCompoundLimit cfg e =
    set_balance (baseBalance cfg)
      (set_savedProfit (savedProfit e + (balance e - baseBalance cfg)) e).
Proof.
  intros Hl Hb. unfold checkCompoundLimit.
  apply Qleb_gt in Hl. apply Qleb_gt in Hb. now rewrite Hl, Hb.
Qed.

Lemma checkCompoundLimit_idle e :
  (~ (0 < compoundLimit cfg /\ compoundLimit cfg < balance e)) ->
  checkCompoundLimit cfg e = e.
Proof.
  intros H. unfold checkCompoundLimit.
  destruct (Qleb (compoundLimit cfg) 0) eqn:E1; [reflexivity|].
  destruct (Qleb (balance e) (compoundLimit cfg)) eqn:E2; [reflexivity|].
  exfalso. apply H. split; now apply Qleb_gt.
Qed.

Lemma sameAccount_refl e : sameAccount e e.
Proof. repeat split; reflexivity. Qed.

(** C7. For every account state: when [compoundLimit > 0] and
    [balance > compoundLimit] the sweep adds [balance - baseBalance] to
    [savedProfit] and sets [balance] to [baseBalance]; otherwise it changes
    nothing; and sweeping twice gives the account sweeping once gives (with
    [compoundLimit = 15], [baseBalance = 10] and a balance of 20: balance 10,
    saved profit 10 more). *)
Theorem checkCompoundLimit_sweep (e : Engine) :
  (0 < compoundLimit cfg -> compoundLimit cfg < balance e ->
     savedProfit (checkCompoundLimit cfg e)
       = savedProfit e + (balance e - baseBalance cfg) /\
     balance (checkCompoundLimit cfg e) = baseBalance cfg /\
     set_balance 0 (set_savedProfit 0 (checkCompoundLimit cfg e))
       = set_balance 0 (set_savedProfit 0 e)) /\
((~ (0 < compoundLimit cfg /\ compoundLimit cfg < balance e)) ->
     checkCompoundLimit cfg e = e) /\
  sameAccount (checkCompoundLimit cfg (checkCompoundLimit cfg e))
              (checkCompoundLimit cfg e).
Proof.
  split; [|split].
  - intros Hl Hb. rewrite (checkCompoundLimit_fires e Hl Hb). auto.
  - apply checkCompoundLimit_idle.
  - destruct (Qlt_le_dec 0 (compoundLimit cfg)) as [Hl|Hl];
      [destruct (Qlt_le_dec (compoundLimit cfg) (balance e)) as [Hb|Hb]|].
    + rewrite (checkCompoundLimit_fires e Hl Hb).
      set (e1 := set_balance _ _).
      destruct (Qlt_le_dec (compoundLimit cfg) (balance e1)) as [Hb1|Hb1].
      * rewrite (checkCompoundLimit_fires e1 Hl Hb1).
        unfold e1; repeat split; simpl; ring.
      * rewrite checkCompoundLimit_idle; [apply sameAccount_refl|].
        intros [_ H]. apply (Qlt_not_le _ _ H Hb1).
    + rewrite (checkCompoundLimit_idle e).
      * rewrite (checkCompoundLimit_idle e); [apply sameAccount_refl|].
        intros [_ H]. apply (Qlt_not_le _ _ H Hb).
      * intros [_ H]. apply (Qlt_not_le _ _ H Hb).
    + rewrite (checkCompoundLimit_idle e).
      * rewrite (checkCompoundLimit_idle e); [apply sameAccount_refl|].
        intros [H _]. apply (Qlt_not_le _ _ H Hl).
      * intros [H _]. apply (Qlt_not_le _ _ H Hl).
Qed.

End Compounding.

(** ** Step traversal *)

Section StepTraversal.

Variable steps : list LadderStep.

Lemma stepDone_set_index i ls step :
  stepDone (set_currentStepIndex i ls) step = stepDone ls step.
Proof. reflexivity. Qed.

Lemma actionable_iff ls step :
  actionable ls step <-> negb (step_enabled step) || stepDone ls step = false.
Proof.
  unfold actionable, stepDone.
  rewrite orb_false_iff, negb_false_iff, orb_false_iff, !bool_decide_eq_false.
  tauto.
Qed.

Lemma actionable_set_index i ls step :
  actionable (set_currentStepIndex i ls) step <-> actionable ls step.
Proof. reflexivity. Qed.

(** The recursion of [getActiveStep], one call unfolded. *)
Lemma getActiveStep_eq ls :
  getActiveStep steps ls =
    match steps !! currentStepIndex ls with
    | None => (None, ls)
    | Some step =>
      if negb (step_enabled step) || stepDone ls step
      then getActiveStep steps (set_currentStepIndex (S (currentStepIndex ls)) ls)
      else (Some step, ls)
    end.
Proof.
  funelim (getActiveStep steps ls).
  - rewrite Hstep. unfold stepDone.
    destruct (step_enabled step); simpl; [|reflexivity].
    destruct (bool_decide (step_id step ∈ completedSteps ls)); simpl; [reflexivity|].
    destruct (bool_decide (step_id step ∈ skippedSteps ls)); reflexivity.
  - match goal with H : steps !! _ = None |- _ => now rewrite H end.
Qed.

Lemma set_currentStepIndex_id ls :
  ls = set_currentStepIndex (currentStepIndex ls) ls.
Proof. now destruct ls. Qed.

Lemma getActiveStep_traversal_aux n : forall ls,
  (length steps - currentStepIndex ls = n)%nat ->
  traversal steps ls (fst (getActiveStep steps ls)) (snd (getActiveStep steps ls)).
Proof.
  induction n as [n IH] using lt_wf_ind. intros ls Hn.
  rewrite getActiveStep_eq.
  destruct (steps !! currentStepIndex ls) as [step|] eqn:Hstep.
  - destruct (negb (step_enabled step) || stepDone ls step) eqn:Hskip.
    + pose proof (lookup_lt_Some _ _ _ Hstep) as Hlt.
      set (ls1 := set_currentStepIndex (S (currentStepIndex ls)) ls).
      assert (H1 : (length steps - currentStepIndex ls1 < n)%nat)
        by (unfold ls1; simpl; lia).
      specialize (IH _ H1 ls1 eq_refl).
      destruct IH as (Hshape & Hle & Hmax & Hskipped & Hres).
      unfold ls1 in *; simpl in *.
      split_traversal.
      * rewrite Hshape at 1. now destruct ls.
      * lia.
      * lia.
      * intros i s [Hi1 Hi2] Hs.
        destruct (decide (i = currentStepIndex ls)) as [->|Hne].
        -- rewrite Hstep in Hs. injection Hs as <-.
           rewrite actionable_iff. congruence.
        -- apply (Hskipped i s); [lia|exact Hs].
      * destruct (fst (getActiveStep steps _)); exact Hres.
    + simpl. split_traversal.
      * apply set_currentStepIndex_id.
      * lia.
      * lia.
      * intros i s Hi. lia.
      * split; [exact Hstep|now apply actionable_iff].
  - apply lookup_ge_None in Hstep. simpl. split_traversal.
    + apply set_currentStepIndex_id.
    + lia.
    + lia.
    + intros i s Hi. lia.
    + exact Hstep.
Qed.

(** C10. For every ladder state and every list of steps, [getActiveStep]
    returns (the recursion is well founded on [steps.length -
    currentStepIndex], which each call decreases); it moves
    [currentStepIndex] forward, by no more than the distance to the end of the
    list, and changes nothing else; every step it passed over is disabled,
    completed or skipped; and it returns either nothing, with the index at or
    past the end of the list, or the step at the new index, which is then the
    first step at or after the starting index that is enabled and neither
    completed nor skipped. *)
Theorem getActiveStep_first_actionable (ls : LadderState) :
  exists r ls',
    getActiveStep steps ls = (r, ls') /\
    (length steps - currentStepIndex ls' <= length steps - currentStepIndex ls)%nat /\
    traversal steps ls r ls'.
Proof.
  exists (fst (getActiveStep steps ls)), (snd (getActiveStep steps ls)).
  pose proof (getActiveStep_traversal_aux _ ls eq_refl) as H.
  split; [apply surjective_pairing|].
  split; [|exact H].
  destruct H as (_ & Hle & _). lia.
Qed.

End StepTraversal.

(** ** The entry filter *)

Section EntryFilter.

Variable cfg : BacktestConfig.
Variable now : nat -> Z.

Lemma timeWindow_open (endTime ts : Z) :
  (endTime - ts <=? 0)%Z || (endTime - ts >? timeWindowMs cfg)%Z = false ->
  (0 < endTime - ts <= timeWindowMs cfg)%Z.
Proof.
  rewrite orb_false_iff. intros [H1 H2].
  apply Z.leb_gt in H1. rewrite Z.gtb_ltb in H2. apply Z.ltb_ge in H2. lia.
Qed.

Lemma priceRange_open (ask : Q) :
  Qltb ask (entryThreshold cfg) || Qgtb ask (maxEntryPrice cfg) = false ->
  entryThreshold cfg <= ask /\ ask <= maxEntryPrice cfg.
Proof.
  rewrite orb_false_iff. intros [H1 H2].
  split; [now apply Qltb_ge|now apply Qgtb_le].
Qed.

(** [checkEntry] either leaves the engine as it is or enters, and it enters
    only through the whole filter. *)
Lemma checkEntry_cases tick market e :
  checkEntry cfg tick market e = e \/
  (checkEntry cfg tick market e = executeEntry cfg tick market (sideOf tick market) e /\
   entryFilter cfg tick market /\ bestAsk tick < profitTarget cfg /\
   lastTradeWonSide market (sideOf tick market) e = false).
Proof.
  unfold checkEntry.
  destruct (_ || _) eqn:Htime; [now left|].
  destruct (Qgtb _ (maxSpread cfg)) eqn:Hspread; [now left|].
  destruct (Qltb _ _ || _) eqn:Hrange; [now left|].
  destruct (Qgeb _ (profitTarget cfg)) eqn:Htarget; [now left|].
  destruct (lastTradeWonSide _ _ _) eqn:Hwon; [now left|].
  right. split; [reflexivity|].
  apply timeWindow_open in Htime. apply priceRange_open in Hrange.
  apply Qgtb_le in Hspread. apply Qgeb_lt in Htarget.
  unfold entryFilter. tauto.
Qed.

(** [processLadderTick] with no ladder yet: a ladder appears only through the
    filter (the profit target is not part of it). *)
Lemma processLadderTick_opens tick market e :
  ladderState e = None ->
  ladderState (processLadderTick cfg now tick market e) <> None ->
  entryFilter cfg tick market.
Proof.
  intros Hnone. unfold processLadderTick. rewrite Hnone.
  destruct (bool_decide _); [congruence|].
  destruct (Qltb (balance e) 1); [congruence|].
  destruct (isLadderMarketLocked _ _); [congruence|].
  destruct (_ || _) eqn:Htime; [congruence|].
  destruct (Qgtb _ (maxSpread cfg)) eqn:Hspread; [congruence|].
  destruct (Qltb _ _ || _) eqn:Hrange; [congruence|].
  intros _.
  apply timeWindow_open in Htime. apply priceRange_open in Hrange.
  apply Qgtb_le in Hspread. unfold entryFilter. tauto.
Qed.

Lemma processLadderTick_wide_spread tick market e :
  ladderState e = None ->
  maxSpread cfg < bestAsk tick - bestBid tick ->
  processLadderTick cfg now tick market e = e.
Proof.
  intros Hnone Hwide. unfold processLadderTick. rewrite Hnone.
  destruct (bool_decide _); [reflexivity|].
  destruct (Qltb (balance e) 1); [reflexivity|].
  destruct (isLadderMarketLocked _ _); [reflexivity|].
  destruct (_ || _); [reflexivity|].
  apply Qgtb_lt in Hwide. now rewrite Hwide.
Qed.

Lemma checkEntry_wide_spread tick market e :
  maxSpread cfg < bestAsk tick - bestBid tick ->
  checkEntry cfg tick market e = e.
Proof.
  intros Hwide. destruct (checkEntry_cases tick market e) as [H|(_ & Hf & _)];
    [exact H|].
  destruct Hf as (_ & Hspread & _). exfalso. apply (Qlt_not_le _ _ Hwide Hspread).
Qed.

(** C6. For every tick, market and parameter set: in normal mode a tick
    opens a position only when the time remaining is in [(0, timeWindowMs]],
    [ask - bid <= maxSpread], [entryThreshold <= ask <= maxEntryPrice] and
    [ask < profitTarget]; in ladder mode a tick starts a ladder only under the
    first three; and a tick with [ask - bid > maxSpread] changes nothing in
    an engine that holds no position (normal mode) or no ladder (ladder
    mode), whatever the other parameters. *)
Theorem entry_only_through_filter (tick : PriceTick) (market : HistoricalMarket)
    (e : Engine) :
  (riskMode cfg <> ladder -> position e = None ->
     position (processTick cfg now tick market e) <> None ->
     entryFilter cfg tick market /\ bestAsk tick < profitTarget cfg) /\
  (position (checkEntry cfg tick market e) <> position e ->
     entryFilter cfg tick market /\ bestAsk tick < profitTarget cfg) /\
  (riskMode cfg = ladder -> ladderState e = None ->
     ladderState (processTick cfg now tick market e) <> None ->
     entryFilter cfg tick market) /\
  (maxSpread cfg < bestAsk tick - bestBid tick ->
     (riskMode cfg <> ladder -> position e = None ->
        processTick cfg now tick market e = e) /\
     (riskMode cfg = ladder -> ladderState e = None ->
        processTick cfg now tick market e = e)).
Proof.
  split; [|split; [|split]].
  - intros Hmode Hnone. unfold processTick.
    rewrite bool_decide_eq_false_2 by exact Hmode. rewrite Hnone.
    destruct (Qgeb (balance e) 1); [|congruence].
    destruct (checkEntry_cases tick market e) as [->|(_ & Hf & Hpt & _)];
      [congruence|tauto].
  - destruct (checkEntry_cases tick market e) as [->|(_ & Hf & Hpt & _)];
      [congruence|tauto].
  - intros Hmode Hnone. unfold processTick.
    rewrite bool_decide_eq_true_2 by exact Hmode.
    now apply processLadderTick_opens.
  - intros Hwide. split; intros Hmode Hnone; unfold processTick.
    + rewrite bool_decide_eq_false_2 by exact Hmode. rewrite Hnone.
      destruct (Qgeb (balance e) 1); [|reflexivity].
      now apply checkEntry_wide_spread.
    + rewrite bool_decide_eq_true_2 by exact Hmode.
      now apply processLadderTick_wide_spread.
Qed.

End EntryFilter.

(** ** The opposite-side rule *)

Section OppositeSide.

Variable cfg : BacktestConfig.
Variable now : nat -> Z.


Lemma position_checkCompoundLimit e :
  position (checkCompoundLimit cfg e) = position e.
Proof.
  unfold checkCompoundLimit.
  destruct (Qleb _ _); [reflexivity|]. destruct (Qleb _ _); reflexivity.
Qed.





Lemma lastTradeWonSide_lost market side e t :
  lastTrade e = Some t -> trade_pnl t <= 0 ->
  lastTradeWonSide market side e = false.
Proof.
  intros Ht Hpnl. unfold lastTradeWonSide. rewrite Ht.
  apply Qgtb_le in Hpnl. rewrite Hpnl. now rewrite andb_false_r.
Qed.




Lemma set_lastTrade_same e : set_lastTrade (lastTrade e) e = e.
Proof. now destruct e. Qed.






End OppositeSide.

(** ** Normal-mode entry and close *)

Section NormalMode.

Variable cfg : BacktestConfig.

(** The price a close records: a stop-loss sells at the bid less slippage,
    floored at 0.01; every other close at the price it is given. *)
Lemma executeExit_none e exitPrice exitTimestamp exitReason :
  position e = None ->
  executeExit cfg exitPrice exitTimestamp exitReason e = e.
Proof. intros H. unfold executeExit. now rewrite H. Qed.

(** [executeExit] is the close proper followed by the compounding sweep. *)
Lemma executeExit_then_sweep e p exitPrice exitTimestamp exitReason :
  position e = Some p ->
  exists t e1,
    executeExit cfg exitPrice exitTimestamp exitReason e
      = checkCompoundLimit cfg e1 /\
    t = closingTrade cfg p exitPrice exitTimestamp exitReason /\
    trades e1 = trades e ++ [t] /\
    lastTrade e1 = Some t /\
    equityCurve e1 = equityCurve e ++
      [{| eq_timestamp := exitTimestamp;
          eq_balance := trade_exitPrice t * pos_shares p |}] /\
    balance e1 = trade_exitPrice t * pos_shares p /\
    position e1 = None /\
    savedProfit e1 = savedProfit e.
Proof.
  intros Hp. unfold executeExit. rewrite Hp.
  eexists. eexists. split; [reflexivity|].
  destruct (Qgtb _ _); simpl; tauto.
Qed.

Lemma trades_checkCompoundLimit e :
  trades (checkCompoundLimit cfg e) = trades e.
Proof.
  unfold checkCompoundLimit.
  destruct (Qleb _ _); [reflexivity|]. destruct (Qleb _ _); reflexivity.
Qed.

Lemma equityCurve_checkCompoundLimit e :
  equityCurve (checkCompoundLimit cfg e) = equityCurve e.
Proof.
  unfold checkCompoundLimit.
  destruct (Qleb _ _); [reflexivity|]. destruct (Qleb _ _); reflexivity.
Qed.

Lemma effectiveEntryPrice_no_slippage (ask : Q) :
  slippage cfg == 0 -> ask <= 0.99 ->
  Qmin (ask * (1 + slippage cfg)) 0.99 == ask.
Proof.
  intros Hs Hask.
  assert (E : ask * (1 + slippage cfg) == ask) by (rewrite Hs; ring).
  rewrite Q.min_l; [exact E|]. rewrite E. exact Hask.
Qed.

(** C5, as the code has it. An entry with balance [B] at ask [A] creates the
    position with entry price [min(A * (1 + slippage), 0.99)] and
    [B / entryPrice] shares (that is [B / A] when there is no slippage and
    [A <= 0.99]) and leaves a balance of 0. A close that records exit price
    [X] (for a stop-loss, [max(bid * (1 - slippage), 0.01)]) records
    [PnL = (X - entryPrice) * shares] and the equity point [X * shares], and
    sets the balance to [X * shares] before the compounding sweep runs: the
    balance it leaves is [X * shares] unless [compoundLimit > 0] and
    [X * shares > compoundLimit], and is [baseBalance] then. *)
Theorem normal_mode_entry_and_close :
  (forall tick market side e,
     let entryPrice := Qmin (bestAsk tick * (1 + slippage cfg)) 0.99 in
     let e1 := executeEntry cfg tick market side e in
     position e1 = Some {|
       pos_tokenId := tick_tokenId tick;
       pos_marketSlug := market_slug market;
       pos_side := side;
       pos_shares := balance e / entryPrice;
       pos_entryPrice := entryPrice;
       pos_entryTimestamp := tick_timestamp tick |} /\
     balance e1 = 0 /\
     (slippage cfg == 0 -> bestAsk tick <= 0.99 ->
        balance e / entryPrice == balance e / bestAsk tick)) /\
  (forall e p exitPrice exitTimestamp exitReason,
     position e = Some p ->
     let t := closingTrade cfg p exitPrice exitTimestamp exitReason in
     let X := trade_exitPrice t in
     let e2 := executeExit cfg exitPrice exitTimestamp exitReason e in
     X = (if bool_decide (exitReason = STOP_LOSS)
          then Qmax (exitPrice * (1 - slippage cfg)) 0.01 else exitPrice) /\
     trade_pnl t = (X - pos_entryPrice p) * pos_shares p /\
     trades e2 = trades e ++ [t] /\
     equityCurve e2 = equityCurve e ++
       [{| eq_timestamp := exitTimestamp; eq_balance := X * pos_shares p |}] /\
     position e2 = None /\
     ((~ (0 < compoundLimit cfg /\ compoundLimit cfg < X * pos_shares p)) ->
        balance e2 = X * pos_shares p /\ savedProfit e2 = savedProfit e) /\
     (0 < compoundLimit cfg -> compoundLimit cfg < X * pos_shares p ->
        balance e2 = baseBalance cfg /\
        savedProfit e2 = savedProfit e + (X * pos_shares p - baseBalance cfg))).
Proof.
  split.
  - intros tick market side e entryPrice e1.
    split; [reflexivity|]. split; [reflexivity|].
    intros Hs Hask. unfold entryPrice.
    now rewrite (effectiveEntryPrice_no_slippage _ Hs Hask).
  - intros e p exitPrice ts reason Hp t X e2.
    destruct (executeExit_then_sweep e p exitPrice ts reason Hp)
      as (t' & e1 & Hexit & -> & Htrades & _ & Hcurve & Hbal & Hpos & Hsaved).
    fold t in Htrades, Hcurve, Hbal. fold X in Hcurve, Hbal.
    fold e2 in Hexit.
    split; [reflexivity|]. split; [reflexivity|].
    rewrite Hexit.
    rewrite trades_checkCompoundLimit, equityCurve_checkCompoundLimit,
      position_checkCompoundLimit.
    split; [exact Htrades|]. split; [exact Hcurve|]. split; [exact Hpos|].
    split.
    + intros Hidle. rewrite checkCompoundLimit_idle by now rewrite Hbal.
      now split.
    + intros Hl Hb. rewrite <- Hbal in Hb.
      rewrite (checkCompoundLimit_fires cfg e1 Hl Hb). simpl.
      now rewrite Hbal, Hsaved.
Qed.

End NormalMode.

(** An entry of the engine [newEngine normalConfig] (balance 20) at ask 0.50
    buys 40 shares at 0.50, and the close of [holdingEngine] at 0.99 records a
    gain of [0.49 * 40]. *)
Lemma normal_mode_entry_and_close_example :
  (let e1 := executeEntry normalConfig (makeTick BASE_START 0.49 0.5)
               (makeMarket [] None) UP (newEngine normalConfig) in
   balance e1 = 0 /\ 20 / Qmin (0.5 * (1 + 0)) 0.99 == 20 / 0.5) /\
  (let e2 := executeExit normalConfig 0.99 BASE_END PROFIT_TARGET holdingEngine in
   balance e2 = 10 /\ savedProfit e2 = 0 + (0.99 * 40 - 10)).
Proof.
  destruct (normal_mode_entry_and_close normalConfig) as [Hentry Hclose].
  split.
  - destruct (Hentry (makeTick BASE_START 0.49 0.5) (makeMarket [] None) UP
                (newEngine normalConfig)) as (_ & Hb & Hs).
    split; [exact Hb|]. apply Hs; [reflexivity|discriminate].
  - destruct (Hclose holdingEngine heldPosition 0.99 BASE_END PROFIT_TARGET
                eq_refl) as (_ & _ & _ & _ & _ & _ & Hfire).
    apply Hfire; reflexivity.
Defined.

(** C5 as stated fails where the sweep fires: with [compoundLimit = 15] and
    [baseBalance = 10], closing 40 shares at [X = 0.5] leaves a balance of 10,
    not [X * shares = 20]. *)
Lemma close_balance_swept :
  let e2 := executeExit normalConfig 0.5 BASE_END PROFIT_TARGET holdingEngine in
  position holdingEngine = Some heldPosition /\
  balance e2 == 10 /\ ~ balance e2 == 0.5 * pos_shares heldPosition.
Proof.
  split; [reflexivity|]. split; [reflexivity|]. vm_compute. discriminate.
Qed.



(** ** The ladder stop-loss *)

Section LadderStopLoss.

Variable cfg : BacktestConfig.
Variable now : nat -> Z.

Lemma find_first {A} (f : A -> bool) (l : list A) (x : A) :
  find f l = Some x ->
  exists i, l !! i = Some x /\ f x = true /\
    forall j y, (j < i)%nat -> l !! j = Some y -> f y = false.
Proof.
  induction l as [|a l IH]; simpl; [discriminate|].
  destruct (f a) eqn:Ha.
  - intros [= ->]. exists 0%nat. split; [reflexivity|]. split; [exact Ha|].
    intros j y Hj. lia.
  - intros Hfind. destruct (IH Hfind) as (i & Hi & Hx & Hbefore).
    exists (S i). split; [exact Hi|]. split; [exact Hx|].
    intros [|j] y Hj Hy; simpl in Hy.
    + now injection Hy as <-.
    + apply (Hbefore j); [lia|exact Hy].
Qed.

Lemma find_none_lookup {A} (f : A -> bool) (l : list A) :
  find f l = None -> forall j y, l !! j = Some y -> f y = false.
Proof.
  intros Hnone j y Hy. apply (find_none f l Hnone).
  apply list_elem_of_In. eapply list_elem_of_lookup_2. exact Hy.
Qed.










End LadderStopLoss.



(** ** Starting a ladder *)

Section LadderStart.

Variable cfg : BacktestConfig.
Variable now : nat -> Z.







End LadderStart.



(** ** Recovery gating *)

Section Recovery.

Variable cfg : BacktestConfig.
Variable now : nat -> Z.

(** On a ladder that has completed and skipped nothing, the traversal stops
    at the first enabled step from the current index on. *)
Lemma getActiveStep_enabled steps n : forall ls,
  (length steps - currentStepIndex ls = n)%nat ->
  completedSteps ls = [] -> skippedSteps ls = [] ->
  exists k,
    getActiveStep steps ls
      = (find step_enabled (drop (currentStepIndex ls) steps),
         set_currentStepIndex k ls) /\
    (currentStepIndex ls <= k)%nat /\
    steps !! k = find step_enabled (drop (currentStepIndex ls) steps).
Proof.
  induction n as [n IH] using lt_wf_ind. intros ls Hn Hc Hs.
  rewrite getActiveStep_eq.
  destruct (steps !! currentStepIndex ls) as [step|] eqn:Hstep.
  - rewrite (drop_S _ _ _ Hstep). simpl.
    assert (Hdone : stepDone ls step = false).
    { unfold stepDone. rewrite Hc, Hs.
      now rewrite !bool_decide_eq_false_2 by apply not_elem_of_nil. }
    rewrite Hdone, orb_false_r.
    destruct (step_enabled step); simpl.
    + exists (currentStepIndex ls). split; [|split; [lia|exact Hstep]].
      f_equal. apply set_currentStepIndex_id.
    + pose proof (lookup_lt_Some _ _ _ Hstep) as Hlt.
      set (ls1 := set_currentStepIndex (S (currentStepIndex ls)) ls).
      assert (H1 : (length steps - currentStepIndex ls1 < n)%nat)
        by (unfold ls1; simpl; lia).
      destruct (IH _ H1 ls1 eq_refl Hc Hs) as (k & Hk & Hle & Hlook).
      exists k. unfold ls1 in *; simpl in *.
      split; [rewrite Hk; f_equal; now destruct ls|]. split; [lia|exact Hlook].
  - exists (currentStepIndex ls). apply lookup_ge_None in Hstep as Hge.
    rewrite drop_ge by exact Hge. simpl.
    split; [f_equal; apply set_currentStepIndex_id|]. split; [lia|exact Hstep].
Qed.

(** The traversal stays at a step that can be acted on. *)
Lemma getActiveStep_stays steps ls step :
  steps !! currentStepIndex ls = Some step -> actionable ls step ->
  getActiveStep steps ls = (Some step, ls).
Proof.
  intros Hstep Hact. rewrite getActiveStep_eq, Hstep.
  apply actionable_iff in Hact. now rewrite Hact.
Qed.

(** A ladder that holds no shares is never stopped out. *)
Lemma ladderStopLossHit_no_shares tick ls steps :
  totalShares ls = 0 -> totalSharesSold ls = 0 ->
  ladderStopLossHit tick ls steps = None.
Proof.
  intros Ht Hs. unfold ladderStopLossHit, getOpenLadderShares.
  rewrite Ht, Hs. now destruct (getActiveStopLossStep _ _).
Qed.

Lemma recoveryCleared_iff tick steps f :
  find step_enabled steps = Some f -> 0 <= triggerPrice (step_buy f) ->
  (recoveryCleared tick steps = true <-> triggerPrice (step_buy f) < bestAsk tick).
Proof.
  intros Hf Hpos. unfold recoveryCleared. rewrite Hf.
  rewrite andb_true_iff, !Qgtb_lt. split; [tauto|]. intros H. split; lra.
Qed.

Lemma find_nonempty {A} (f : A -> bool) (l : list A) x :
  find f l = Some x -> length l <> 0%nat.
Proof. destruct l; [discriminate|]. simpl. lia. Qed.

(** A tick that does not clear the gate of a reset ladder changes nothing. *)
Lemma processLadderTick_gate_closed tick market e ls f :
  ladderState e = Some ls -> isReset ls ->
  find step_enabled (ladderSteps cfg) = Some f ->
  bestAsk tick <= triggerPrice (step_buy f) ->
  processLadderTick cfg now tick market e = e.
Proof.
  intros Hls Hreset Hf Hask.
  destruct Hreset as (_ & _ & _ & _ & _ & Ht & _ & _ & Hs & _ & Hrec & Hst).
  unfold processLadderTick.
  rewrite bool_decide_eq_false_2 by exact (find_nonempty _ _ f Hf).
  rewrite Hls. destruct (negb _); [reflexivity|].
  unfold processLadderStateTick. rewrite Hls.
  rewrite (ladderStopLossHit_no_shares _ _ _ Ht Hs).
  rewrite Hst, Hrec. simpl.
  unfold recoveryCleared. rewrite Hf.
  apply Qgtb_le in Hask. rewrite Hask. now rewrite andb_false_r.
Qed.

(** The ladder a clearing tick leaves: recovery over, the index on the first
    enabled step. *)
Lemma processLadderTick_gate_open tick market e ls f :
  ladderState e = Some ls -> isReset ls ->
  tick_tokenId tick = ls_tokenId ls ->
  find step_enabled (ladderSteps cfg) = Some f ->
  0 <= triggerPrice (step_buy f) ->
  triggerPrice (step_buy f) < bestAsk tick ->
  exists k,
    (ladderSteps cfg) !! k = Some f /\
    processLadderTick cfg now tick market e =
      set_ladderState
        (Some (set_currentStepIndex k
                 (set_lastStepTime (tick_timestamp tick)
                    (set_needsRecovery false ls)))) e.
Proof.
  intros Hls Hreset Htoken Hf Hpos Hask.
  destruct Hreset as (Hidx & Hphase & Hc & Hsk & _ & Ht & _ & _ & Hs & _ & Hrec & Hst).
  set (ls1 := set_lastStepTime (tick_timestamp tick) (set_needsRecovery false ls)).
  destruct (getActiveStep_enabled (ladderSteps cfg) _ ls1 eq_refl Hc Hsk)
    as (k & Hk & _ & Hlook).
  assert (Hdrop : drop (currentStepIndex ls1) (ladderSteps cfg) = ladderSteps cfg).
  { unfold ls1. simpl. now rewrite Hidx. }
  rewrite Hdrop, Hf in Hk, Hlook.
  exists k. split; [exact Hlook|].
  unfold processLadderTick.
  rewrite bool_decide_eq_false_2 by exact (find_nonempty _ _ f Hf).
  rewrite Hls. rewrite bool_decide_eq_true_2 by exact Htoken. simpl.
  unfold processLadderStateTick. rewrite Hls.
  rewrite (ladderStopLossHit_no_shares _ _ _ Ht Hs).
  rewrite Hst, Hrec. simpl.
  assert (Hclear : recoveryCleared tick (ladderSteps cfg) = true)
    by now apply (recoveryCleared_iff tick _ f Hf Hpos).
  rewrite Hclear. simpl. fold ls1. rewrite Hk. simpl. rewrite Hphase.
  apply Qleb_gt in Hask. rewrite Hask. now rewrite andb_false_r.
Qed.

(** Recovery gating. Take a ladder as the stop-loss leaves it (reset, with
    [needsRecovery] set) and the first enabled step, its buy trigger not
    negative. A tick whose ask is at or below that trigger changes nothing in
    the engine, so no buy fires however many such ticks arrive; a tick of the
    ladder's token whose ask is strictly above the trigger clears
    [needsRecovery], stamps the tick's time, puts the index on the first
    enabled step and buys nothing; and from there a tick with a positive ask
    at or below the trigger fires that step's buy. *)
Theorem recovery_gating (market : HistoricalMarket) (e : Engine)
    (ls : LadderState) (f : LadderStep) :
  riskMode cfg = ladder ->
  ladderState e = Some ls -> isReset ls ->
  find step_enabled (ladderSteps cfg) = Some f ->
  0 <= triggerPrice (step_buy f) ->
  (forall ticks,
     Forall (fun tick => bestAsk tick <= triggerPrice (step_buy f)) ticks ->
     foldl (fun e tick => processTick cfg now tick market e) e ticks = e) /\
  (forall tick,
     tick_tokenId tick = ls_tokenId ls ->
     triggerPrice (step_buy f) < bestAsk tick ->
     exists k ls',
       ladderSteps cfg !! k = Some f /\
       ls' = set_currentStepIndex k
               (set_lastStepTime (tick_timestamp tick) (set_needsRecovery false ls)) /\
       processTick cfg now tick market e = set_ladderState (Some ls') e /\
       forall tick2,
         tick_tokenId tick2 = ls_tokenId ls ->
         0 < bestAsk tick2 -> bestAsk tick2 <= triggerPrice (step_buy f) ->
         processTick cfg now tick2 market (set_ladderState (Some ls') e)
           = executeLadderBuyStep cfg tick2 ls' f (set_ladderState (Some ls') e)).
Proof.
  intros Hmode Hls Hreset Hf Hpos. split.
  - intros ticks Hticks. induction Hticks as [|tick ticks Hask _ IH]; [reflexivity|].
    simpl. unfold processTick at 2. rewrite bool_decide_eq_true_2 by exact Hmode.
    rewrite (processLadderTick_gate_closed tick market e ls f Hls Hreset Hf Hask).
    exact IH.
  - intros tick Htoken Hask.
    destruct (processLadderTick_gate_open tick market e ls f Hls Hreset Htoken
                Hf Hpos Hask) as (k & Hk & He').
    exists k. eexists. split; [exact Hk|]. split; [reflexivity|].
    split.
    { unfold processTick. now rewrite bool_decide_eq_true_2 by exact Hmode. }
    intros tick2 Htoken2 Hpos2 Hask2.
    destruct Hreset as (_ & Hphase & Hc & Hsk & _ & Ht & _ & _ & Hs & _ & _ & Hst).
    set (ls' := set_currentStepIndex k _).
    unfold processTick. rewrite bool_decide_eq_true_2 by exact Hmode.
    unfold processLadderTick.
    rewrite bool_decide_eq_false_2 by exact (find_nonempty _ _ f Hf).
    simpl. rewrite bool_decide_eq_true_2 by exact Htoken2. simpl.
    unfold processLadderStateTick. simpl.
    rewrite (ladderStopLossHit_no_shares tick2 ls' _ Ht Hs).
    rewrite Hst. simpl.
    assert (Hact : actionable ls' f).
    { split; [apply (find_some _ _ Hf)|].
      unfold ls'. simpl. rewrite Hc, Hsk. split; apply not_elem_of_nil. }
    rewrite (getActiveStep_stays (ladderSteps cfg) ls' f Hk Hact).
    unfold ls' at 1. simpl. rewrite Hphase.
    apply Qgtb_lt in Hpos2. apply Qleb_le in Hask2. now rewrite Hpos2, Hask2.
Qed.

End Recovery.

(** After the stop-loss of the ladder tests (first trigger 0.60) an ask of
    0.59 leaves the engine as it is, and an ask of 0.61 clears recovery. *)
Lemma recovery_gating_example :
  isReset stoppedLadder /\
  processTick testConfig testClock (makeTick (BASE_START + 240000) 0.58 0.59)
    testMarket stoppedEngine = stoppedEngine /\
  (needsRecovery <$>
     ladderState (processTick testConfig testClock
                    (makeTick (BASE_START + 300000) 0.60 0.61)
                    testMarket stoppedEngine)) = Some false.
Proof.
  assert (Hreset : isReset stoppedLadder) by (repeat split).
  assert (Hls : ladderState stoppedEngine = Some stoppedLadder) by by_evaluation.
  destruct (recovery_gating testConfig testClock testMarket stoppedEngine
              stoppedLadder testStep eq_refl Hls Hreset eq_refl)
    as [Hclosed Hopen]; [by_evaluation|].
  split; [exact Hreset|]. split.
  - apply (Hclosed [makeTick (BASE_START + 240000) 0.58 0.59]).
    constructor; [by_evaluation|constructor].
  - destruct (Hopen (makeTick (BASE_START + 300000) 0.60 0.61))
      as (k & ls' & _ & -> & -> & _); [reflexivity|by_evaluation|reflexivity].
Defined.

(** ** The merged tick sequence *)

Section TickOrder.

Lemma insertTick_Permutation x l : Permutation (insertTick x l) (x :: l).
Proof.
  induction l as [|y l IH]; simpl; [reflexivity|].
  destruct (_ <=? _)%Z; [reflexivity|].
  rewrite IH. apply perm_swap.
Qed.

Lemma insertTick_sorted x l :
  StronglySorted (fun a b => (entryTime a <= entryTime b)%Z) l ->
  StronglySorted (fun a b => (entryTime a <= entryTime b)%Z) (insertTick x l).
Proof.
  induction 1 as [|y l Hl IH Hy]; simpl.
  - constructor; [constructor|constructor].
  - destruct (Z.leb_spec (tick_timestamp (fst x)) (tick_timestamp (fst y))) as [Hle|Hgt].
    + constructor; [now constructor|].
      constructor; [exact Hle|].
      eapply Forall_impl; [exact Hy|]. unfold entryTime. intros z Hz. simpl in Hz. lia.
    + constructor; [exact IH|].
      rewrite (insertTick_Permutation x l).
      constructor; [unfold entryTime; lia|exact Hy].
Qed.

Lemma insertTick_same_time t x l :
  filter (fun y => entryTime y = t) (insertTick x l)
    = filter (fun y => entryTime y = t) (x :: l).
Proof.
  induction l as [|y l IH]; simpl; [reflexivity|].
  destruct (Z.leb_spec (tick_timestamp (fst x)) (tick_timestamp (fst y))) as [Hle|Hgt];
    [reflexivity|].
  rewrite filter_cons, IH, !filter_cons.
  destruct (decide (entryTime y = t)) as [Hy|Hy];
    destruct (decide (entryTime x = t)) as [Hx|Hx]; try reflexivity.
  unfold entryTime in *. lia.
Qed.

Lemma sortTicks_Permutation l : Permutation (sortTicks l) l.
Proof.
  unfold sortTicks. induction l as [|x l IH]; simpl; [reflexivity|].
  now rewrite insertTick_Permutation, IH.
Qed.

(** The entries replayed are the ticks of the markets given. *)
Lemma replayed_ticks_ordered_mem markets tick market :
  (tick, market) ∈ sortTicks (allTicksOf markets) ->
  market ∈ markets /\ tick ∈ priceTicks market.
Proof.
  rewrite sortTicks_Permutation. unfold allTicksOf.
  rewrite list_elem_of_In, in_flat_map.
  intros (m & Hm & Hin). apply in_map_iff in Hin.
  destruct Hin as (t & [= -> ->] & Ht).
  split; now apply list_elem_of_In.
Qed.

(** The sequence [run] replays is the ticks of all markets, each once, in
    nondecreasing order of timestamp, and ticks of one timestamp stay in the
    order the markets list them. *)
Theorem replayed_ticks_ordered (markets : list HistoricalMarket) :
  let allTicks := sortTicks (allTicksOf markets) in
  StronglySorted (fun a b => (entryTime a <= entryTime b)%Z) allTicks /\
  Permutation allTicks (allTicksOf markets) /\
  (forall tick market,
     (tick, market) ∈ allTicks <-> market ∈ markets /\ tick ∈ priceTicks market) /\
  (forall t, filter (fun y => entryTime y = t) allTicks
             = filter (fun y => entryTime y = t) (allTicksOf markets)).
Proof.
  intros allTicks. unfold allTicks, sortTicks.
  assert (Hperm : Permutation (foldr insertTick [] (allTicksOf markets))
                    (allTicksOf markets)).
  { induction (allTicksOf markets) as [|x l IH]; simpl; [reflexivity|].
    now rewrite insertTick_Permutation, IH. }
  split; [|split; [exact Hperm|split]].
  - induction (allTicksOf markets) as [|x l IH]; simpl; [constructor|].
    apply insertTick_sorted. apply IH.
    clear -l. induction l as [|y l IH]; simpl; [reflexivity|].
    now rewrite insertTick_Permutation, IH.
  - intros tick market. rewrite Hperm. unfold allTicksOf.
    rewrite list_elem_of_In, in_flat_map. split.
    + intros (m & Hm & Hin). apply in_map_iff in Hin.
      destruct Hin as (t & [= -> ->] & Ht).
      split; now apply list_elem_of_In.
    + intros [Hm Ht]. exists market. split; [now apply list_elem_of_In|].
      apply in_map_iff. exists tick. split; [reflexivity|now apply list_elem_of_In].
  - intros t. induction (allTicksOf markets) as [|x l IH]; simpl; [reflexivity|].
    rewrite insertTick_same_time, !filter_cons.
    assert (Hl : Permutation (foldr insertTick [] l) l).
    { clear. induction l as [|y l IH]; simpl; [reflexivity|].
      now rewrite insertTick_Permutation, IH. }
    rewrite IH; [reflexivity|exact Hl].
Qed.

End TickOrder.

(** ** The ledger *)

Section Ledger.

Variable cfg : BacktestConfig.
Variable now : nat -> Z.

Lemma ledgerStep_same e e' : ledger e' = ledger e -> ledgerStep e e'.
Proof. intros [= H1 H2 H3]. now constructor. Qed.

Lemma ledgerStep_from e e1 e' :
  ledger e1 = ledger e -> ledgerStep e1 e' -> ledgerStep e e'.
Proof.
  intros [= H1 H2 H3] [Ha Hb Hc|t b Ha Hb Hc].
  - apply ledger_same; congruence.
  - apply (ledger_record _ _ t b); congruence.
Qed.

Lemma ledgerStep_then e e1 e' :
  ledgerStep e e1 -> ledger e' = ledger e1 -> ledgerStep e e'.
Proof.
  intros [Ha Hb Hc|t b Ha Hb Hc] [= H1 H2 H3].
  - apply ledger_same; congruence.
  - apply (ledger_record _ _ t b); congruence.
Qed.

Lemma ledgerStep_set_ladderState v e e1 :
  ledgerStep e e1 -> ledgerStep e (set_ladderState v e1).
Proof. intros H. now apply (ledgerStep_then e e1). Qed.

Lemma ledgerStep_set_clock v e e1 :
  ledgerStep e e1 -> ledgerStep e (set_clock v e1).
Proof. intros H. now apply (ledgerStep_then e e1). Qed.

Lemma ledgerStep_clearLadderMarketLock slug e e1 :
  ledgerStep e e1 -> ledgerStep e (clearLadderMarketLock slug e1).
Proof. intros H. now apply (ledgerStep_then e e1). Qed.

Lemma ledgerStep_checkCompoundLimit e e1 :
  ledgerStep e e1 -> ledgerStep e (checkCompoundLimit cfg e1).
Proof.
  intros H. apply (ledgerStep_then e e1); [exact H|].
  unfold checkCompoundLimit. repeat break_test; reflexivity.
Qed.

Lemma ledgerStep_record_after_balance trade b e :
  ledgerStep e (recordLadderTrade trade (set_balance b e)).
Proof.
  unfold recordLadderTrade. break_test; eapply ledger_record; reflexivity.
Qed.

Lemma ledger_checkCompoundLimit e : ledger (checkCompoundLimit cfg e) = ledger e.
Proof. unfold checkCompoundLimit. repeat break_test; reflexivity. Qed.

Lemma ledgerStep_recordLadderTrade trade e :
  ledgerStep e (recordLadderTrade trade e).
Proof.
  unfold recordLadderTrade. break_test; eapply ledger_record; reflexivity.
Qed.

Lemma ledger_executeLadderBuyStep tick ls step e :
  ledger (executeLadderBuyStep cfg tick ls step e) = ledger e.
Proof. unfold executeLadderBuyStep. repeat break_test; reflexivity. Qed.

Lemma ledgerStep_executeLadderSellStep tick ls step e :
  ledgerStep e (executeLadderSellStep cfg tick ls step e).
Proof.
  unfold executeLadderSellStep.
  destruct (bool_decide _); [now apply ledgerStep_same|].
  destruct (bool_decide _); [now apply ledgerStep_same|].
  destruct (_ || _); [now apply ledgerStep_same|].
  apply ledgerStep_checkCompoundLimit, ledgerStep_set_ladderState,
    ledgerStep_record_after_balance.
Qed.

Lemma ledgerStep_executeLadderStopLoss tick ls step e :
  ledgerStep e (executeLadderStopLoss cfg now tick ls step e).
Proof.
  unfold executeLadderStopLoss.
  destruct (Qltb _ _); [now apply ledgerStep_same|].
  apply ledgerStep_set_clock, ledgerStep_set_ladderState,
    ledgerStep_clearLadderMarketLock, ledgerStep_checkCompoundLimit,
    ledgerStep_record_after_balance.
Qed.

Lemma ledgerStep_closeLadderAtExpiry market e :
  ledgerStep e (closeLadderAtExpiry cfg market e).
Proof.
  unfold closeLadderAtExpiry.
  destruct (ladderState e); [|now apply ledgerStep_same].
  destruct (Qltb _ _); [now apply ledgerStep_same|].
  apply ledgerStep_set_ladderState, ledgerStep_checkCompoundLimit,
    ledgerStep_record_after_balance.
Qed.

Lemma ledgerStep_executeExit exitPrice exitTimestamp exitReason e :
  ledgerStep e (executeExit cfg exitPrice exitTimestamp exitReason e).
Proof.
  unfold executeExit. destruct (position e); [|now apply ledgerStep_same].
  apply ledgerStep_checkCompoundLimit.
  destruct (Qgtb _ _); eapply ledger_record; reflexivity.
Qed.

Lemma ledgerStep_closePositionAtExpiry market e :
  ledgerStep e (closePositionAtExpiry cfg market e).
Proof.
  unfold closePositionAtExpiry. destruct (position e); [|now apply ledgerStep_same].
  apply ledgerStep_executeExit.
Qed.

Lemma ledger_checkEntry tick market e :
  ledger (checkEntry cfg tick market e) = ledger e.
Proof.
  destruct (checkEntry_cases cfg tick market e) as [->|[-> _]]; reflexivity.
Qed.

Lemma ledgerStep_processLadderStateTick tick market steps e :
  ledgerStep e (processLadderStateTick cfg now tick market steps e).
Proof.
  unfold processLadderStateTick.
  destruct (ladderState e) as [ls|]; [|now apply ledgerStep_same].
  destruct (ladderStopLossHit _ _ _); [apply ledgerStep_executeLadderStopLoss|].
  destruct (negb _); [now apply ledgerStep_same|].
  destruct (_ && _); [now apply ledgerStep_same|].
  destruct (getActiveStep _ _) as [[nextStep|] ls'].
  - destruct (currentStepPhase ls').
    + destruct (_ && _); [|now apply ledgerStep_same].
      apply ledgerStep_same, ledger_executeLadderBuyStep.
    + destruct (_ && _); [|now apply ledgerStep_same].
      apply ledgerStep_executeLadderSellStep.
  - repeat break_test; now apply ledgerStep_same.
Qed.

Lemma ledgerStep_processLadderTick tick market e :
  ledgerStep e (processLadderTick cfg now tick market e).
Proof.
  unfold processLadderTick.
  destruct (bool_decide _); [now apply ledgerStep_same|].
  destruct (ladderState e).
  - destruct (negb _); [now apply ledgerStep_same|].
    apply ledgerStep_processLadderStateTick.
  - repeat (break_test; try now apply ledgerStep_same).
    apply ledgerStep_same. now rewrite ledger_executeLadderBuyStep.
Qed.

(** One tick records at most one trade. *)
Lemma ledgerStep_processTick tick market e :
  ledgerStep e (processTick cfg now tick market e).
Proof.
  unfold processTick.
  destruct (bool_decide _); [apply ledgerStep_processLadderTick|].
  destruct (position e) eqn:Hp.
  - destruct (bool_decide _); [|now apply ledgerStep_same].
    destruct (Qgeb _ _); [apply ledgerStep_executeExit|].
    unfold checkStopLoss. rewrite Hp.
    destruct (Qleb _ _); [apply ledgerStep_executeExit|now apply ledgerStep_same].
  - destruct (Qgeb _ _); [|now apply ledgerStep_same].
    apply ledgerStep_same, ledger_checkEntry.
Qed.

Lemma ledgerConsistent_step e e' :
  ledgerStep e e' -> ledgerConsistent e -> ledgerConsistent e'.
Proof.
  intros [Ha Hb Hc|t b Ha Hb Hc] [Hlast Hcurve]; unfold ledgerConsistent.
  - now rewrite Ha, Hb, Hc.
  - rewrite Ha, Hb, Hc, last_snoc, !map_app. simpl. now rewrite Hcurve.
Qed.

End Ledger.

(** ** Invariants of the replay *)

Section ReplayInvariant.

Variable cfg : BacktestConfig.
Variable now : nat -> Z.

Lemma foldl_insert_lookup (l : list HistoricalMarket) :
  forall (acc : gmap string HistoricalMarket) s m,
    foldl (fun acc market => <[market_slug market := market]> acc) acc l !! s = Some m ->
    (m ∈ l /\ market_slug m = s) \/ acc !! s = Some m.
Proof.
  induction l as [|x l IH]; intros acc s m; simpl; [now right|].
  intros H. destruct (IH _ _ _ H) as [[Hin Hs]|Hacc].
  - left. split; [now right|exact Hs].
  - destruct (decide (market_slug x = s)) as [Heq|Hne].
    + rewrite <- Heq, lookup_insert_eq in Hacc. injection Hacc as <-.
      left. split; [now left|exact Heq].
    + rewrite lookup_insert_ne in Hacc by exact Hne. now right.
Qed.

(** Every market the map of [run] holds is one of the markets given, under
    its own slug. *)
Lemma marketMapOf_lookup markets s m :
  marketMapOf markets !! s = Some m -> m ∈ markets /\ market_slug m = s.
Proof.
  intros H. destruct (foldl_insert_lookup _ _ _ _ H) as [H'|H']; [exact H'|].
  now rewrite lookup_empty in H'.
Qed.

Lemma foldl_insert_is_Some (l : list HistoricalMarket) :
  forall (acc : gmap string HistoricalMarket) s,
    is_Some (acc !! s) \/ (exists m, m ∈ l /\ market_slug m = s) ->
    is_Some (foldl (fun acc market => <[market_slug market := market]> acc) acc l !! s).
Proof.
  induction l as [|x l IH]; intros acc s; simpl.
  - intros [H|(m & Hm & _)]; [exact H|]. now apply not_elem_of_nil in Hm.
  - intros H. apply IH.
    destruct (decide (market_slug x = s)) as [Heq|Hne].
    + left. rewrite <- Heq, lookup_insert_eq. eauto.
    + destruct H as [H|(m & Hm & Hs)].
      * left. now rewrite lookup_insert_ne.
      * apply elem_of_cons in Hm. destruct Hm as [->|Hm]; [congruence|].
        right. eauto.
Qed.

(** Every market given is found in the map under its slug (a later market
    of the same slug may have taken its place). *)
Lemma marketMapOf_is_Some markets m :
  m ∈ markets -> is_Some (marketMapOf markets !! market_slug m).
Proof. intros H. apply foldl_insert_is_Some. right. eauto. Qed.

Section Invariant.

Variable markets : list HistoricalMarket.
Variable I : Engine -> Prop.

Hypothesis I_currentMarket : forall v e, I e -> I (set_currentMarket v e).
Hypothesis I_closePosition :
  forall m e, m ∈ markets -> I e -> I (closePositionAtExpiry cfg m e).
Hypothesis I_closeLadder :
  forall m e, m ∈ markets -> I e -> I (closeLadderAtExpiry cfg m e).
Hypothesis I_processTick :
  forall t m e, m ∈ markets -> t ∈ priceTicks m -> I e ->
    I (processTick cfg now t m e).

Lemma expirePosition_invariant tick st :
  I (fst st) -> I (fst (expirePosition cfg (marketMapOf markets) tick st)).
Proof.
  destruct st as [e expired]. simpl. intros He.
  destruct (position e); [|exact He].
  destruct (bool_decide _); [exact He|].
  destruct (marketMapOf markets !! _) as [m|] eqn:Hm; [|exact He].
  destruct (_ >=? _)%Z; [|exact He]. simpl.
  apply I_closePosition; [|exact He]. now apply marketMapOf_lookup in Hm.
Qed.

Lemma expireLadder_invariant tick st :
  I (fst st) -> I (fst (expireLadder cfg (marketMapOf markets) tick st)).
Proof.
  destruct st as [e expired]. simpl. intros He.
  destruct (ladderState e); [|exact He].
  destruct (bool_decide _); [exact He|].
  destruct (marketMapOf markets !! _) as [m|] eqn:Hm; [|exact He].
  destruct (_ >=? _)%Z; [|exact He]. simpl.
  apply I_closeLadder; [|exact He]. now apply marketMapOf_lookup in Hm.
Qed.

Lemma runTick_invariant st tick market :
  market ∈ markets -> tick ∈ priceTicks market ->
  I (fst st) -> I (fst (runTick cfg now (marketMapOf markets) st (tick, market))).
Proof.
  intros Hm Ht He. unfold runTick.
  pose proof (expireLadder_invariant tick _ (expirePosition_invariant tick st He)) as H.
  destruct (expireLadder _ _ _ _) as [e1 expired]. simpl in H.
  destruct (bool_decide _); [exact H|].
  destruct (_ >=? _)%Z; simpl.
  - assert (H2 : I match position e1 with
                   | Some p => if bool_decide (pos_marketSlug p = market_slug market)
                               then closePositionAtExpiry cfg market e1 else e1
                   | None => e1 end).
    { destruct (position e1); [|exact H].
      destruct (bool_decide _); [now apply I_closePosition|exact H]. }
    destruct (ladderState _); [|exact H2].
    destruct (bool_decide _); [now apply I_closeLadder|exact H2].
  - apply I_processTick; [exact Hm|exact Ht|]. now apply I_currentMarket.
Qed.

Lemma closeRemaining_invariant e :
  I e -> I (closeRemaining cfg (marketMapOf markets) e).
Proof.
  intros He. unfold closeRemaining.
  assert (H : I match position e with
                | Some p => match marketMapOf markets !! pos_marketSlug p with
                            | Some market => closePositionAtExpiry cfg market e
                            | None => e end
                | None => e end).
  { destruct (position e); [|exact He].
    destruct (marketMapOf markets !! _) eqn:Hm; [|exact He].
    apply I_closePosition; [|exact He]. now apply marketMapOf_lookup in Hm. }
  destruct (ladderState _); [|exact H].
  destruct (marketMapOf markets !! _) eqn:Hm; [|exact H].
  apply I_closeLadder; [|exact H]. now apply marketMapOf_lookup in Hm.
Qed.

Lemma ticks_invariant l : forall st,
  Forall (fun tm => snd tm ∈ markets /\ fst tm ∈ priceTicks (snd tm)) l ->
  I (fst st) -> I (fst (foldl (runTick cfg now (marketMapOf markets)) st l)).
Proof.
  induction l as [|[tick market] l IH]; intros st Hl He; [exact He|].
  simpl. apply Forall_cons in Hl. destruct Hl as [[Hm Ht] Hl].
  apply IH; [exact Hl|]. now apply runTick_invariant.
Qed.

Lemma sortedTicks_known :
  Forall (fun tm => snd tm ∈ markets /\ fst tm ∈ priceTicks (snd tm))
         (sortTicks (allTicksOf markets)).
Proof.
  apply Forall_forall. intros [tick market] Hin. simpl.
  now apply (replayed_ticks_ordered_mem markets).
Qed.

(** An invariant of the operations that holds when [run] has reset the
    engine holds when the replay is over. *)
Lemma replay_invariant e0 :
  I (resetEngine cfg e0) -> I (replay cfg now markets e0).
Proof.
  intros H0. unfold replay.
  pose proof (ticks_invariant _ (resetEngine cfg e0, ∅) sortedTicks_known H0) as H.
  destruct (foldl _ _ _) as [e expired]. now apply closeRemaining_invariant.
Qed.

Lemma prefix_invariant e0 n :
  I (resetEngine cfg e0) -> I (replayPrefix cfg now markets e0 n).
Proof.
  intros H0. unfold replayPrefix.
  apply (ticks_invariant _ (resetEngine cfg e0, ∅)); [|exact H0].
  apply Forall_take, sortedTicks_known.
Qed.

(** The same from any point of the replay on. *)
Lemma replay_invariant_from e0 n :
  I (replayPrefix cfg now markets e0 n) -> I (replay cfg now markets e0).
Proof.
  unfold replayPrefix, replay. intros Hn.
  rewrite <- (take_drop n (sortTicks (allTicksOf markets))) at 1.
  rewrite foldl_app.
  pose proof (ticks_invariant (drop n (sortTicks (allTicksOf markets))) _
                (Forall_drop _ n _ sortedTicks_known) Hn) as H.
  destruct (foldl _ (foldl _ _ _) _) as [e expired]. now apply closeRemaining_invariant.
Qed.

End Invariant.

End ReplayInvariant.

(** ** Positions and ladders across operations *)

Section Exposure.

Variable cfg : BacktestConfig.
Variable now : nat -> Z.

Lemma ladderState_checkCompoundLimit e :
  ladderState (checkCompoundLimit cfg e) = ladderState e.
Proof. unfold checkCompoundLimit. repeat break_test; reflexivity. Qed.

Lemma position_recordLadderTrade trade e :
  position (recordLadderTrade trade e) = position e.
Proof. unfold recordLadderTrade. break_test; reflexivity. Qed.

Lemma position_executeLadderBuyStep tick ls step e :
  position (executeLadderBuyStep cfg tick ls step e) = position e.
Proof. unfold executeLadderBuyStep. repeat break_test; reflexivity. Qed.

Lemma position_executeLadderSellStep tick ls step e :
  position (executeLadderSellStep cfg tick ls step e) = position e.
Proof.
  unfold executeLadderSellStep. repeat break_test; try reflexivity;
    rewrite position_checkCompoundLimit; cbn; now rewrite position_recordLadderTrade.
Qed.

Lemma position_executeLadderStopLoss tick ls step e :
  position (executeLadderStopLoss cfg now tick ls step e) = position e.
Proof.
  unfold executeLadderStopLoss. break_test; [reflexivity|]. cbn.
  now rewrite position_checkCompoundLimit, position_recordLadderTrade.
Qed.

Lemma position_closeLadderAtExpiry market e :
  position (closeLadderAtExpiry cfg market e) = position e.
Proof.
  unfold closeLadderAtExpiry. repeat break_test; try reflexivity. cbn.
  now rewrite position_checkCompoundLimit, position_recordLadderTrade.
Qed.

Lemma position_processLadderStateTick tick market steps e :
  position (processLadderStateTick cfg now tick market steps e) = position e.
Proof.
  unfold processLadderStateTick.
  destruct (ladderState e) as [ls|]; [|reflexivity].
  destruct (ladderStopLossHit _ _ _); [apply position_executeLadderStopLoss|].
  destruct (negb _); [reflexivity|].
  destruct (_ && _); [reflexivity|].
  destruct (getActiveStep _ _) as [[nextStep|] ls'].
  - destruct (currentStepPhase ls'); (destruct (_ && _); [|reflexivity]).
    + apply position_executeLadderBuyStep.
    + apply position_executeLadderSellStep.
  - repeat break_test; reflexivity.
Qed.

(** Ladder mode never opens, changes or closes a position. *)
Lemma position_processLadderTick tick market e :
  position (processLadderTick cfg now tick market e) = position e.
Proof.
  unfold processLadderTick.
  destruct (bool_decide _); [reflexivity|].
  destruct (ladderState e).
  - destruct (negb _); [reflexivity|]. apply position_processLadderStateTick.
  - repeat (break_test; try reflexivity).
    now rewrite position_executeLadderBuyStep.
Qed.

Lemma ladderState_executeExit exitPrice exitTimestamp exitReason e :
  ladderState (executeExit cfg exitPrice exitTimestamp exitReason e) = ladderState e.
Proof.
  unfold executeExit. destruct (position e); [|reflexivity].
  rewrite ladderState_checkCompoundLimit. now destruct (Qgtb _ _).
Qed.

Lemma ladderState_closePositionAtExpiry market e :
  ladderState (closePositionAtExpiry cfg market e) = ladderState e.
Proof.
  unfold closePositionAtExpiry. destruct (position e); [|reflexivity].
  apply ladderState_executeExit.
Qed.

(** Normal mode never opens, changes or closes a ladder. *)
Lemma ladderState_processTick_normal tick market e :
  riskMode cfg <> ladder ->
  ladderState (processTick cfg now tick market e) = ladderState e.
Proof.
  intros Hmode. unfold processTick.
  rewrite bool_decide_eq_false_2 by exact Hmode.
  destruct (position e) eqn:Hp.
  - destruct (bool_decide _); [|reflexivity].
    destruct (Qgeb _ _); [apply ladderState_executeExit|].
    unfold checkStopLoss. rewrite Hp.
    destruct (Qleb _ _); [apply ladderState_executeExit|reflexivity].
  - destruct (Qgeb _ _); [|reflexivity].
    destruct (checkEntry_cases cfg tick market e) as [->|[-> _]]; reflexivity.
Qed.

Lemma position_executeExit exitPrice exitTimestamp exitReason e :
  position (executeExit cfg exitPrice exitTimestamp exitReason e) = None.
Proof.
  unfold executeExit. destruct (position e) eqn:Hp; [|exact Hp].
  rewrite position_checkCompoundLimit. now destruct (Qgtb _ _).
Qed.

Lemma position_closePositionAtExpiry market e :
  position (closePositionAtExpiry cfg market e) = None.
Proof.
  unfold closePositionAtExpiry. destruct (position e) eqn:Hp; [|exact Hp].
  apply position_executeExit.
Qed.

Lemma ladderState_closeLadderAtExpiry market e :
  ladderState (closeLadderAtExpiry cfg market e) = None.
Proof.
  unfold closeLadderAtExpiry. destruct (ladderState e) eqn:Hl; [|exact Hl].
  break_test; [reflexivity|]. reflexivity.
Qed.

(** A tick of [market] keeps the position, closes it, or opens one in
    [market]. *)
Lemma positionSlug_processTick tick market e :
  exposureStep market (positionSlug e)
    (positionSlug (processTick cfg now tick market e)).
Proof.
  unfold exposureStep, positionSlug, processTick.
  destruct (bool_decide _); [left; now rewrite position_processLadderTick|].
  destruct (position e) eqn:Hp.
  - destruct (bool_decide _); [|left; now rewrite Hp].
    destruct (Qgeb _ _); [right; left; now rewrite position_executeExit|].
    unfold checkStopLoss. rewrite Hp.
    destruct (Qleb _ _); [right; left; now rewrite position_executeExit|].
    left. now rewrite Hp.
  - destruct (Qgeb _ _); [|left; now rewrite Hp].
    destruct (checkEntry_cases cfg tick market e) as [->|[-> _]];
      [left; now rewrite Hp|right; right; reflexivity].
Qed.

Lemma ladderSlug_checkCompoundLimit e :
  ladderSlug (checkCompoundLimit cfg e) = ladderSlug e.
Proof. unfold ladderSlug. now rewrite ladderState_checkCompoundLimit. Qed.

Lemma ladderSlug_executeLadderBuyStep tick ls step e :
  ladderSlug (executeLadderBuyStep cfg tick ls step e) = Some (ls_marketSlug ls).
Proof. unfold executeLadderBuyStep. repeat break_test; reflexivity. Qed.

Lemma ladderSlug_executeLadderSellStep tick ls step e :
  ladderSlug (executeLadderSellStep cfg tick ls step e) = Some (ls_marketSlug ls).
Proof.
  unfold executeLadderSellStep.
  repeat break_test; try reflexivity; now rewrite ladderSlug_checkCompoundLimit.
Qed.

Lemma ladderSlug_executeLadderStopLoss tick ls step e :
  ladderSlug (executeLadderStopLoss cfg now tick ls step e) = Some (ls_marketSlug ls).
Proof. unfold executeLadderStopLoss. break_test; reflexivity. Qed.

Lemma getActiveStep_marketSlug steps ls :
  ls_marketSlug (snd (getActiveStep steps ls)) = ls_marketSlug ls.
Proof.
  destruct (getActiveStep_traversal_aux steps _ ls eq_refl) as [-> _]. reflexivity.
Qed.

Lemma ladderSlug_processLadderStateTick tick market steps e :
  ladderSlug (processLadderStateTick cfg now tick market steps e) = ladderSlug e \/
  ladderSlug (processLadderStateTick cfg now tick market steps e) = None.
Proof.
  unfold processLadderStateTick.
  destruct (ladderState e) as [ls|] eqn:Hls; [|now left].
  assert (Hslug : ladderSlug e = Some (ls_marketSlug ls))
    by (unfold ladderSlug; now rewrite Hls).
  rewrite Hslug.
  destruct (ladderStopLossHit _ _ _);
    [left; apply ladderSlug_executeLadderStopLoss|].
  destruct (negb _); [now left|].
  destruct (_ && _); [now left|].
  match goal with |- context [getActiveStep ?s ?l] =>
    pose proof (getActiveStep_marketSlug s l) as Hkeep;
    destruct (getActiveStep s l) as [[nextStep|] ls'] end;
    simpl in Hkeep.
  - assert (Hls' : ls_marketSlug ls' = ls_marketSlug ls)
      by (rewrite Hkeep; now destruct (needsRecovery ls)).
    left. rewrite <- Hls'.
    destruct (currentStepPhase ls'); (destruct (_ && _); [|reflexivity]).
    + apply ladderSlug_executeLadderBuyStep.
    + apply ladderSlug_executeLadderSellStep.
  - assert (Hls' : ls_marketSlug ls' = ls_marketSlug ls)
      by (rewrite Hkeep; now destruct (needsRecovery ls)).
    rewrite <- Hls'. repeat break_test; (now left) || (now right).
Qed.

(** A tick of [market] keeps the ladder, ends it, or starts one in
    [market]. *)
Lemma ladderSlug_processTick tick market e :
  exposureStep market (ladderSlug e)
    (ladderSlug (processTick cfg now tick market e)).
Proof.
  unfold exposureStep, processTick.
  destruct (bool_decide (riskMode cfg = ladder)) eqn:Hmode.
  - unfold processLadderTick.
    destruct (bool_decide (length (ladderSteps cfg) = 0%nat)); [now left|].
    destruct (ladderState e) eqn:Hls.
    + destruct (negb _); [now left|].
      destruct (ladderSlug_processLadderStateTick tick market (ladderSteps cfg) e)
        as [H|H]; rewrite H; tauto.
    + destruct (Qltb (balance e) 1); [now left|].
      destruct (isLadderMarketLocked _ _); [now left|].
      destruct (_ || _); [now left|].
      destruct (Qgtb _ _); [now left|].
      destruct (_ || _); [now left|].
      destruct (lastTradeWonSide _ _ _); [now left|].
      destruct (find _ _); [|now left].
      destruct (Qltb _ _); [now left|].
      right; right.
      destruct (Qleb _ _); [now rewrite ladderSlug_executeLadderBuyStep|reflexivity].
  - left. unfold ladderSlug. apply bool_decide_eq_false in Hmode.
    pose proof (ladderState_processTick_normal tick market e Hmode) as H.
    unfold processTick in H. rewrite bool_decide_eq_false_2 in H by exact Hmode.
    now rewrite H.
Qed.

Lemma exposureKnown_step (mm : gmap string HistoricalMarket) market e e' :
  is_Some (mm !! market_slug market) ->
  exposureStep market (positionSlug e) (positionSlug e') ->
  exposureStep market (ladderSlug e) (ladderSlug e') ->
  exposureKnown mm e -> exposureKnown mm e'.
Proof.
  intros Hm Hp Hl [Kp Kl]. split; intros s Hs.
  - destruct Hp as [Hp|[Hp|Hp]]; rewrite Hp in Hs;
      [now apply Kp|discriminate|now injection Hs as <-].
  - destruct Hl as [Hl|[Hl|Hl]]; rewrite Hl in Hs;
      [now apply Kl|discriminate|now injection Hs as <-].
Qed.

Lemma exposureKnown_closePosition mm market e :
  exposureKnown mm e -> exposureKnown mm (closePositionAtExpiry cfg market e).
Proof.
  intros [Kp Kl]. split; intros s; unfold positionSlug, ladderSlug.
  - now rewrite position_closePositionAtExpiry.
  - rewrite ladderState_closePositionAtExpiry. apply Kl.
Qed.

Lemma exposureKnown_closeLadder mm market e :
  exposureKnown mm e -> exposureKnown mm (closeLadderAtExpiry cfg market e).
Proof.
  intros [Kp Kl]. split; intros s; unfold positionSlug, ladderSlug.
  - rewrite position_closeLadderAtExpiry. apply Kp.
  - now rewrite ladderState_closeLadderAtExpiry.
Qed.

Lemma modeExclusive_processTick tick market e :
  modeExclusive cfg e -> modeExclusive cfg (processTick cfg now tick market e).
Proof.
  intros [Hl Hn]. split; intros Hmode.
  - unfold processTick. rewrite bool_decide_eq_true_2 by exact Hmode.
    rewrite position_processLadderTick. now apply Hl.
  - rewrite ladderState_processTick_normal by exact Hmode. now apply Hn.
Qed.

Lemma modeExclusive_closePosition market e :
  modeExclusive cfg e -> modeExclusive cfg (closePositionAtExpiry cfg market e).
Proof.
  intros [Hl Hn]. split; intros Hmode.
  - apply position_closePositionAtExpiry.
  - rewrite ladderState_closePositionAtExpiry. now apply Hn.
Qed.

Lemma modeExclusive_closeLadder market e :
  modeExclusive cfg e -> modeExclusive cfg (closeLadderAtExpiry cfg market e).
Proof.
  intros [Hl Hn]. split; intros Hmode.
  - rewrite position_closeLadderAtExpiry. now apply Hl.
  - apply ladderState_closeLadderAtExpiry.
Qed.

(** What the forced closes at the end of [run] leave of a known exposure. *)
Lemma closeRemaining_flat markets e :
  exposureKnown (marketMapOf markets) e ->
  position (closeRemaining cfg (marketMapOf markets) e) = None /\
  ladderState (closeRemaining cfg (marketMapOf markets) e) = None.
Proof.
  intros [Kp Kl]. unfold closeRemaining. cbv zeta.
  set (e1 := match position e with
             | Some p =>
               match marketMapOf markets !! pos_marketSlug p with
               | Some market => closePositionAtExpiry cfg market e
               | None => e
               end
             | None => e
             end).
  assert (H1 : position e1 = None /\ ladderState e1 = ladderState e).
  { unfold e1. destruct (position e) as [p|] eqn:Hp; [|now split].
    destruct (Kp (pos_marketSlug p)) as [m Hm];
      [unfold positionSlug; now rewrite Hp|].
    rewrite Hm. split;
      [apply position_closePositionAtExpiry|apply ladderState_closePositionAtExpiry]. }
  destruct H1 as [Hp1 Hl1].
  destruct (ladderState e1) as [ls|] eqn:Hls; [|now split].
  destruct (Kl (ls_marketSlug ls)) as [m Hm];
    [unfold ladderSlug; now rewrite <- Hl1|].
  rewrite Hm. split;
    [now rewrite position_closeLadderAtExpiry|apply ladderState_closeLadderAtExpiry].
Qed.

Lemma exposure_invariant markets l : forall st,
  Forall (fun tm => snd tm ∈ markets /\ fst tm ∈ priceTicks (snd tm)) l ->
  modeExclusive cfg (fst st) /\ exposureKnown (marketMapOf markets) (fst st) ->
  let st' := foldl (runTick cfg now (marketMapOf markets)) st l in
  modeExclusive cfg (fst st') /\ exposureKnown (marketMapOf markets) (fst st').
Proof.
  intros st.
  apply (ticks_invariant cfg now markets
           (fun e => modeExclusive cfg e /\ exposureKnown (marketMapOf markets) e)).
  - intros v e He. exact He.
  - intros m e _ [HM HK]. split;
      [now apply modeExclusive_closePosition|now apply exposureKnown_closePosition].
  - intros m e _ [HM HK]. split;
      [now apply modeExclusive_closeLadder|now apply exposureKnown_closeLadder].
  - intros t m e Hm _ [HM HK]. split; [now apply modeExclusive_processTick|].
    apply (exposureKnown_step _ m e); [now apply marketMapOf_is_Some| | |exact HK].
    + apply positionSlug_processTick.
    + apply ladderSlug_processTick.
Qed.

Lemma exposure_reset markets e0 :
  modeExclusive cfg (resetEngine cfg e0) /\
  exposureKnown (marketMapOf markets) (resetEngine cfg e0).
Proof. split; [now split|]. split; intros s; discriminate. Qed.

(** The replay leaves nothing open. *)
Lemma replay_flat markets e0 :
  position (replay cfg now markets e0) = None /\
  ladderState (replay cfg now markets e0) = None.
Proof.
  unfold replay.
  pose proof (exposure_invariant markets _ (resetEngine cfg e0, ∅)
                (sortedTicks_known markets) (exposure_reset markets e0)) as [_ HK].
  simpl in HK.
  destruct (foldl _ _ _) as [e expired]. now apply closeRemaining_flat.
Qed.

(** The replay keeps its exposure to the markets given, one kind of
    exposure per mode, and ends with none: after any number of ticks of the
    merged sequence the engine holds a position only outside ladder mode and
    a ladder only in ladder mode, each in a market of the map; and when [run]
    returns, no position and no ladder is left open. *)
Theorem run_ends_flat (sqrt : Q -> Q) (markets : list HistoricalMarket)
    (e0 : Engine) :
  (forall n,
     modeExclusive cfg (replayPrefix cfg now markets e0 n) /\
     exposureKnown (marketMapOf markets) (replayPrefix cfg now markets e0 n)) /\
  position (snd (run cfg now sqrt markets e0)) = None /\
  ladderState (snd (run cfg now sqrt markets e0)) = None.
Proof.
  split; [|apply replay_flat].
  intros n. unfold replayPrefix.
  apply (exposure_invariant markets _ (resetEngine cfg e0, ∅));
    [|apply exposure_reset].
  apply Forall_take, sortedTicks_known.
Qed.

End Exposure.

(** ** The ledger of a run *)

Section LedgerOfRun.

Variable cfg : BacktestConfig.
Variable now : nat -> Z.

Lemma ledgerStep_prefix e e' : ledgerStep e e' -> trades e `prefix_of` trades e'.
Proof.
  intros [Ha _ _|t b Ha _ _]; rewrite Ha; [reflexivity|now apply prefix_app_r].
Qed.

(** The ledger [run] returns is append-only and consistent: the equity curve
    has exactly one point per trade, stamped with that trade's exit time; the
    trade the engine remembers as its last is the last one of the list; and
    the trades recorded at any point of the replay are an initial segment of
    the trades returned. *)
Theorem run_ledger (sqrt : Q -> Q) (markets : list HistoricalMarket)
    (e0 : Engine) :
  let r := fst (run cfg now sqrt markets e0) in
  map eq_timestamp (res_equityCurve r) = map trade_exitTimestamp (res_trades r) /\
  lastTrade (snd (run cfg now sqrt markets e0)) = last (res_trades r) /\
  forall n, trades (replayPrefix cfg now markets e0 n) `prefix_of` res_trades r.
Proof.
  simpl.
  assert (Hc : ledgerConsistent (replay cfg now markets e0)).
  { apply (replay_invariant cfg now markets ledgerConsistent).
    - intros v e He. exact He.
    - intros m e _. apply ledgerConsistent_step, ledgerStep_closePositionAtExpiry.
    - intros m e _. apply ledgerConsistent_step, ledgerStep_closeLadderAtExpiry.
    - intros t m e _ _. apply ledgerConsistent_step, ledgerStep_processTick.
    - now split. }
  destruct Hc as [Hlast Hcurve]. split; [exact Hcurve|]. split; [exact Hlast|].
  intros n.
  apply (replay_invariant_from cfg now markets
           (fun e => trades (replayPrefix cfg now markets e0 n) `prefix_of` trades e))
    with (n := n).
  - intros v e He. exact He.
  - intros m e _ He. etrans; [exact He|].
    apply ledgerStep_prefix, ledgerStep_closePositionAtExpiry.
  - intros m e _ He. etrans; [exact He|].
    apply ledgerStep_prefix, ledgerStep_closeLadderAtExpiry.
  - intros t m e _ _ He. etrans; [exact He|].
    apply ledgerStep_prefix, ledgerStep_processTick.
  - reflexivity.
Qed.

End LedgerOfRun.

(** ** Profit and loss accounting in normal mode *)

Section Accounting.

Variable cfg : BacktestConfig.
Variable now : nat -> Z.

Lemma sumOf_snoc {A} (f : A -> Q) l x : sumOf f (l ++ [x]) = sumOf f l + f x.
Proof. unfold sumOf. now rewrite foldl_app. Qed.

Lemma totalPnL_calculateMetrics sqrt e :
  totalPnL (calculateMetrics cfg sqrt e) = sumOf trade_pnl (trades e).
Proof.
  unfold calculateMetrics.
  destruct (calculateMaxDrawdown cfg e), (calculateConsecutive e). reflexivity.
Qed.

Lemma booksBalance_checkCompoundLimit e :
  position e = None -> booksBalance cfg e ->
  booksBalance cfg (checkCompoundLimit cfg e).
Proof.
  intros Hp [Hb Hs]. unfold checkCompoundLimit.
  destruct (Qleb _ _); [now split|].
  destruct (Qleb _ _); [now split|].
  unfold booksBalance, invested in *. simpl. rewrite Hp in *.
  split; [intros H; now destruct H|]. rewrite <- Hs. ring.
Qed.

Lemma booksBalance_executeExit exitPrice exitTimestamp exitReason e :
  booksBalance cfg e ->
  booksBalance cfg (executeExit cfg exitPrice exitTimestamp exitReason e).
Proof.
  intros Hbooks. pose proof Hbooks as [Hb Hs]. unfold executeExit.
  destruct (position e) as [p|] eqn:Hp; [|exact Hbooks].
  assert (H0 : balance e == 0) by now apply Hb.
  unfold invested in Hs. rewrite Hp in Hs.
  apply booksBalance_checkCompoundLimit; [reflexivity|].
  split; [intros H; now destruct H|].
  unfold invested.
  destruct (Qgtb _ _); simpl; rewrite sumOf_snoc; simpl;
    rewrite H0 in Hs; lra.
Qed.

Lemma entryPrice_positive (tick : PriceTick) :
  0 < entryThreshold cfg -> 0 <= slippage cfg ->
  entryThreshold cfg <= bestAsk tick ->
  0 < Qmin (bestAsk tick * (1 + slippage cfg)) 0.99.
Proof.
  intros Ht Hs Ha. apply Q.min_glb_lt; [|reflexivity].
  apply Qmult_lt_0_compat; lra.
Qed.

Lemma booksBalance_checkEntry tick market e :
  0 < entryThreshold cfg -> 0 <= slippage cfg ->
  position e = None -> booksBalance cfg e ->
  booksBalance cfg (checkEntry cfg tick market e).
Proof.
  intros Ht Hs Hp [Hb Hsum]. unfold checkEntry.
  destruct (_ || _); [now split|].
  destruct (Qgtb _ _); [now split|].
  destruct (_ || _) eqn:Hrange; [now split|].
  destruct (Qgeb _ _); [now split|].
  destruct (lastTradeWonSide _ _ _); [now split|].
  apply orb_false_iff in Hrange. destruct Hrange as [Hlow _].
  apply Qltb_ge in Hlow.
  pose proof (entryPrice_positive tick Ht Hs Hlow) as Hpos.
  unfold executeEntry, booksBalance, invested in *. rewrite Hp in Hsum. simpl.
  split; [reflexivity|]. rewrite <- Hsum. field. lra.
Qed.

Lemma booksBalance_processTick tick market e :
  riskMode cfg <> ladder -> 0 < entryThreshold cfg -> 0 <= slippage cfg ->
  booksBalance cfg e -> booksBalance cfg (processTick cfg now tick market e).
Proof.
  intros Hmode Ht Hs Hb. unfold processTick.
  rewrite bool_decide_eq_false_2 by exact Hmode.
  destruct (position e) as [p|] eqn:Hp.
  - destruct (bool_decide _); [|exact Hb].
    destruct (Qgeb _ _); [now apply booksBalance_executeExit|].
    unfold checkStopLoss. rewrite Hp.
    destruct (Qleb _ _); [now apply booksBalance_executeExit|exact Hb].
  - destruct (Qgeb _ _); [|exact Hb]. now apply booksBalance_checkEntry.
Qed.

Lemma booksBalance_closePosition market e :
  booksBalance cfg e -> booksBalance cfg (closePositionAtExpiry cfg market e).
Proof.
  intros Hb. unfold closePositionAtExpiry.
  destruct (position e); [now apply booksBalance_executeExit|exact Hb].
Qed.

Lemma closeLadderAtExpiry_none market e :
  ladderState e = None -> closeLadderAtExpiry cfg market e = e.
Proof. intros H. unfold closeLadderAtExpiry. now rewrite H. Qed.

Lemma normal_mode_invariant markets l : forall st,
  riskMode cfg <> ladder -> 0 < entryThreshold cfg -> 0 <= slippage cfg ->
  Forall (fun tm => snd tm ∈ markets /\ fst tm ∈ priceTicks (snd tm)) l ->
  ladderState (fst st) = None /\ booksBalance cfg (fst st) ->
  let st' := foldl (runTick cfg now (marketMapOf markets)) st l in
  ladderState (fst st') = None /\ booksBalance cfg (fst st').
Proof.
  intros st Hmode Ht Hs.
  apply (ticks_invariant cfg now markets
           (fun e => ladderState e = None /\ booksBalance cfg e)).
  - intros v e He. exact He.
  - intros m e _ [Hl Hb]. split;
      [now rewrite ladderState_closePositionAtExpiry
      |now apply booksBalance_closePosition].
  - intros m e _ [Hl Hb]. now rewrite closeLadderAtExpiry_none.
  - intros t m e _ _ [Hl Hb]. split;
      [now rewrite ladderState_processTick_normal
      |now apply booksBalance_processTick].
Qed.

Lemma booksBalance_reset e0 : booksBalance cfg (resetEngine cfg e0).
Proof.
  split; [intros H; now destruct H|]. unfold invested, sumOf. simpl. ring.
Qed.

(** In normal mode, with a positive entry threshold and no negative
    slippage, the books balance at every point of the replay: balance, saved
    profit and the money invested in the open position add up to the starting
    balance plus the profit and loss of the trades recorded so far.  When
    [run] returns, the final balance and the saved profit add up to the
    starting balance plus the total profit and loss it reports. *)
Theorem normal_mode_accounting (sqrt : Q -> Q)
    (markets : list HistoricalMarket) (e0 : Engine) :
  riskMode cfg <> ladder -> 0 < entryThreshold cfg -> 0 <= slippage cfg ->
  (forall n, booksBalance cfg (replayPrefix cfg now markets e0 n)) /\
  let r := fst (run cfg now sqrt markets e0) in
  res_finalBalance r + res_savedProfit r
    == startingBalance cfg + totalPnL (res_metrics r).
Proof.
  intros Hmode Ht Hs.
  assert (H0 : ladderState (resetEngine cfg e0) = None /\
               booksBalance cfg (resetEngine cfg e0))
    by (split; [reflexivity|apply booksBalance_reset]).
  split.
  - intros n. unfold replayPrefix.
    apply (normal_mode_invariant markets _ (resetEngine cfg e0, ∅));
      [exact Hmode|exact Ht|exact Hs| |exact H0].
    apply Forall_take, sortedTicks_known.
  - simpl. rewrite totalPnL_calculateMetrics.
    destruct (replay_flat cfg now markets e0) as [Hflat _].
    assert (Hb : booksBalance cfg (replay cfg now markets e0)).
    { unfold replay in *.
      pose proof (normal_mode_invariant markets _ (resetEngine cfg e0, ∅)
                    Hmode Ht Hs (sortedTicks_known markets) H0) as [Hl Hb].
      simpl in Hl, Hb.
      destruct (foldl _ _ _) as [e expired]. simpl in Hl, Hb.
      unfold closeRemaining. cbv zeta.
      assert (H1 : ladderState match position e with
                     | Some p =>
                       match marketMapOf markets !! pos_marketSlug p with
                       | Some market => closePositionAtExpiry cfg market e
                       | None => e
                       end
                     | None => e
                     end = None /\
                   booksBalance cfg match position e with
                     | Some p =>
                       match marketMapOf markets !! pos_marketSlug p with
                       | Some market => closePositionAtExpiry cfg market e
                       | None => e
                       end
                     | None => e
                     end).
      { destruct (position e); [|now split].
        destruct (marketMapOf markets !! _); [|now split].
        split; [now rewrite ladderState_closePositionAtExpiry
               |now apply booksBalance_closePosition]. }
      destruct H1 as [H1 H2]. now rewrite H1. }
    destruct Hb as [_ Hsum]. unfold invested in Hsum. rewrite Hflat in Hsum.
    rewrite <- Hsum. ring.
Qed.

End Accounting.

(** An instance: [normalConfig] on [normalMarket] buys at 0.60 with the whole
    balance of 20 and sells at 0.99. *)
Lemma normal_mode_accounting_example :
  (riskMode normalConfig <> ladder /\ 0 < entryThreshold normalConfig /\
   0 <= slippage normalConfig) /\
  let r := runBacktest testClock (fun q => q) normalConfig [normalMarket] in
  length (res_trades r) = 1%nat /\
  res_finalBalance r + res_savedProfit r
    == startingBalance normalConfig + totalPnL (res_metrics r).
Proof.
  assert (H1 : riskMode normalConfig <> ladder) by discriminate.
  assert (H2 : 0 < entryThreshold normalConfig) by reflexivity.
  assert (H3 : 0 <= slippage normalConfig) by discriminate.
  split; [now repeat split|]. split; [reflexivity|].
  exact (proj2 (normal_mode_accounting normalConfig testClock (fun q => q)
                  [normalMarket] (newEngine normalConfig) H1 H2 H3)).
Defined.

(** ** The metrics of a run *)

Section Metrics.

Variable cfg : BacktestConfig.
Variable sqrt : Q -> Q.

Lemma win_or_loss (t : BacktestTrade) :
  Qleb (trade_pnl t) 0 = negb (Qgtb (trade_pnl t) 0).
Proof.
  destruct (Qgtb (trade_pnl t) 0) eqn:H; simpl.
  - apply Qleb_gt. now apply Qgtb_lt.
  - apply Qleb_le. now apply Qgtb_le.
Qed.

Lemma wins_losses_length (l : list BacktestTrade) :
  (length (filter (fun t => Qgtb (trade_pnl t) 0 = true) l) +
   length (filter (fun t => Qleb (trade_pnl t) 0 = true) l))%nat = length l.
Proof.
  induction l as [|t l IH]; [reflexivity|].
  rewrite !filter_cons. rewrite win_or_loss.
  destruct (Qgtb (trade_pnl t) 0) eqn:H; simpl;
    repeat (destruct (decide _); try congruence); simpl; lia.
Qed.

Lemma consecutive_bounded (l : list BacktestTrade) : forall maxW maxL curW curL a b,
  (maxW <= a)%nat -> (curW <= a)%nat -> (maxL <= b)%nat -> (curL <= b)%nat ->
  let '(maxW', maxL', _, _) := foldl consecutiveStep (maxW, maxL, curW, curL) l in
  (maxW' <= a + length (filter (fun t => Qgtb (trade_pnl t) 0 = true) l))%nat /\
  (maxL' <= b + length (filter (fun t => Qleb (trade_pnl t) 0 = true) l))%nat.
Proof.
  induction l as [|t l IH]; intros maxW maxL curW curL a b H1 H2 H3 H4.
  - simpl. lia.
  - cbn [foldl]. rewrite !filter_cons, win_or_loss.
    change (consecutiveStep (maxW, maxL, curW, curL) t) with
      (if Qgtb (trade_pnl t) 0
       then (if (maxW <? S curW)%nat then S curW else maxW, maxL, S curW, 0%nat)
       else (maxW, if (maxL <? S curL)%nat then S curL else maxL, 0%nat, S curL)).
    destruct (Qgtb (trade_pnl t) 0) eqn:Hw; simpl negb;
      repeat (destruct (decide _); try congruence).
    + specialize (IH (if (maxW <? S curW)%nat then S curW else maxW) maxL
                     (S curW) 0%nat (S a) b).
      destruct (foldl _ _ l) as [[[mw ml] cw] cl].
      destruct IH as [IH1 IH2]; [destruct (_ <? _)%nat; lia|lia|lia|lia|].
      simpl length. lia.
    + specialize (IH maxW (if (maxL <? S curL)%nat then S curL else maxL)
                     0%nat (S curL) a (S b)).
      destruct (foldl _ _ l) as [[[mw ml] cw] cl].
      destruct IH as [IH1 IH2]; [lia|lia|destruct (_ <? _)%nat; lia|lia|].
      simpl length. lia.
Qed.

Lemma lengthQ_nonneg {A} (l : list A) : 0 <= lengthQ l.
Proof.
  unfold lengthQ. change 0 with (inject_Z 0). rewrite <- Zle_Qle. lia.
Qed.

Lemma lengthQ_le {A B} (l : list A) (k : list B) :
  (length l <= length k)%nat -> lengthQ l <= lengthQ k.
Proof. intros H. unfold lengthQ. rewrite <- Zle_Qle. lia. Qed.

Lemma lengthQ_positive {A} (l : list A) : (0 < length l)%nat -> 0 < lengthQ l.
Proof.
  intros H. unfold lengthQ. change 0 with (inject_Z 0). rewrite <- Zlt_Qlt. lia.
Qed.

(** The counts [calculateMetrics] reports fit together: every trade is a win
    or a loss and none is both, the longest runs of wins and of losses are no
    longer than the numbers of wins and of losses, and the win rate lies
    between 0 and 1. *)
Theorem metrics_counts (e : Engine) :
  let m := calculateMetrics cfg sqrt e in
  totalTrades m = length (trades e) /\
  (wins m + losses m)%nat = totalTrades m /\
  (maxConsecutiveWins m <= wins m)%nat /\
  (maxConsecutiveLosses m <= losses m)%nat /\
  0 <= winRate m <= 1.
Proof.
  unfold calculateMetrics.
  destruct (calculateMaxDrawdown cfg e) as [md mdp].
  pose proof (consecutive_bounded (trades e) 0 0 0 0 0 0
                (le_n _) (le_n _) (le_n _) (le_n _))%nat as Hc.
  unfold calculateConsecutive.
  destruct (foldl consecutiveStep _ _) as [[[mw ml] cw] cl].
  pose proof (wins_losses_length (trades e)) as Hsum.
  simpl. split; [reflexivity|]. split; [exact Hsum|].
  split; [apply Hc|]. split; [apply Hc|].
  destruct (0 <? length (trades e))%nat eqn:Hn; [|split; discriminate].
  apply Nat.ltb_lt in Hn.
  pose proof (lengthQ_positive (trades e) Hn) as Hpos.
  set (w := filter _ (trades e)) in *.
  assert (Hle : lengthQ w <= lengthQ (trades e)) by (apply lengthQ_le; lia).
  pose proof (lengthQ_nonneg w) as Hw.
  split.
  - apply Qle_shift_div_l; [exact Hpos|]. lra.
  - apply Qle_shift_div_r; [exact Hpos|]. lra.
Qed.

Lemma drawdownStep_spec peak md mdp (x : EquityPoint) :
  exists peak' md' mdp',
    drawdownStep (peak, md, mdp) x = (peak', md', mdp') /\
    peak <= peak' /\ eq_balance x <= peak' /\ md <= md' /\
    peak' - eq_balance x <= md' /\
    (0 <= mdp -> 0 <= mdp').
Proof.
  unfold drawdownStep.
  set (peak' := if Qgtb (eq_balance x) peak then eq_balance x else peak).
  assert (Hpeak : peak <= peak' /\ eq_balance x <= peak').
  { unfold peak'. destruct (Qgtb _ _) eqn:H.
    - apply Qgtb_lt in H. lra.
    - apply Qgtb_le in H. lra. }
  destruct Hpeak as [H1 H2].
  destruct (Qgtb (peak' - eq_balance x) md) eqn:Hd.
  - apply Qgtb_lt in Hd. eexists _, _, _. split; [reflexivity|].
    repeat split; try lra. intros _.
    destruct (Qgtb peak' 0) eqn:Hp; [|discriminate].
    apply Qgtb_lt in Hp. apply Qle_shift_div_l; [exact Hp|]. lra.
  - apply Qgtb_le in Hd. eexists _, _, _. split; [reflexivity|].
    repeat split; lra.
Qed.

Lemma drawdown_invariant (l : list EquityPoint) :
  exists peak md mdp,
    foldl drawdownStep (startingBalance cfg, 0, 0) l = (peak, md, mdp) /\
    startingBalance cfg <= peak /\
    (forall i p, l !! i = Some p -> eq_balance p <= peak) /\
    0 <= md /\ 0 <= mdp /\
    (forall j q, l !! j = Some q -> startingBalance cfg - eq_balance q <= md) /\
    (forall i j p q, (i <= j)%nat -> l !! i = Some p -> l !! j = Some q ->
       eq_balance p - eq_balance q <= md).
Proof.
  induction l as [|x l IH] using rev_ind.
  - exists (startingBalance cfg), 0, 0. simpl.
    repeat split; try lra; intros; discriminate.
  - destruct IH as (peak & md & mdp & Hf & Hs & Hp & Hmd & Hmdp & Hstart & Hdrop).
    rewrite foldl_app, Hf. cbn [foldl].
    destruct (drawdownStep_spec peak md mdp x)
      as (peak' & md' & mdp' & -> & H1 & H2 & H3 & H4 & H5).
    exists peak', md', mdp'. split; [reflexivity|].
    assert (Hp' : forall i p, (l ++ [x]) !! i = Some p -> eq_balance p <= peak').
    { intros i p Hi. apply lookup_snoc_Some in Hi.
      destruct Hi as [[_ Hi]|[_ <-]]; [|exact H2].
      specialize (Hp i p Hi). lra. }
    repeat split; try lra; [exact Hp'| |].
    + intros j q Hj. apply lookup_snoc_Some in Hj.
      destruct Hj as [[_ Hj]|[_ <-]]; [specialize (Hstart j q Hj); lra|lra].
    + intros i j p q Hij Hi Hj. apply lookup_snoc_Some in Hj.
      destruct Hj as [[Hlt Hj]|[-> <-]].
      * apply lookup_snoc_Some in Hi.
        destruct Hi as [[_ Hi]|[-> _]]; [|lia].
        specialize (Hdrop i j p q Hij Hi Hj). lra.
      * apply lookup_snoc_Some in Hi.
        destruct Hi as [[_ Hi]|[_ <-]]; [specialize (Hp i p Hi); lra|lra].
Qed.

Lemma drawdownCurve_invariant (l : list EquityPoint) :
  exists peak curve,
    foldl drawdownCurveStep (startingBalance cfg, []) l = (peak, curve) /\
    map dd_timestamp curve = map eq_timestamp l /\
    Forall (fun d => 0 <= dd_drawdown d) curve.
Proof.
  induction l as [|x l IH] using rev_ind.
  - exists (startingBalance cfg), []. now repeat split.
  - destruct IH as (peak & curve & Hf & Ht & Hd).
    rewrite foldl_app, Hf. simpl. eexists _, _. split; [reflexivity|].
    rewrite !map_app, Ht. split; [reflexivity|].
    apply Forall_app. split; [exact Hd|]. apply Forall_singleton. simpl.
    set (peak' := if Qgtb (eq_balance x) peak then eq_balance x else peak).
    assert (H2 : eq_balance x <= peak').
    { unfold peak'. destruct (Qgtb _ _) eqn:H.
      - lra.
      - apply Qgtb_le in H. lra. }
    destruct (Qgtb peak' 0) eqn:Hp; [|discriminate].
    apply Qgtb_lt in Hp. apply Qle_shift_div_l; [exact Hp|]. lra.
Qed.

(** [maxDrawdown] is what its name says, measured from the starting balance
    and from every earlier equity point: it is not negative, and no equity
    point lies further below the starting balance or below an earlier point
    than [maxDrawdown].  The drawdown curve has one point per equity point,
    with the same timestamp and a drawdown that is not negative. *)
Theorem drawdown_bounds (e : Engine) :
  let md := fst (calculateMaxDrawdown cfg e) in
  let curve := calculateDrawdownCurve cfg e in
  0 <= md /\ 0 <= snd (calculateMaxDrawdown cfg e) /\
  (forall j q, equityCurve e !! j = Some q ->
     startingBalance cfg - eq_balance q <= md) /\
  (forall i j p q, (i <= j)%nat ->
     equityCurve e !! i = Some p -> equityCurve e !! j = Some q ->
     eq_balance p - eq_balance q <= md) /\
  map dd_timestamp curve = map eq_timestamp (equityCurve e) /\
  Forall (fun d => 0 <= dd_drawdown d) curve.
Proof.
  unfold calculateMaxDrawdown, calculateDrawdownCurve.
  destruct (drawdown_invariant (equityCurve e))
    as (peak & md & mdp & -> & _ & _ & Hmd & Hmdp & Hstart & Hdrop).
  destruct (drawdownCurve_invariant (equityCurve e))
    as (peak2 & curve & -> & Ht & Hd).
  simpl. repeat split; assumption.
Qed.

End Metrics.

(** ** The wall clock does not reach the result *)

Section Clock.

Variable cfg : BacktestConfig.

Lemma dust_open (x : Q) :
  Qltb x 0.01 = true -> Qltb (Qmax 0 x) 0.01 = false -> False.
Proof.
  intros H1 H2. apply Qltb_lt in H1. apply Qltb_ge in H2.
  destruct (Q.max_spec 0 x) as [[_ H]|[_ H]]; rewrite H in H2; lra.
Qed.

Lemma retime_retime a b t0 t1 ls : retime a b (retime t0 t1 ls) = retime a b ls.
Proof. unfold retime. simpl. now destruct (Qltb _ _). Qed.

(** *** One operation at a time

    Each operation is run on a ladder and an engine that differ from
    another pair in what the clock left; the results differ in that alone.
    The tests of the operation read none of it and are decided first; at the
    leaves the engine commutes with the operation and the two ladders are
    compared field by field. *)

Lemma erase_ladder c m o ls' ls e :
  retime 0 0 ls' = retime 0 0 ls ->
  reclock 0 None 0 0
    (set_ladderState (Some ls')
       (set_clock c (set_currentMarket m (set_ladderState o e))))
  = reclock 0 None 0 0 (set_ladderState (Some ls) e).
Proof. intros H. unfold reclock. simpl. now rewrite H. Qed.

Lemma erase_reset c1 c2 c m o ls' ls e :
  retime 0 0 ls' = retime 0 0 ls ->
  reclock 0 None 0 0
    (set_clock c1 (set_ladderState (Some ls')
       (set_clock c (set_currentMarket m (set_ladderState o e)))))
  = reclock 0 None 0 0 (set_clock c2 (set_ladderState (Some ls) e)).
Proof. intros H. unfold reclock. simpl. now rewrite H. Qed.

Lemma open_not_dust (x : Q) :
  Qltb (Qmax 0 x) 0.01 = false -> Qltb x 0.01 = false.
Proof.
  intros H. destruct (Qltb x 0.01) eqn:E; [|reflexivity].
  exfalso. now apply (dust_open x).
Qed.

Lemma erase_none c m o e :
  reclock 0 None 0 0
    (set_ladderState None
       (set_clock c (set_currentMarket m (set_ladderState o e))))
  = reclock 0 None 0 0 (set_ladderState None e).
Proof. reflexivity. Qed.

Lemma recordLadderTrade_frame trade c m o e :
  recordLadderTrade trade (set_clock c (set_currentMarket m (set_ladderState o e)))
  = set_clock c (set_currentMarket m (set_ladderState o (recordLadderTrade trade e))).
Proof. unfold recordLadderTrade. simpl. now destruct (Qgtb _ _). Qed.

Lemma checkCompoundLimit_commutes c m o e :
  checkCompoundLimit cfg (set_clock c (set_currentMarket m (set_ladderState o e)))
  = set_clock c (set_currentMarket m (set_ladderState o (checkCompoundLimit cfg e))).
Proof.
  unfold checkCompoundLimit. simpl.
  destruct (Qleb _ _); [reflexivity|]. now destruct (Qleb _ _).
Qed.

Lemma checkCompoundLimit_ladder o e :
  checkCompoundLimit cfg (set_ladderState o e)
  = set_ladderState o (checkCompoundLimit cfg e).
Proof.
  unfold checkCompoundLimit. simpl.
  destruct (Qleb _ _); [reflexivity|]. now destruct (Qleb _ _).
Qed.

(** The ladder's fields, computed on a ladder given field by field. *)
Ltac ladder_fields :=
  cbv beta iota zeta delta
    [set_currentStepIndex set_currentStepPhase set_completedSteps
     set_skippedSteps set_skippedReasons set_totalShares set_totalCostBasis
     set_averageEntryPrice set_totalSharesSold set_totalSellProceeds
     set_lastStepTime set_lastStepPrice set_needsRecovery set_status
     ls_tokenId ls_side ls_marketSlug ls_marketEndDate currentStepIndex
     currentStepPhase completedSteps skippedSteps skippedReasons totalShares
     totalCostBasis averageEntryPrice totalSharesSold totalSellProceeds
     ladderStartTime lastStepTime lastStepPrice needsRecovery ls_status
     retime skipLadderStep costBasisPortion calculateStepSize stopLossTrade
     getOpenLadderShares resetLadderState].

Ltac outer_test :=
  match goal with
  | |- reclock _ _ _ _ (if ?c then _ else _) = _ => destruct c eqn:?
  end.

Ltac dust_test :=
  match goal with
  | |- context [Qltb (?a - ?b) 0.01] =>
    is_var a; is_var b; destruct (Qltb (a - b) 0.01) eqn:?
  end.

Lemma executeLadderBuyStep_reclock tick ls step e c m t0 t1 o :
  reclock 0 None 0 0
    (executeLadderBuyStep cfg tick (retime t0 t1 ls) step
       (set_clock c (set_currentMarket m (set_ladderState o e))))
  = reclock 0 None 0 0 (executeLadderBuyStep cfg tick ls step e).
Proof.
  unfold executeLadderBuyStep. destruct ls. ladder_fields.
  change (balance (set_clock c (set_currentMarket m (set_ladderState o e))))
    with (balance e).
  outer_test; [apply erase_ladder; ladder_fields; now dust_test|].
  outer_test; [apply erase_ladder; ladder_fields; now dust_test|].
  outer_test; [apply erase_ladder; ladder_fields; now dust_test|].
  change (set_balance ?b (set_clock c (set_currentMarket m (set_ladderState o e))))
    with (set_clock c (set_currentMarket m (set_ladderState o (set_balance b e)))).
  now apply erase_ladder.
Qed.

Lemma executeLadderSellStep_reclock tick ls step e c m t0 t1 o :
  reclock 0 None 0 0
    (executeLadderSellStep cfg tick (retime t0 t1 ls) step
       (set_clock c (set_currentMarket m (set_ladderState o e))))
  = reclock 0 None 0 0 (executeLadderSellStep cfg tick ls step e).
Proof.
  unfold executeLadderSellStep. destruct ls. ladder_fields.
  outer_test; [apply erase_ladder; ladder_fields; now dust_test|].
  outer_test; [apply erase_ladder; ladder_fields; now dust_test|].
  outer_test; [apply erase_ladder; ladder_fields; now dust_test|].
  apply orb_false_iff in Heqb1 as [_ Hopen]. rewrite Hopen.
  change (set_balance ?b (set_clock c (set_currentMarket m (set_ladderState o e))))
    with (set_clock c (set_currentMarket m (set_ladderState o (set_balance b e)))).
  rewrite recordLadderTrade_frame, checkCompoundLimit_ladder,
    (checkCompoundLimit_ladder _ (recordLadderTrade _ _)), checkCompoundLimit_commutes.
  apply erase_ladder.
  match goal with |- context [if ?c then _ else _] => destruct c end;
    reflexivity.
Qed.

Lemma executeLadderStopLoss_reclock now now' tick ls step e c m t0 t1 o :
  reclock 0 None 0 0
    (executeLadderStopLoss cfg now' tick (retime t0 t1 ls) step
       (set_clock c (set_currentMarket m (set_ladderState o e))))
  = reclock 0 None 0 0 (executeLadderStopLoss cfg now tick ls step e).
Proof.
  unfold executeLadderStopLoss. destruct ls. ladder_fields.
  outer_test.
  - change (clearLadderMarketLock ?s
              (set_clock c (set_currentMarket m (set_ladderState o e))))
      with (set_clock c (set_currentMarket m
              (set_ladderState o (clearLadderMarketLock s e)))).
    now apply erase_reset.
  - apply open_not_dust in Heqb. rewrite Heqb.
    change (set_balance ?b (set_clock c (set_currentMarket m (set_ladderState o e))))
      with (set_clock c (set_currentMarket m (set_ladderState o (set_balance b e)))).
    rewrite recordLadderTrade_frame, checkCompoundLimit_commutes.
    change (clearLadderMarketLock ?s
              (set_clock c (set_currentMarket m (set_ladderState o ?x))))
      with (set_clock c (set_currentMarket m
              (set_ladderState o (clearLadderMarketLock s x)))).
    now apply erase_reset.
Qed.

Lemma closeLadderAtExpiry_reclock market e c m t0 t1 :
  reclock 0 None 0 0 (closeLadderAtExpiry cfg market (reclock c m t0 t1 e))
  = reclock 0 None 0 0 (closeLadderAtExpiry cfg market e).
Proof.
  unfold closeLadderAtExpiry.
  change (ladderState (reclock c m t0 t1 e)) with (retime t0 t1 <$> ladderState e).
  destruct (ladderState e) as [ls|] eqn:Hls; [|unfold reclock; rewrite Hls; reflexivity].
  cbn [fmap option_fmap option_map]. clear Hls. destruct ls. ladder_fields.
  set (o := retime t0 t1 <$> ladderState e).
  change (reclock c m t0 t1 e)
    with (set_clock c (set_currentMarket m (set_ladderState o e))).
  outer_test; [apply erase_none|]. cbv iota.
  change (set_balance ?b (set_clock c (set_currentMarket m (set_ladderState o e))))
    with (set_clock c (set_currentMarket m (set_ladderState o (set_balance b e)))).
  rewrite recordLadderTrade_frame, checkCompoundLimit_commutes.
  apply erase_none.
Qed.

Lemma retime_recovered t t0 t1 ls :
  set_lastStepTime t (set_needsRecovery false (retime t0 t1 ls))
  = retime t0 t (set_lastStepTime t (set_needsRecovery false ls)).
Proof. unfold retime. simpl. now destruct (Qltb _ _). Qed.

Lemma reclock_reclock c m t0 t1 e :
  reclock 0 None 0 0 (reclock c m t0 t1 e) = reclock 0 None 0 0 e.
Proof.
  destruct e as [b sp p [ls|] locks tr eq pk lt cm ck]; [|reflexivity].
  unfold reclock. simpl. now rewrite retime_retime.
Qed.

Lemma set_ladderState_reclock ls e c m t0 t1 o :
  reclock 0 None 0 0
    (set_ladderState (Some (retime t0 t1 ls))
       (set_clock c (set_currentMarket m (set_ladderState o e))))
  = reclock 0 None 0 0 (set_ladderState (Some ls) e).
Proof. unfold reclock. simpl. now rewrite retime_retime. Qed.

Lemma getActiveStep_retime steps t0 t1 n : forall ls,
  (length steps - currentStepIndex ls = n)%nat ->
  getActiveStep steps (retime t0 t1 ls)
  = (fst (getActiveStep steps ls), retime t0 t1 (snd (getActiveStep steps ls))).
Proof.
  induction n as [n IH] using lt_wf_ind. intros ls Hn.
  rewrite (getActiveStep_eq steps ls), (getActiveStep_eq steps (retime t0 t1 ls)).
  change (currentStepIndex (retime t0 t1 ls)) with (currentStepIndex ls).
  destruct (steps !! currentStepIndex ls) as [step|] eqn:Hstep; [|reflexivity].
  change (stepDone (retime t0 t1 ls) step) with (stepDone ls step).
  destruct (negb (step_enabled step) || stepDone ls step); [|reflexivity].
  pose proof (lookup_lt_Some _ _ _ Hstep) as Hlt.
  assert (H : (length steps - S (currentStepIndex ls) < n)%nat) by lia.
  exact (IH _ H (set_currentStepIndex (S (currentStepIndex ls)) ls) eq_refl).
Qed.

Lemma ladderStopLossHit_retime tick t0 t1 ls steps :
  ladderStopLossHit tick (retime t0 t1 ls) steps = ladderStopLossHit tick ls steps.
Proof. reflexivity. Qed.

Lemma set_ladderState_None_reclock e c m o :
  reclock 0 None 0 0
    (set_ladderState None (set_clock c (set_currentMarket m (set_ladderState o e))))
  = reclock 0 None 0 0 (set_ladderState None e).
Proof. reflexivity. Qed.

Lemma processLadderStateTick_reclock now now' tick market steps e c m t0 t1 :
  reclock 0 None 0 0
    (processLadderStateTick cfg now' tick market steps (reclock c m t0 t1 e))
  = reclock 0 None 0 0 (processLadderStateTick cfg now tick market steps e).
Proof.
  unfold processLadderStateTick.
  destruct (ladderState e) as [ls|] eqn:Hls.
  2: { assert (Hre : ladderState (reclock c m t0 t1 e) = None)
         by (unfold reclock; simpl; now rewrite Hls).
       rewrite Hre. apply reclock_reclock. }
  assert (Hre : ladderState (reclock c m t0 t1 e) = Some (retime t0 t1 ls))
    by (unfold reclock; simpl; now rewrite Hls).
  rewrite Hre, ladderStopLossHit_retime.
  destruct (ladderStopLossHit tick ls steps) as [stopLossStep|].
  { apply executeLadderStopLoss_reclock. }
  change (ls_status (retime t0 t1 ls)) with (ls_status ls).
  change (needsRecovery (retime t0 t1 ls)) with (needsRecovery ls).
  destruct (negb (bool_decide (ls_status ls = active))); [apply reclock_reclock|].
  destruct (needsRecovery ls && negb (recoveryCleared tick steps));
    [apply reclock_reclock|].
  assert (Hrec : exists t,
    (if needsRecovery ls
     then set_lastStepTime (tick_timestamp tick)
            (set_needsRecovery false (retime t0 t1 ls))
     else retime t0 t1 ls)
    = retime t0 t
        (if needsRecovery ls
         then set_lastStepTime (tick_timestamp tick) (set_needsRecovery false ls)
         else ls)).
  { destruct (needsRecovery ls); eexists; [apply retime_recovered|reflexivity]. }
  destruct Hrec as [t ->].
  set (ls1 := if needsRecovery ls then _ else ls).
  rewrite (getActiveStep_retime steps t0 t _ ls1 eq_refl).
  destruct (getActiveStep steps ls1) as [[nextStep|] ls2]; simpl fst; simpl snd.
  - change (currentStepPhase (retime t0 t ls2)) with (currentStepPhase ls2).
    destruct (currentStepPhase ls2).
    + destruct (_ && _);
        [apply executeLadderBuyStep_reclock|apply set_ladderState_reclock].
    + destruct (_ && _);
        [apply executeLadderSellStep_reclock|apply set_ladderState_reclock].
  - change (ls_status (retime t0 t ls2)) with (ls_status ls2).
    destruct (bool_decide (ls_status ls2 = active));
      [|apply set_ladderState_reclock].
    change (ls_marketSlug (set_status completed (retime t0 t ls2)))
      with (ls_marketSlug (set_status completed ls2)).
    change (totalShares (set_status completed (retime t0 t ls2)))
      with (totalShares (set_status completed ls2)).
    change (totalSharesSold (set_status completed (retime t0 t ls2)))
      with (totalSharesSold (set_status completed ls2)).
    change (lockLadderMarket (ls_marketSlug (set_status completed ls2))
              (reclock c m t0 t1 e))
      with (set_clock c (set_currentMarket m
              (set_ladderState (retime t0 t1 <$> ladderState e)
                 (lockLadderMarket (ls_marketSlug (set_status completed ls2)) e)))).
    destruct (Qltb _ _); [apply set_ladderState_None_reclock|].
    change (set_status completed (retime t0 t ls2))
      with (retime t0 t (set_status completed ls2)).
    apply set_ladderState_reclock.
Qed.

Lemma processLadderTick_reclock now now' tick market e c m t0 t1 :
  reclock 0 None 0 0 (processLadderTick cfg now' tick market (reclock c m t0 t1 e))
  = reclock 0 None 0 0 (processLadderTick cfg now tick market e).
Proof.
  unfold processLadderTick.
  destruct (bool_decide _); [apply reclock_reclock|].
  destruct (ladderState e) as [ls|] eqn:Hls.
  - assert (Hre : ladderState (reclock c m t0 t1 e) = Some (retime t0 t1 ls))
      by (unfold reclock; simpl; now rewrite Hls).
    rewrite Hre. change (ls_tokenId (retime t0 t1 ls)) with (ls_tokenId ls).
    destruct (negb _); [apply reclock_reclock|].
    apply processLadderStateTick_reclock.
  - assert (Hre : ladderState (reclock c m t0 t1 e) = None)
      by (unfold reclock; simpl; now rewrite Hls).
    rewrite Hre.
    change (balance (reclock c m t0 t1 e)) with (balance e).
    change (isLadderMarketLocked (market_slug market) (reclock c m t0 t1 e))
      with (isLadderMarketLocked (market_slug market) e).
    change (lastTradeWonSide market (sideOf tick market) (reclock c m t0 t1 e))
      with (lastTradeWonSide market (sideOf tick market) e).
    destruct (Qltb (balance e) 1); [apply reclock_reclock|].
    destruct (isLadderMarketLocked _ _); [apply reclock_reclock|].
    destruct (_ || _); [apply reclock_reclock|].
    destruct (Qgtb _ _); [apply reclock_reclock|].
    destruct (_ || _); [apply reclock_reclock|].
    destruct (lastTradeWonSide _ _ _); [apply reclock_reclock|].
    destruct (find _ _) as [firstEnabledStep|]; [|apply reclock_reclock].
    destruct (Qltb _ _); [apply reclock_reclock|].
    set (ls0 := set_lastStepTime (tick_timestamp tick)
                  (set_lastStepPrice (bestAsk tick)
                     (initializeLadderState (now (clock e)) (tick_tokenId tick)
                        (sideOf tick market) (market_slug market)
                        (market_endDate market)))).
    change (set_lastStepTime (tick_timestamp tick)
              (set_lastStepPrice (bestAsk tick)
                 (initializeLadderState (now' (clock (reclock c m t0 t1 e)))
                    (tick_tokenId tick) (sideOf tick market) (market_slug market)
                    (market_endDate market))))
      with (retime (now' c) (tick_timestamp tick) ls0).
    change (set_ladderState (Some (retime (now' c) (tick_timestamp tick) ls0))
              (set_clock (S (clock (reclock c m t0 t1 e))) (reclock c m t0 t1 e)))
      with (set_clock (S c) (set_currentMarket m
              (set_ladderState (Some (retime (now' c) (tick_timestamp tick) ls0))
                 (set_ladderState (Some ls0) (set_clock (S (clock e)) e))))).
    destruct (Qleb _ _).
    + apply executeLadderBuyStep_reclock.
    + exact (set_ladderState_reclock ls0 (set_clock (S (clock e)) e) (S c) m
               (now' c) (tick_timestamp tick) None).
Qed.

(** The operations of normal mode do not read what the clock left. *)
Lemma executeExit_commutes x t r c m o e :
  executeExit cfg x t r (set_clock c (set_currentMarket m (set_ladderState o e)))
  = set_clock c (set_currentMarket m (set_ladderState o (executeExit cfg x t r e))).
Proof.
  unfold executeExit. simpl.
  destruct (position e); [|reflexivity].
  rewrite <- checkCompoundLimit_commutes. f_equal.
  now destruct (Qgtb _ _).
Qed.

Lemma processTick_normal_commutes now tick market c m o e :
  riskMode cfg <> ladder ->
  processTick cfg now tick market (set_clock c (set_currentMarket m (set_ladderState o e)))
  = set_clock c (set_currentMarket m (set_ladderState o (processTick cfg now tick market e))).
Proof.
  intros Hmode. unfold processTick.
  rewrite bool_decide_eq_false_2 by exact Hmode. simpl.
  destruct (position e) eqn:Hp.
  - destruct (bool_decide _); [|reflexivity].
    destruct (Qgeb _ _); [apply executeExit_commutes|].
    unfold checkStopLoss. simpl. rewrite Hp.
    destruct (Qleb _ _); [apply executeExit_commutes|reflexivity].
  - destruct (Qgeb _ _); [|reflexivity].
    unfold checkEntry.
    destruct (_ || _); [reflexivity|].
    destruct (Qgtb _ _); [reflexivity|].
    destruct (_ || _); [reflexivity|].
    destruct (Qgeb _ _); [reflexivity|].
    change (lastTradeWonSide market (sideOf tick market)
              (set_clock c (set_currentMarket m (set_ladderState o e))))
      with (lastTradeWonSide market (sideOf tick market) e).
    destruct (lastTradeWonSide _ _ _); reflexivity.
Qed.

Lemma closePositionAtExpiry_commutes market c m o e :
  closePositionAtExpiry cfg market (set_clock c (set_currentMarket m (set_ladderState o e)))
  = set_clock c (set_currentMarket m
      (set_ladderState o (closePositionAtExpiry cfg market e))).
Proof.
  unfold closePositionAtExpiry. simpl.
  destruct (position e); [apply executeExit_commutes|reflexivity].
Qed.

Lemma reclock_commuted c m t0 t1 e e1 :
  ladderState e1 = ladderState e ->
  set_clock c (set_currentMarket m
    (set_ladderState (retime t0 t1 <$> ladderState e) e1))
  = reclock c m t0 t1 e1.
Proof. intros H. unfold reclock. now rewrite H. Qed.

Lemma closePositionAtExpiry_reclock market e c m t0 t1 :
  closePositionAtExpiry cfg market (reclock c m t0 t1 e)
  = reclock c m t0 t1 (closePositionAtExpiry cfg market e).
Proof.
  unfold reclock at 1. rewrite closePositionAtExpiry_commutes.
  apply reclock_commuted, ladderState_closePositionAtExpiry.
Qed.

Lemma processTick_reclock now now' tick market e c m t0 t1 :
  reclock 0 None 0 0 (processTick cfg now' tick market (reclock c m t0 t1 e))
  = reclock 0 None 0 0 (processTick cfg now tick market e).
Proof.
  destruct (decide (riskMode cfg = ladder)) as [Hmode|Hmode].
  - unfold processTick. rewrite bool_decide_eq_true_2 by exact Hmode.
    apply processLadderTick_reclock.
  - unfold reclock at 2. rewrite processTick_normal_commutes by exact Hmode.
    rewrite (reclock_commuted c m t0 t1 e).
    + rewrite reclock_reclock. unfold processTick.
      now rewrite !bool_decide_eq_false_2 by exact Hmode.
    + now apply ladderState_processTick_normal.
Qed.

Lemma retime_inv ls ls' :
  retime 0 0 ls = retime 0 0 ls' ->
  ls' = retime (ladderStartTime ls') (lastStepTime ls') ls.
Proof.
  destruct ls, ls'. unfold retime. simpl. intros H.
  injection H as -> -> -> -> -> -> -> -> -> -> -> -> -> -> Ht -> -> ->.
  destruct (Qltb _ _); [reflexivity|now rewrite Ht].
Qed.

Lemma sameButClock_inv e e' :
  sameButClock e e' -> exists c m t0 t1, e' = reclock c m t0 t1 e.
Proof.
  destruct e as [b sp p o locks tr eq pk lt cm ck],
           e' as [b' sp' p' o' locks' tr' eq' pk' lt' cm' ck'].
  unfold sameButClock, reclock. simpl. intros H.
  injection H as -> -> -> Ho -> -> -> -> ->.
  exists ck', cm'.
  destruct o as [ls|], o' as [ls'|]; simpl in Ho; try discriminate.
  - apply (inj Some) in Ho. apply retime_inv in Ho.
    exists (ladderStartTime ls'), (lastStepTime ls'). simpl. now rewrite <- Ho.
  - now exists 0%Z, 0%Z.
Qed.

Lemma sameButClock_reclock c m t0 t1 e : sameButClock e (reclock c m t0 t1 e).
Proof. unfold sameButClock. now rewrite reclock_reclock. Qed.

Lemma sameButClock_processTick now now' tick market e e' :
  sameButClock e e' ->
  sameButClock (processTick cfg now tick market e)
               (processTick cfg now' tick market e').
Proof.
  intros H. destruct (sameButClock_inv _ _ H) as (c & m & t0 & t1 & ->).
  unfold sameButClock. symmetry. apply processTick_reclock.
Qed.

Lemma sameButClock_closePosition market e e' :
  sameButClock e e' ->
  sameButClock (closePositionAtExpiry cfg market e)
               (closePositionAtExpiry cfg market e').
Proof.
  intros H. destruct (sameButClock_inv _ _ H) as (c & m & t0 & t1 & ->).
  rewrite closePositionAtExpiry_reclock. apply sameButClock_reclock.
Qed.

Lemma sameButClock_closeLadder market e e' :
  sameButClock e e' ->
  sameButClock (closeLadderAtExpiry cfg market e)
               (closeLadderAtExpiry cfg market e').
Proof.
  intros H. destruct (sameButClock_inv _ _ H) as (c & m & t0 & t1 & ->).
  unfold sameButClock. symmetry. apply closeLadderAtExpiry_reclock.
Qed.

Lemma sameButClock_set_currentMarket v e e' :
  sameButClock e e' ->
  sameButClock (set_currentMarket v e) (set_currentMarket v e').
Proof.
  intros H. destruct (sameButClock_inv _ _ H) as (c & m & t0 & t1 & ->).
  apply (sameButClock_reclock c v t0 t1 (set_currentMarket v e)).
Qed.

Lemma sameButClock_position e e' : sameButClock e e' -> position e' = position e.
Proof.
  intros H. destruct (sameButClock_inv _ _ H) as (c & m & t0 & t1 & ->).
  reflexivity.
Qed.

Lemma sameButClock_ladderSlug e e' :
  sameButClock e e' ->
  ls_marketSlug <$> ladderState e' = ls_marketSlug <$> ladderState e.
Proof.
  intros H. destruct (sameButClock_inv _ _ H) as (c & m & t0 & t1 & ->).
  unfold reclock. simpl. now destruct (ladderState e).
Qed.

Lemma sameButClock_expirePosition mm tick e e' x :
  sameButClock e e' ->
  sameButClock (fst (expirePosition cfg mm tick (e, x)))
               (fst (expirePosition cfg mm tick (e', x))) /\
  snd (expirePosition cfg mm tick (e, x)) = snd (expirePosition cfg mm tick (e', x)).
Proof.
  intros H. unfold expirePosition. rewrite (sameButClock_position _ _ H).
  destruct (position e) as [p|]; [|now split].
  destruct (bool_decide _); [now split|].
  destruct (mm !! _) as [positionMarket|]; [|now split].
  destruct (_ >=? _)%Z; [|now split].
  pose proof (sameButClock_closePosition positionMarket _ _ H) as H1.
  simpl. split; [exact H1|]. now rewrite (sameButClock_position _ _ H1).
Qed.

Lemma sameButClock_expireLadder mm tick e e' x :
  sameButClock e e' ->
  sameButClock (fst (expireLadder cfg mm tick (e, x)))
               (fst (expireLadder cfg mm tick (e', x))) /\
  snd (expireLadder cfg mm tick (e, x)) = snd (expireLadder cfg mm tick (e', x)).
Proof.
  intros H. unfold expireLadder.
  pose proof (sameButClock_ladderSlug _ _ H) as Hslug.
  destruct (ladderState e) as [ls|], (ladderState e') as [ls'|];
    try discriminate; [|now split].
  injection Hslug as ->.
  destruct (bool_decide _); [now split|].
  destruct (mm !! _) as [ladderMarket|]; [|now split].
  destruct (_ >=? _)%Z; [|now split].
  pose proof (sameButClock_closeLadder ladderMarket _ _ H) as H1.
  simpl. split; [exact H1|]. now rewrite (sameButClock_ladderSlug _ _ H1).
Qed.

Lemma sameButClock_runTick now now' mm e e' x tm :
  sameButClock e e' ->
  sameButClock (fst (runTick cfg now mm (e, x) tm))
               (fst (runTick cfg now' mm (e', x) tm)) /\
  snd (runTick cfg now mm (e, x) tm) = snd (runTick cfg now' mm (e', x) tm).
Proof.
  intros H. destruct tm as [tick market]. unfold runTick.
  destruct (sameButClock_expirePosition mm tick e e' x H) as [H1 Hx1].
  destruct (expirePosition cfg mm tick (e, x)) as [e1 x1],
           (expirePosition cfg mm tick (e', x)) as [e1' x1'].
  simpl in H1, Hx1. subst x1'.
  destruct (sameButClock_expireLadder mm tick e1 e1' x1 H1) as [H2 Hx2].
  destruct (expireLadder cfg mm tick (e1, x1)) as [e2 x2],
           (expireLadder cfg mm tick (e1', x1)) as [e2' x2'].
  simpl in H2, Hx2. subst x2'.
  destruct (bool_decide _); [now split|].
  destruct (_ >=? _)%Z.
  - simpl. split; [|reflexivity].
    set (e3 := match position e2 with Some _ => _ | None => e2 end).
    set (e3' := match position e2' with Some _ => _ | None => e2' end).
    assert (H3 : sameButClock e3 e3').
    { unfold e3, e3'. rewrite (sameButClock_position _ _ H2).
      destruct (position e2); [|exact H2].
      destruct (bool_decide _); [now apply sameButClock_closePosition|exact H2]. }
    pose proof (sameButClock_ladderSlug _ _ H3) as Hslug.
    destruct (ladderState e3) as [ls|], (ladderState e3') as [ls'|];
      try discriminate; [|exact H3].
    injection Hslug as ->.
    destruct (bool_decide _); [now apply sameButClock_closeLadder|exact H3].
  - simpl. split; [|reflexivity].
    now apply sameButClock_processTick, sameButClock_set_currentMarket.
Qed.

Lemma sameButClock_ticks now now' mm l : forall e e' x,
  sameButClock e e' ->
  sameButClock (fst (foldl (runTick cfg now mm) (e, x) l))
               (fst (foldl (runTick cfg now' mm) (e', x) l)).
Proof.
  induction l as [|tm l IH]; intros e e' x H; [exact H|].
  simpl. destruct (sameButClock_runTick now now' mm e e' x tm H) as [H1 Hx].
  destruct (runTick cfg now mm (e, x) tm) as [e1 x1],
           (runTick cfg now' mm (e', x) tm) as [e1' x1'].
  simpl in H1, Hx. subst x1'. now apply IH.
Qed.

Lemma sameButClock_closeRemaining mm e e' :
  sameButClock e e' ->
  sameButClock (closeRemaining cfg mm e) (closeRemaining cfg mm e').
Proof.
  intros H. unfold closeRemaining. cbv zeta.
  set (e1 := match position e with Some _ => _ | None => e end).
  set (e1' := match position e' with Some _ => _ | None => e' end).
  assert (H1 : sameButClock e1 e1').
  { unfold e1, e1'. rewrite (sameButClock_position _ _ H).
    destruct (position e); [|exact H].
    destruct (mm !! _); [now apply sameButClock_closePosition|exact H]. }
  pose proof (sameButClock_ladderSlug _ _ H1) as Hslug.
  destruct (ladderState e1) as [ls|], (ladderState e1') as [ls'|];
    try discriminate; [|exact H1].
  injection Hslug as ->.
  destruct (mm !! _); [now apply sameButClock_closeLadder|exact H1].
Qed.

Lemma sameButClock_replay now now' markets e0 e0' :
  sameButClock (replay cfg now markets e0) (replay cfg now' markets e0').
Proof.
  unfold replay.
  pose proof (sameButClock_ticks now now' (marketMapOf markets)
                (sortTicks (allTicksOf markets))
                (resetEngine cfg e0) (resetEngine cfg e0') ∅ eq_refl) as H.
  destruct (foldl _ (resetEngine cfg e0, ∅) _) as [e x],
           (foldl _ (resetEngine cfg e0', ∅) _) as [e' x'].
  now apply sameButClock_closeRemaining.
Qed.

Lemma sameButClock_ledger e e' :
  sameButClock e e' ->
  balance e' = balance e /\ savedProfit e' = savedProfit e /\
  trades e' = trades e /\ equityCurve e' = equityCurve e.
Proof.
  intros H. destruct (sameButClock_inv _ _ H) as (c & m & t0 & t1 & ->).
  now repeat split.
Qed.

(** What [run] returns does not depend on the wall clock, nor on what the
    engine did before: whatever [Date.now()] returns during the two runs and
    whatever state the two engines start in, the same configuration and
    markets give the same result. *)
Theorem run_clock_independent (now now' : nat -> Z) (sqrt : Q -> Q)
    (markets : list HistoricalMarket) (e0 e0' : Engine) :
  fst (run cfg now sqrt markets e0) = fst (run cfg now' sqrt markets e0').
Proof.
  unfold run. cbv zeta. simpl fst.
  destruct (sameButClock_ledger _ _ (sameButClock_replay now now' markets e0 e0'))
    as (Hb & Hs & Ht & Hq).
  unfold calculateMetrics, calculateMaxDrawdown, calculateDrawdownCurve,
    calculateConsecutive.
  now rewrite Hb, Hs, Ht, Hq.
Qed.

End Clock.

(** ** The balance is never overdrawn *)

Section Solvency.

Variable cfg : BacktestConfig.
Variable now : nat -> Z.

Hypothesis startingBalance_nonneg : 0 <= startingBalance cfg.
Hypothesis baseBalance_nonneg : 0 <= baseBalance cfg.
Hypothesis profitTarget_nonneg : 0 <= profitTarget cfg.
Hypothesis entry_positive :
  riskMode cfg <> ladder -> 0 < entryThreshold cfg /\ 0 <= slippage cfg.
Hypothesis percent_bounded : forall step,
  step ∈ ladderSteps cfg -> sizeType (step_buy step) = percent ->
  sizeValue (step_buy step) <= 100.

Lemma balance_checkCompoundLimit_nonneg e :
  0 <= balance e -> 0 <= balance (checkCompoundLimit cfg e).
Proof.
  intros H. unfold checkCompoundLimit.
  destruct (Qleb _ _); [exact H|]. now destruct (Qleb _ _).
Qed.

Lemma balance_recordLadderTrade trade e :
  balance (recordLadderTrade trade e) = balance e.
Proof. unfold recordLadderTrade. now destruct (Qgtb _ _). Qed.

Lemma resolutionPrice_nonneg market side : 0 <= resolutionPrice cfg market side.
Proof.
  unfold resolutionPrice. destruct (outcome market); [|exact profitTarget_nonneg].
  destruct (bool_decide _); [exact profitTarget_nonneg|discriminate].
Qed.

Lemma solvent_executeExit x t r e :
  r = STOP_LOSS \/ 0 <= x ->
  solvent e -> solvent (executeExit cfg x t r e).
Proof.
  intros Hx Hsolvent. pose proof Hsolvent as [Hb Hp]. unfold executeExit.
  destruct (position e) as [p|] eqn:Hpos; [|exact Hsolvent].
  split.
  - apply balance_checkCompoundLimit_nonneg.
    assert (H : 0 <= (if bool_decide (r = STOP_LOSS)
                      then Qmax (x * (1 - slippage cfg)) 0.01 else x)).
    { destruct (bool_decide (r = STOP_LOSS)) eqn:Hr.
      - pose proof (Q.le_max_r (x * (1 - slippage cfg)) 0.01). lra.
      - apply bool_decide_eq_false in Hr. now destruct Hx. }
    destruct (Qgtb _ _); simpl; apply Qmult_le_0_compat; auto.
  - intros q. rewrite position_checkCompoundLimit.
    destruct (Qgtb _ _); discriminate.
Qed.

Lemma solvent_checkEntry tick market e :
  riskMode cfg <> ladder -> position e = None ->
  solvent e -> solvent (checkEntry cfg tick market e).
Proof.
  intros Hmode Hpos Hsolvent. pose proof Hsolvent as [Hb Hp].
  destruct (entry_positive Hmode) as [Ht Hs].
  unfold checkEntry.
  destruct (_ || _); [exact Hsolvent|].
  destruct (Qgtb _ _); [exact Hsolvent|].
  destruct (_ || _) eqn:Hrange; [exact Hsolvent|].
  destruct (Qgeb _ _); [exact Hsolvent|].
  destruct (lastTradeWonSide _ _ _); [exact Hsolvent|].
  apply orb_false_iff in Hrange. destruct Hrange as [Hlow _].
  apply Qltb_ge in Hlow.
  pose proof (entryPrice_positive cfg tick Ht Hs Hlow) as Hprice.
  unfold executeEntry. split; simpl; [discriminate|].
  intros p [= <-]. simpl. apply Qle_shift_div_l; [exact Hprice|]. lra.
Qed.

Lemma solvent_closePosition market e :
  solvent e -> solvent (closePositionAtExpiry cfg market e).
Proof.
  intros H. unfold closePositionAtExpiry.
  destruct (position e) eqn:Hpos; [|exact H].
  apply solvent_executeExit; [|exact H]. right. apply resolutionPrice_nonneg.
Qed.

Lemma balance_executeLadderBuyStep tick ls step e :
  step ∈ ladderSteps cfg ->
  0 <= balance e -> 0 <= balance (executeLadderBuyStep cfg tick ls step e).
Proof.
  intros Hstep Hb. unfold executeLadderBuyStep.
  destruct (bool_decide _); [exact Hb|].
  destruct (bool_decide _); [exact Hb|].
  destruct (Qltb _ _); [exact Hb|]. simpl.
  unfold calculateStepSize.
  destruct (sizeType (step_buy step)) eqn:Htype.
  - pose proof (percent_bounded step Hstep Htype) as Hv.
    assert (H : sizeValue (step_buy step) / 100 <= 1)
      by (apply Qle_shift_div_r; [reflexivity|lra]).
    nra.
  - pose proof (Q.le_min_r (sizeValue (step_buy step)) (balance e)). lra.
Qed.

Lemma balance_executeLadderSellStep tick ls step e :
  0 <= bestBid tick ->
  0 <= balance e -> 0 <= balance (executeLadderSellStep cfg tick ls step e).
Proof.
  intros Hbid Hb. unfold executeLadderSellStep.
  destruct (bool_decide _); [exact Hb|].
  destruct (bool_decide _); [exact Hb|].
  remember (calculateStepSize phaseSell (step_sell step) ls 0 (bestBid tick))
    as sellShares eqn:Hsell.
  clear Hsell.
  destruct (_ || _) eqn:Hsmall; [exact Hb|].
  apply orb_false_iff in Hsmall. destruct Hsmall as [H1 H2].
  apply Qltb_ge in H1. apply Qltb_ge in H2.
  apply balance_checkCompoundLimit_nonneg. simpl.
  rewrite balance_recordLadderTrade. simpl.
  assert (H : 0 <= Qmin sellShares (totalShares ls - totalSharesSold ls))
    by (apply Q.min_glb; lra).
  pose proof (Qmult_le_0_compat _ _ H Hbid). lra.
Qed.

Lemma balance_executeLadderStopLoss tick ls step e :
  0 <= balance e -> 0 <= balance (executeLadderStopLoss cfg now tick ls step e).
Proof.
  intros Hb. unfold executeLadderStopLoss.
  destruct (Qltb _ _); [exact Hb|]. simpl.
  apply balance_checkCompoundLimit_nonneg.
  rewrite balance_recordLadderTrade. simpl.
  pose proof (Q.le_max_l 0 (totalShares ls - totalSharesSold ls)) as H1.
  pose proof (Q.le_max_r (bestBid tick * (1 - slippage cfg)) 0.01) as H2.
  assert (H3 : 0 <= Qmax (bestBid tick * (1 - slippage cfg)) 0.01) by lra.
  pose proof (Qmult_le_0_compat _ _ H1 H3). unfold getOpenLadderShares. lra.
Qed.

Lemma balance_closeLadderAtExpiry market e :
  0 <= balance e -> 0 <= balance (closeLadderAtExpiry cfg market e).
Proof.
  intros Hb. unfold closeLadderAtExpiry.
  destruct (ladderState e) as [ls|]; [|exact Hb].
  destruct (Qltb _ _) eqn:Hsmall; [exact Hb|]. simpl.
  apply balance_checkCompoundLimit_nonneg.
  rewrite balance_recordLadderTrade. simpl.
  apply Qltb_ge in Hsmall.
  assert (H : 0 <= totalShares ls - totalSharesSold ls) by lra.
  pose proof (Qmult_le_0_compat _ _ H (resolutionPrice_nonneg market (ls_side ls))).
  lra.
Qed.

Lemma getActiveStep_elem_of steps ls step ls' :
  getActiveStep steps ls = (Some step, ls') -> step ∈ steps.
Proof.
  intros H.
  pose proof (getActiveStep_traversal_aux steps _ ls eq_refl) as Ht.
  rewrite H in Ht. destruct Ht as (_ & _ & _ & _ & Hstep & _).
  eapply list_elem_of_lookup_2. exact Hstep.
Qed.

Lemma balance_processLadderStateTick tick market e :
  0 <= balance e ->
  0 <= balance (processLadderStateTick cfg now tick market (ladderSteps cfg) e).
Proof.
  intros Hb. unfold processLadderStateTick.
  destruct (ladderState e) as [ls|]; [|exact Hb].
  destruct (ladderStopLossHit _ _ _); [now apply balance_executeLadderStopLoss|].
  destruct (negb _); [exact Hb|].
  destruct (_ && _); [exact Hb|].
  destruct (getActiveStep _ _) as [[nextStep|] ls'] eqn:Hstep.
  - apply getActiveStep_elem_of in Hstep.
    destruct (currentStepPhase ls').
    + destruct (_ && _); [now apply balance_executeLadderBuyStep|exact Hb].
    + destruct (Qgtb (bestBid tick) 0 && _) eqn:Hbid; [|exact Hb].
      apply andb_true_iff in Hbid. destruct Hbid as [Hbid _].
      apply Qgtb_lt in Hbid.
      apply balance_executeLadderSellStep; [lra|exact Hb].
  - destruct (bool_decide _); [|exact Hb]. now destruct (Qltb _ _).
Qed.

Lemma balance_processLadderTick tick market e :
  0 <= balance e -> 0 <= balance (processLadderTick cfg now tick market e).
Proof.
  intros Hb. unfold processLadderTick.
  destruct (bool_decide _); [exact Hb|].
  destruct (ladderState e).
  - destruct (negb _); [exact Hb|]. now apply balance_processLadderStateTick.
  - destruct (Qltb (balance e) 1); [exact Hb|].
    destruct (isLadderMarketLocked _ _); [exact Hb|].
    destruct (_ || _); [exact Hb|].
    destruct (Qgtb _ _); [exact Hb|].
    destruct (_ || _); [exact Hb|].
    destruct (lastTradeWonSide _ _ _); [exact Hb|].
    destruct (find _ _) as [firstEnabledStep|] eqn:Hfind; [|exact Hb].
    destruct (Qltb _ _); [exact Hb|].
    destruct (Qleb _ _); [|exact Hb].
    apply balance_executeLadderBuyStep; [|exact Hb].
    destruct (find_first _ _ _ Hfind) as (i & Hi & _).
    eapply list_elem_of_lookup_2. exact Hi.
Qed.

Lemma solvent_processTick tick market e :
  solvent e -> solvent (processTick cfg now tick market e).
Proof.
  intros Hsolvent. pose proof Hsolvent as [Hb Hp]. unfold processTick.
  destruct (bool_decide (riskMode cfg = ladder)) eqn:Hmode.
  - split; [now apply balance_processLadderTick|].
    now rewrite position_processLadderTick.
  - apply bool_decide_eq_false in Hmode.
    destruct (position e) as [p|] eqn:Hpos.
    + destruct (bool_decide _); [|exact Hsolvent].
      destruct (Qgeb _ _);
        [apply solvent_executeExit; [now right|exact Hsolvent]|].
      unfold checkStopLoss. rewrite Hpos.
      destruct (Qleb _ _); [|exact Hsolvent].
      apply solvent_executeExit; [now left|exact Hsolvent].
    + destruct (Qgeb _ _); [|exact Hsolvent].
      apply solvent_checkEntry; [exact Hmode|exact Hpos|exact Hsolvent].
Qed.

Lemma solvent_closeLadder market e :
  solvent e -> solvent (closeLadderAtExpiry cfg market e).
Proof.
  intros [Hb Hp]. split; [now apply balance_closeLadderAtExpiry|].
  now rewrite position_closeLadderAtExpiry.
Qed.

(** The engine never overdraws: with a starting balance, a base balance and
    a profit target that are not negative, percent buy sizes of at most 100
    and, in normal mode, a positive entry threshold and no negative
    slippage, the balance is never negative and the position never short,
    at any point of the replay and when [run] returns. *)
Theorem run_never_overdrawn (sqrt : Q -> Q) (markets : list HistoricalMarket)
    (e0 : Engine) :
  (forall n, solvent (replayPrefix cfg now markets e0 n)) /\
  0 <= res_finalBalance (fst (run cfg now sqrt markets e0)).
Proof.
  assert (H0 : solvent (resetEngine cfg e0))
    by (split; [exact startingBalance_nonneg|discriminate]).
  split.
  - intros n. apply (prefix_invariant cfg now markets solvent); try exact H0.
    + intros v e He. exact He.
    + intros m e _. apply solvent_closePosition.
    + intros m e _. apply solvent_closeLadder.
    + intros t m e _ _. apply solvent_processTick.
  - simpl. apply (replay_invariant cfg now markets solvent); try exact H0.
    + intros v e He. exact He.
    + intros m e _. apply solvent_closePosition.
    + intros m e _. apply solvent_closeLadder.
    + intros t m e _ _. apply solvent_processTick.
Qed.

End Solvency.

(** An instance: the ladder of [testConfig] on [ladderMarket] buys with the
    whole balance of 100 at 0.60 and sells at 0.70. *)
Lemma run_never_overdrawn_example :
  let r := runBacktest testClock (fun q => q) testConfig [ladderMarket] in
  length (res_trades r) = 1%nat /\ 0 <= res_finalBalance r.
Proof.
  split; [reflexivity|].
  refine (proj2 (run_never_overdrawn testConfig testClock _ _ _ _ _
                   (fun q => q) [ladderMarket] (newEngine testConfig))).
  - discriminate.
  - discriminate.
  - discriminate.
  - intros H. now destruct H.
  - intros step Hstep _. apply list_elem_of_singleton in Hstep. subst step.
    discriminate.
Defined.

(** ** What the configuration validator accepts *)

Section ValidationProperties.

Variable trim : string -> string.
Variable showNumber : number -> string.

Lemma app_nil_iff {A} (l k : list A) : l ++ k = [] <-> l = [] /\ k = [].
Proof. split; [apply app_eq_nil|now intros [-> ->]]. Qed.

Lemma outside_range_false x lo hi :
  Qltb x lo || Qgtb x hi = false <-> lo <= x <= hi.
Proof.
  rewrite orb_false_iff, Qltb_ge, Qgtb_le. tauto.
Qed.

Lemma validateStepSide_nil stepPrefix side c :
  validateStepSide stepPrefix side c = [] <-> validSide c.
Proof.
  unfold validateStepSide, validSide. rewrite !app_nil_iff.
  destruct (Qltb _ _ || Qgtb _ _) eqn:Hrange.
  - split; [intros [H _]; discriminate|].
    intros [H _]. apply outside_range_false in H. congruence.
  - apply outside_range_false in Hrange.
    destruct (Qleb (sizeValue c) 0) eqn:Hsize.
    + apply Qleb_le in Hsize. split; [intros (_ & H & _); discriminate|].
      intros (_ & H & _). lra.
    + apply Qleb_gt in Hsize.
      destruct (sizeType c) eqn:Htype; simpl.
      * destruct (Qgtb (sizeValue c) 100) eqn:Hpercent.
        -- apply Qgtb_lt in Hpercent.
           split; [intros (_ & _ & H); discriminate|].
           intros (_ & _ & H). specialize (H eq_refl). lra.
        -- apply Qgtb_le in Hpercent. tauto.
      * split; [|tauto]. intros _. repeat split; try tauto. discriminate.
Qed.

Lemma validateLadderStep_nil i step stepIds :
  fst (validateLadderStep trim i step stepIds) = [] <->
  validStep trim step /\ step_id step ∉ stepIds.
Proof.
  unfold validateLadderStep, validStep.
  destruct (bool_decide (step_id step = EmptyString)
            || bool_decide (trim (step_id step) = EmptyString)) eqn:Hid.
  { simpl. split; [discriminate|]. intros [(H1 & H2 & _) _].
    apply orb_true_iff in Hid.
    destruct Hid as [Hid|Hid]; apply bool_decide_eq_true in Hid; contradiction. }
  apply orb_false_iff in Hid. destruct Hid as [Hid1 Hid2].
  apply bool_decide_eq_false in Hid1. apply bool_decide_eq_false in Hid2.
  destruct (bool_decide (step_id step ∈ stepIds)) eqn:Hdup.
  { simpl. split; [discriminate|]. apply bool_decide_eq_true in Hdup. tauto. }
  apply bool_decide_eq_false in Hdup. simpl.
  rewrite !app_nil_iff, !validateStepSide_nil.
  destruct (Qltb _ _ || Qgtb _ _) eqn:Hrange.
  { split; [intros [H _]; discriminate|].
    intros [(_ & _ & H & _) _]. apply outside_range_false in H. congruence. }
  apply outside_range_false in Hrange.
  destruct (Qgeb _ _) eqn:Hstop.
  - apply Qgeb_le in Hstop. split; [intros [H _]; discriminate|].
    intros [(_ & _ & _ & H & _) _]. lra.
  - apply Qgeb_lt in Hstop. tauto.
Qed.

Lemma validateLadderStep_ids i step stepIds :
  fst (validateLadderStep trim i step stepIds) = [] ->
  snd (validateLadderStep trim i step stepIds) = stepIds ∪ {[ step_id step ]}.
Proof.
  unfold validateLadderStep.
  destruct (_ || _); [discriminate|].
  destruct (bool_decide _); [discriminate|]. reflexivity.
Qed.

Lemma validateStepsFrom_nil steps : forall i stepIds errors,
  validateStepsFrom trim i stepIds errors steps = [] <->
  errors = [] /\ Forall (validStep trim) steps /\
  NoDup (map step_id steps) /\
  (forall step, step ∈ steps -> step_id step ∉ stepIds).
Proof.
  induction steps as [|step rest IH]; intros i stepIds errors.
  - simpl. split.
    + intros ->. repeat split; [constructor|constructor|]. intros s Hs.
      now apply elem_of_nil in Hs.
    + now intros [-> _].
  - simpl.
    pose proof (validateLadderStep_nil i step stepIds) as Hstep.
    pose proof (validateLadderStep_ids i step stepIds) as Hids.
    destruct (validateLadderStep trim i step stepIds) as [stepErrors stepIds'].
    simpl in Hstep, Hids. rewrite IH, app_nil_iff.
    rewrite Forall_cons, NoDup_cons. split.
    + intros ((-> & Hnil) & Hvalid & Hnodup & Hfresh).
      destruct (proj1 Hstep Hnil) as [Hv Hnew]. rewrite (Hids Hnil) in Hfresh.
      split; [reflexivity|]. split; [now split|]. split; [split; [|exact Hnodup]|].
      * intros Hin. apply list_elem_of_fmap in Hin.
        destruct Hin as (s & Hs & Hin). apply (Hfresh s Hin).
        apply elem_of_union_r, elem_of_singleton. now symmetry.
      * intros s Hs. apply elem_of_cons in Hs. destruct Hs as [->|Hs];
          [exact Hnew|]. intros Hin. apply (Hfresh s Hs).
        now apply elem_of_union_l.
    + intros (-> & [Hv Hvalid] & [Hnotin Hnodup] & Hfresh).
      assert (Hnil : stepErrors = []).
      { apply Hstep. split; [exact Hv|]. apply Hfresh. now left. }
      rewrite (Hids Hnil).
      split; [now split|]. split; [exact Hvalid|]. split; [exact Hnodup|].
      intros s Hs Hin. apply elem_of_union in Hin. destruct Hin as [Hin|Hin].
      * apply (Hfresh s); [now right|exact Hin].
      * apply elem_of_singleton in Hin. apply Hnotin.
        apply list_elem_of_fmap. now exists s.
Qed.

Lemma validateLadderSteps_nil (steps : list LadderStep) :
  validateLadderSteps trim steps = [] <->
  steps <> [] /\ (exists step, step ∈ steps /\ step_enabled step = true) /\
  NoDup (map step_id steps) /\ Forall (validStep trim) steps.
Proof.
  unfold validateLadderSteps.
  destruct steps as [|step rest]; [simpl; split; [discriminate|tauto]|].
  rewrite bool_decide_eq_false_2 by discriminate.
  rewrite validateStepsFrom_nil.
  destruct (find step_enabled (step :: rest)) as [first|] eqn:Hfind.
  - destruct (find_first _ _ _ Hfind) as (i & Hi & Hen & _). split.
    + intros (_ & Hvalid & Hnodup & _).
      split; [discriminate|]. split; [|now split].
      exists first. split; [|exact Hen].
      eapply list_elem_of_lookup_2. exact Hi.
    + intros (_ & _ & Hnodup & Hvalid).
      split; [reflexivity|]. split; [exact Hvalid|]. split; [exact Hnodup|].
      intros s _. apply not_elem_of_empty.
  - split; [intros [H _]; discriminate|].
    intros (_ & (s & Hs & Hen) & _). exfalso.
    apply list_elem_of_lookup in Hs. destruct Hs as [j Hj].
    pose proof (find_none_lookup _ _ Hfind j s Hj). congruence.
Qed.

(** [validateLadderSteps] reports no error exactly for the step lists that
    are not empty, have an enabled step, have pairwise different ids, and
    whose steps are all valid: an id that is not blank, a stop-loss between
    0.01 and 0.99 and below the buy trigger, triggers between 0.01 and 0.99,
    positive sizes, percent sizes of at most 100. *)
Theorem validateLadderSteps_accepts (steps : list LadderStep) :
  validateLadderSteps trim steps = [] <->
  steps <> [] /\ (exists step, step ∈ steps /\ step_enabled step = true) /\
  NoDup (map step_id steps) /\ Forall (validStep trim) steps.
Proof. apply validateLadderSteps_nil. Qed.

Lemma singleton_if_nil {A} (b : bool) (x : A) :
  (if b then [x] else []) = [] <-> b = false.
Proof. destruct b; split; congruence. Qed.

Lemma outside_number_false (x : number) (lo hi : Q) :
  number_ltb x (Number lo) || number_gtb x (Number hi) = false
  <-> inRangeOrNaN lo hi x.
Proof.
  destruct x as [| |q|]; simpl; try (split; [discriminate|tauto]);
    [tauto|].
  unfold number_gtb. simpl. apply outside_range_false.
Qed.

Lemma number_geb_false (x y : number) :
  number_geb x y = false <-> belowOrNaN x y.
Proof.
  unfold number_geb.
  destruct x as [| |a|], y as [| |b|]; simpl;
    try tauto; try (split; [discriminate|discriminate]);
    try (split; congruence).
  now rewrite Qleb_gt, Qltb_lt.
Qed.

Lemma number_leb_zero_false (x : number) :
  number_leb x (Number 0) = false <-> positiveOrNaN x.
Proof.
  destruct x as [| |q|]; simpl; try tauto;
    try (split; [discriminate|tauto]).
  apply Qleb_gt.
Qed.

Lemma none_iff_nil (l : list string) (s : string) :
  (if (0 <? length l)%nat then Some s else None) = None <-> l = [].
Proof. destruct l; simpl; split; congruence. Qed.

(** What [validateBacktestConfig] lets pass, a [NaN] included. *)
Lemma validateBacktestConfig_passes (config : BuiltConfig) :
  validateBacktestConfig trim showNumber config = None <->
  inRangeOrNaN 0.01 0.99 (built_entryThreshold config) /\
  inRangeOrNaN 0.01 0.99 (built_maxEntryPrice config) /\
  inRangeOrNaN 0 0.50 (built_maxSpread config) /\
  inRangeOrNaN 0 0.10 (built_slippage config) /\
  positiveOrNaN (built_startingBalance config) /\
  belowOrNaN (built_entryThreshold config) (built_maxEntryPrice config) /\
  (if bool_decide (built_riskMode config = ladder)
   then validateLadderSteps trim (built_ladderSteps config) = []
   else inRangeOrNaN 0.01 0.99 (built_stopLoss config) /\
        inRangeOrNaN 0.01 0.99 (built_profitTarget config) /\
        belowOrNaN (built_stopLoss config) (built_entryThreshold config) /\
        belowOrNaN (built_maxEntryPrice config) (built_profitTarget config)) /\
  inRangeOrNaN 30000 900000 (built_timeWindowMs config).
Proof.
  unfold validateBacktestConfig. rewrite none_iff_nil.
  unfold backtestConfigErrors.
  rewrite !app_nil_iff, !singleton_if_nil, !outside_number_false.
  rewrite number_leb_zero_false, number_geb_false.
  destruct (bool_decide (built_riskMode config = ladder)); [tauto|].
  rewrite !app_nil_iff, !singleton_if_nil, !outside_number_false,
    !number_geb_false.
  tauto.
Qed.

Lemma validateBacktestConfig_None (config : BacktestConfig) :
  validateBacktestConfig trim showNumber (builtOf config) = None <->
  0.01 <= entryThreshold config <= 0.99 /\
  0.01 <= maxEntryPrice config <= 0.99 /\
  0 <= maxSpread config <= 0.50 /\
  0 <= slippage config <= 0.10 /\
  0 < startingBalance config /\
  entryThreshold config < maxEntryPrice config /\
  (if bool_decide (riskMode config = ladder)
   then validateLadderSteps trim (ladderSteps config) = []
   else 0.01 <= stopLoss config <= 0.99 /\
        0.01 <= profitTarget config <= 0.99 /\
        stopLoss config < entryThreshold config /\
        maxEntryPrice config < profitTarget config) /\
  (30000 <= timeWindowMs config <= 900000)%Z.
Proof.
  rewrite validateBacktestConfig_passes. simpl.
  assert (Htime : 30000 <= inject_Z (timeWindowMs config) <= 900000
                  <-> (30000 <= timeWindowMs config <= 900000)%Z).
  { change 30000 with (inject_Z 30000). change 900000 with (inject_Z 900000).
    rewrite <- !Zle_Qle. tauto. }
  rewrite Htime.
  destruct (bool_decide (riskMode config = ladder)); rewrite !Qltb_lt; tauto.
Qed.

(** A [NaN] for the entry threshold passes every comparison it is in. *)
Lemma validateBacktestConfig_NaN (config : BuiltConfig) :
  validateBacktestConfig trim showNumber config = None ->
  validateBacktestConfig trim showNumber (with_entryThreshold NaN config)
  = None.
Proof.
  rewrite !validateBacktestConfig_passes. simpl.
  assert (H : forall x, belowOrNaN x NaN) by now intros [].
  pose proof (H (built_stopLoss config)).
  destruct (bool_decide (built_riskMode config = ladder)); tauto.
Qed.

(** [validateBacktestConfig] throws nothing exactly when every comparison
    it makes fails, which a [NaN] makes them do: each of the entry
    threshold and the maximum entry price is [NaN] or lies between 0.01 and
    0.99, and the threshold is below the maximum unless one of them is
    [NaN]; the spread limit is [NaN] or lies between 0 and 0.50, the
    slippage between 0 and 0.10, the time window between 30 seconds and 15
    minutes; the starting balance is [NaN] or positive; and, in ladder mode,
    the ladder steps are accepted, or, in any other mode, stop-loss and
    profit target are [NaN] or lie between 0.01 and 0.99, with
    stop-loss < entry threshold and maximum entry price < profit target
    unless a [NaN] is compared.  For a configuration all of whose numbers
    are numbers, these are the ranges and the order alone. *)
Theorem validateBacktestConfig_accepts :
  (forall config : BuiltConfig,
     validateBacktestConfig trim showNumber config = None <->
     inRangeOrNaN 0.01 0.99 (built_entryThreshold config) /\
     inRangeOrNaN 0.01 0.99 (built_maxEntryPrice config) /\
     inRangeOrNaN 0 0.50 (built_maxSpread config) /\
     inRangeOrNaN 0 0.10 (built_slippage config) /\
     positiveOrNaN (built_startingBalance config) /\
     belowOrNaN (built_entryThreshold config) (built_maxEntryPrice config) /\
     (if bool_decide (built_riskMode config = ladder)
      then validateLadderSteps trim (built_ladderSteps config) = []
      else inRangeOrNaN 0.01 0.99 (built_stopLoss config) /\
           inRangeOrNaN 0.01 0.99 (built_profitTarget config) /\
           belowOrNaN (built_stopLoss config) (built_entryThreshold config) /\
           belowOrNaN (built_maxEntryPrice config)
             (built_profitTarget config)) /\
     inRangeOrNaN 30000 900000 (built_timeWindowMs config)) /\
  (forall config : BacktestConfig,
     validateBacktestConfig trim showNumber (builtOf config) = None <->
     0.01 <= entryThreshold config <= 0.99 /\
     0.01 <= maxEntryPrice config <= 0.99 /\
     0 <= maxSpread config <= 0.50 /\
     0 <= slippage config <= 0.10 /\
     0 < startingBalance config /\
     entryThreshold config < maxEntryPrice config /\
     (if bool_decide (riskMode config = ladder)
      then validateLadderSteps trim (ladderSteps config) = []
      else 0.01 <= stopLoss config <= 0.99 /\
           0.01 <= profitTarget config <= 0.99 /\
           stopLoss config < entryThreshold config /\
           maxEntryPrice config < profitTarget config) /\
     (30000 <= timeWindowMs config <= 900000)%Z).
Proof.
  split; intros config;
    [apply validateBacktestConfig_passes|apply validateBacktestConfig_None].
Qed.

End ValidationProperties.

(** ** The validator of the configuration file *)

Section ModeValidationProperties.

Variable trim : string -> string.
Variable showNumber : number -> string.

Lemma pushIf_nil cond p m : pushIf cond p m = [] <-> cond = false.
Proof. unfold pushIf. destruct cond; split; congruence. Qed.

Lemma validateRange_false (val lo hi : Q) :
  negb (validateRange (Number val) lo hi) = false <-> lo <= val <= hi.
Proof.
  unfold validateRange, number_geb. simpl.
  rewrite negb_false_iff, andb_true_iff, !Qleb_le. tauto.
Qed.

(** [validateRange] accepts no [NaN] and no infinity. *)
Lemma validateRange_true (val : number) (lo hi : Q) :
  validateRange val lo hi = true <-> exists q, val = Number q /\ lo <= q <= hi.
Proof.
  unfold validateRange, number_geb. destruct val as [| |q|]; simpl.
  - split; [discriminate|]. now intros (q & Hq & _).
  - split; [discriminate|]. now intros (q & Hq & _).
  - rewrite andb_true_iff, !Qleb_le. split.
    + intros H. now exists q.
    + intros (q' & [= <-] & H). exact H.
  - split; [discriminate|]. now intros (q & Hq & _).
Qed.

Lemma validateModeConfig_nil modeName mode :
  validateModeConfig modeName mode = [] <->
  0.01 <= mode_entryThreshold mode <= 0.99 /\
  0.01 <= mode_maxEntryPrice mode <= 0.99 /\
  0.01 <= mode_stopLoss mode <= 0.99 /\
  0.01 <= mode_profitTarget mode <= 0.99 /\
  0 <= mode_maxSpread mode <= 0.5 /\
  (0 < mode_timeWindowMs mode)%Z /\
  mode_stopLoss mode < mode_entryThreshold mode /\
  mode_entryThreshold mode <= mode_maxEntryPrice mode /\
  mode_maxEntryPrice mode < mode_profitTarget mode.
Proof.
  unfold validateModeConfig.
  rewrite !app_nil_iff, !pushIf_nil, !validateRange_false, !Qgeb_lt, Qgtb_le,
    Z.leb_gt.
  tauto.
Qed.

Lemma validateModeStepSide_nil stepPrefix side c :
  validateModeStepSide stepPrefix side c = [] <-> validSide c.
Proof.
  unfold validateModeStepSide, validSide.
  rewrite !app_nil_iff, !pushIf_nil, validateRange_false, Qleb_gt.
  destruct (sizeType c); simpl.
  - rewrite Qgtb_le. split; [|tauto].
    intros (H1 & H2 & H3). repeat split; tauto.
  - split; [|tauto]. intros (H1 & H2 & _). repeat split; try tauto. discriminate.
Qed.

Lemma validateModeStep_nil prefix i step stepIds :
  fst (validateModeStep trim prefix i step stepIds) = [] <->
  validStep trim step /\ step_id step ∉ stepIds.
Proof.
  unfold validateModeStep, validStep.
  destruct (bool_decide (step_id step = EmptyString)
            || bool_decide (trim (step_id step) = EmptyString)) eqn:Hid.
  { simpl. split; [discriminate|]. intros [(H1 & H2 & _) _].
    apply orb_true_iff in Hid.
    destruct Hid as [Hid|Hid]; apply bool_decide_eq_true in Hid; contradiction. }
  apply orb_false_iff in Hid. destruct Hid as [Hid1 Hid2].
  apply bool_decide_eq_false in Hid1. apply bool_decide_eq_false in Hid2.
  destruct (bool_decide (step_id step ∈ stepIds)) eqn:Hdup.
  { simpl. split; [discriminate|]. apply bool_decide_eq_true in Hdup. tauto. }
  apply bool_decide_eq_false in Hdup. simpl.
  rewrite !app_nil_iff, !validateModeStepSide_nil.
  destruct (negb (validateRange _ _ _)) eqn:Hrange.
  { split; [intros [H _]; discriminate|].
    intros [(_ & _ & H & _) _]. apply validateRange_false in H. congruence. }
  apply validateRange_false in Hrange.
  destruct (Qgeb _ _) eqn:Hstop.
  - apply Qgeb_le in Hstop. split; [intros [H _]; discriminate|].
    intros [(_ & _ & _ & H & _) _]. lra.
  - apply Qgeb_lt in Hstop. tauto.
Qed.

Lemma validateModeStep_ids prefix i step stepIds :
  fst (validateModeStep trim prefix i step stepIds) = [] ->
  snd (validateModeStep trim prefix i step stepIds) = stepIds ∪ {[ step_id step ]}.
Proof.
  unfold validateModeStep.
  destruct (_ || _); [discriminate|].
  destruct (bool_decide _); [discriminate|]. reflexivity.
Qed.

Lemma validateModeStepsFrom_nil prefix steps : forall i stepIds errors,
  validateModeStepsFrom trim prefix i stepIds errors steps = [] <->
  errors = [] /\ Forall (validStep trim) steps /\
  NoDup (map step_id steps) /\
  (forall step, step ∈ steps -> step_id step ∉ stepIds).
Proof.
  induction steps as [|step rest IH]; intros i stepIds errors.
  - simpl. split.
    + intros ->. repeat split; [constructor|constructor|]. intros s Hs.
      now apply elem_of_nil in Hs.
    + now intros [-> _].
  - simpl.
    pose proof (validateModeStep_nil prefix i step stepIds) as Hstep.
    pose proof (validateModeStep_ids prefix i step stepIds) as Hids.
    destruct (validateModeStep trim prefix i step stepIds) as [stepErrors stepIds'].
    simpl in Hstep, Hids. rewrite IH, app_nil_iff.
    rewrite Forall_cons, NoDup_cons. split.
    + intros ((-> & Hnil) & Hvalid & Hnodup & Hfresh).
      destruct (proj1 Hstep Hnil) as [Hv Hnew]. rewrite (Hids Hnil) in Hfresh.
      split; [reflexivity|]. split; [now split|]. split; [split; [|exact Hnodup]|].
      * intros Hin. apply list_elem_of_fmap in Hin.
        destruct Hin as (s & Hs & Hin). apply (Hfresh s Hin).
        apply elem_of_union_r, elem_of_singleton. now symmetry.
      * intros s Hs. apply elem_of_cons in Hs. destruct Hs as [->|Hs];
          [exact Hnew|]. intros Hin. apply (Hfresh s Hs).
        now apply elem_of_union_l.
    + intros (-> & [Hv Hvalid] & [Hnotin Hnodup] & Hfresh).
      assert (Hnil : stepErrors = []).
      { apply Hstep. split; [exact Hv|]. apply Hfresh. now left. }
      rewrite (Hids Hnil).
      split; [now split|]. split; [exact Hvalid|]. split; [exact Hnodup|].
      intros s Hs Hin. apply elem_of_union in Hin. destruct Hin as [Hin|Hin].
      * apply (Hfresh s); [now right|exact Hin].
      * apply elem_of_singleton in Hin. apply Hnotin.
        apply list_elem_of_fmap. now exists s.
Qed.

Lemma validateLadderModeConfig_nil modeName mode :
  validateLadderModeConfig trim modeName mode = [] <->
  0.01 <= ladder_entryThreshold mode <= 0.99 /\
  0.01 <= ladder_maxEntryPrice mode <= 0.99 /\
  0 <= ladder_maxSpread mode <= 0.5 /\
  (0 < ladder_timeWindowMs mode)%Z /\
  ladder_entryThreshold mode <= ladder_maxEntryPrice mode /\
  ladder_steps mode <> [] /\
  (exists step, step ∈ ladder_steps mode /\ step_enabled step = true) /\
  NoDup (map step_id (ladder_steps mode)) /\
  Forall (validStep trim) (ladder_steps mode).
Proof.
  unfold validateLadderModeConfig.
  destruct (ladder_steps mode) as [|step rest] eqn:Hsteps.
  { simpl. rewrite app_nil_iff. split; [intros [_ H]; discriminate|tauto]. }
  rewrite bool_decide_eq_false_2 by discriminate.
  rewrite validateModeStepsFrom_nil, !app_nil_iff, !pushIf_nil,
    !validateRange_false, Qgtb_le, Z.leb_gt.
  destruct (find step_enabled (step :: rest)) as [first|] eqn:Hfind.
  - destruct (find_first _ _ _ Hfind) as (i & Hi & Hen & _). split.
    + intros (((H1 & H2 & H3 & H4 & H5) & _) & Hvalid & Hnodup & _).
      repeat split; try tauto; [discriminate|].
      exists first. split; [|exact Hen].
      eapply list_elem_of_lookup_2. exact Hi.
    + intros (H1 & H2 & H3 & H4 & H5 & _ & _ & Hnodup & Hvalid).
      repeat split; try tauto. intros s _. apply not_elem_of_empty.
  - split; [intros [[_ H] _]; discriminate|].
    intros (_ & _ & _ & _ & _ & _ & (s & Hs & Hen) & _). exfalso.
    apply list_elem_of_lookup in Hs. destruct Hs as [j Hj].
    pose proof (find_none_lookup _ _ Hfind j s Hj). congruence.
Qed.

(** The validators of the configuration file report no error for a mode
    exactly when, for a normal mode: entry threshold, maximum entry price,
    stop-loss and profit target lie between 0.01 and 0.99 with
    stop-loss < entry threshold <= maximum entry price < profit target, the
    spread limit lies between 0 and 0.5 and the time window is positive; for
    a ladder mode: the same of entry threshold, maximum entry price, spread
    limit and time window, and the steps are not empty, have an enabled
    step, pairwise different ids, and are all valid. *)
Theorem mode_validators_accept (modeName : string) :
  (forall mode,
     validateModeConfig modeName mode = [] <->
     0.01 <= mode_entryThreshold mode <= 0.99 /\
     0.01 <= mode_maxEntryPrice mode <= 0.99 /\
     0.01 <= mode_stopLoss mode <= 0.99 /\
     0.01 <= mode_profitTarget mode <= 0.99 /\
     0 <= mode_maxSpread mode <= 0.5 /\
     (0 < mode_timeWindowMs mode)%Z /\
     mode_stopLoss mode < mode_entryThreshold mode /\
     mode_entryThreshold mode <= mode_maxEntryPrice mode /\
     mode_maxEntryPrice mode < mode_profitTarget mode) /\
  (forall mode,
     validateLadderModeConfig trim modeName mode = [] <->
     0.01 <= ladder_entryThreshold mode <= 0.99 /\
     0.01 <= ladder_maxEntryPrice mode <= 0.99 /\
     0 <= ladder_maxSpread mode <= 0.5 /\
     (0 < ladder_timeWindowMs mode)%Z /\
     ladder_entryThreshold mode <= ladder_maxEntryPrice mode /\
     ladder_steps mode <> [] /\
     (exists step, step ∈ ladder_steps mode /\ step_enabled step = true) /\
     NoDup (map step_id (ladder_steps mode)) /\
     Forall (validStep trim) (ladder_steps mode)).
Proof.
  split; intros mode;
    [apply validateModeConfig_nil|apply validateLadderModeConfig_nil].
Qed.

(** On configurations all of whose numbers are numbers the backtest
    validator is the stricter one: the mode of such a configuration that
    [validateBacktestConfig] accepts is accepted by the validator of the
    configuration file, as a ladder mode in ladder mode and as a normal mode
    otherwise.  With a [NaN] it is not: an accepted configuration stays
    accepted by [validateBacktestConfig] when its entry threshold is
    replaced by [NaN], which [validateRange] accepts for no range. *)
Theorem backtest_validator_stricter (modeName : string) :
  (forall config : BacktestConfig,
     validateBacktestConfig trim showNumber (builtOf config) = None ->
     if bool_decide (riskMode config = ladder)
     then validateLadderModeConfig trim modeName (ladderModeOf config) = []
     else validateModeConfig modeName (modeOf config) = []) /\
  (forall config : BuiltConfig,
     validateBacktestConfig trim showNumber config = None ->
     validateBacktestConfig trim showNumber (with_entryThreshold NaN config)
     = None) /\
  (forall lo hi, validateRange NaN lo hi = false).
Proof.
  split; [|split; [apply validateBacktestConfig_NaN|reflexivity]].
  intros config H. apply validateBacktestConfig_None in H.
  destruct H as (H1 & H2 & H3 & H4 & H5 & H6 & Hmode & H7).
  destruct (bool_decide (riskMode config = ladder)).
  - apply (validateLadderSteps_nil trim) in Hmode.
    apply validateLadderModeConfig_nil. simpl.
    repeat split; try tauto; try lra; lia.
  - apply validateModeConfig_nil. simpl.
    repeat split; try tauto; try lra; lia.
Qed.

End ModeValidationProperties.

(** An instance: the ladder configuration of the tests. *)
Lemma backtest_validator_stricter_example :
  validateBacktestConfig (fun s => s) (fun _ => EmptyString)
    (builtOf testConfig) = None /\
  validateLadderModeConfig (fun s => s) "ladder" (ladderModeOf testConfig) = [].
Proof.
  assert (H : validateBacktestConfig (fun s => s) (fun _ => EmptyString)
                (builtOf testConfig) = None) by reflexivity.
  split; [exact H|].
  exact (proj1 (backtest_validator_stricter (fun s => s)
                  (fun _ => EmptyString) "ladder") testConfig H).
Defined.

(** ** Trades in the order of time (normal mode) *)

Section Chronology.

Variable cfg : BacktestConfig.
Variable now : nat -> Z.
Variable markets : list HistoricalMarket.

Hypothesis normal_mode : riskMode cfg <> ladder.
Hypothesis unique_slugs : NoDup (map market_slug markets).

Lemma unique_slug m m' :
  m ∈ markets -> m' ∈ markets -> market_slug m = market_slug m' -> m = m'.
Proof.
  clear normal_mode. revert unique_slugs.
  induction markets as [|x l IH]; intros Hnodup Hm Hm' Hslug.
  - now apply elem_of_nil in Hm.
  - simpl in Hnodup. apply NoDup_cons in Hnodup. destruct Hnodup as [Hx Hl].
    apply elem_of_cons in Hm. apply elem_of_cons in Hm'.
    destruct Hm as [->|Hm], Hm' as [->|Hm']; [reflexivity| | |now apply IH].
    + exfalso. apply Hx. rewrite Hslug. now apply list_elem_of_fmap_2.
    + exfalso. apply Hx. rewrite <- Hslug. now apply list_elem_of_fmap_2.
Qed.

Lemma chronological_snoc l t :
  chronological l ->
  (trade_entryTimestamp t <= trade_exitTimestamp t)%Z ->
  (forall a, last l = Some a ->
     (trade_exitTimestamp a <= trade_entryTimestamp t)%Z) ->
  chronological (l ++ [t]).
Proof.
  intros [Hall Hchain] Ht Hlast. split.
  - apply Forall_app. split; [exact Hall|now apply Forall_singleton].
  - intros i a b Ha Hb.
    apply lookup_snoc_Some in Hb. destruct Hb as [[Hlt Hb]|[Hi <-]].
    + rewrite lookup_app_l in Ha by lia. now apply (Hchain i).
    + rewrite lookup_app_l in Ha by lia. apply Hlast.
      rewrite last_lookup. rewrite <- Hi. exact Ha.
Qed.

Lemma onTime_later T T' e : (T <= T')%Z -> onTime markets T e -> onTime markets T' e.
Proof.
  intros Hle (Hl & Hc & Hlast & Hp). split; [exact Hl|]. split; [exact Hc|].
  split; [intros t Ht; specialize (Hlast t Ht); lia|].
  intros p Hpos. destruct (Hp p Hpos) as (H1 & H2 & H3).
  split; [lia|]. now split.
Qed.

(** Closing the position at a time that is not before its entry. *)
Lemma onTime_executeExit T x ts r e p :
  position e = Some p -> (pos_entryTimestamp p <= ts)%Z ->
  onTime markets T e -> onTime markets ts (executeExit cfg x ts r e).
Proof.
  intros Hpos Hts (Hl & Hc & Hlast & Hp).
  destruct (Hp p Hpos) as (H1 & H2 & H3).
  destruct (executeExit_then_sweep cfg e p x ts r Hpos)
    as (t & e1 & Heq & -> & Htrades & _).
  split; [now rewrite ladderState_executeExit|].
  rewrite Heq, trades_checkCompoundLimit, Htrades, <- Heq.
  split; [|split].
  - apply chronological_snoc; [exact Hc|exact Hts|exact H2].
  - intros t. rewrite last_snoc. intros [= <-]. simpl. lia.
  - intros q. rewrite position_executeExit. discriminate.
Qed.

Lemma onTime_checkEntry T tick market e :
  market ∈ markets -> position e = None -> (T <= tick_timestamp tick)%Z ->
  onTime markets T e ->
  onTime markets (tick_timestamp tick) (checkEntry cfg tick market e).
Proof.
  intros Hm Hpos HT Hon.
  destruct (checkEntry_cases cfg tick market e) as [->|(-> & Hfilter & _)];
    [now apply (onTime_later T)|].
  destruct Hon as (Hl & Hc & Hlast & Hp).
  destruct Hfilter as (Htime & _).
  split; [exact Hl|]. split; [exact Hc|].
  split; [intros t Ht; specialize (Hlast t Ht); simpl in *; lia|].
  intros p [= <-]. simpl.
  split; [lia|]. split; [intros t Ht; specialize (Hlast t Ht); simpl in *; lia|].
  exists market. split; [exact Hm|]. split; [reflexivity|lia].
Qed.

Lemma onTime_processTick T tick market e :
  market ∈ markets -> (T <= tick_timestamp tick)%Z ->
  onTime markets T e ->
  onTime markets (tick_timestamp tick) (processTick cfg now tick market e).
Proof.
  intros Hm HT Hon. unfold processTick.
  rewrite bool_decide_eq_false_2 by exact normal_mode.
  destruct (position e) as [p|] eqn:Hpos.
  - assert (Hentry : (pos_entryTimestamp p <= tick_timestamp tick)%Z).
    { destruct Hon as (_ & _ & _ & Hp). destruct (Hp p Hpos) as [H _]. lia. }
    destruct (bool_decide _); [|now apply (onTime_later T)].
    destruct (Qgeb _ _); [now apply (onTime_executeExit T _ _ _ _ p)|].
    unfold checkStopLoss. rewrite Hpos.
    destruct (Qleb _ _);
      [now apply (onTime_executeExit T _ _ _ _ p)|now apply (onTime_later T)].
  - destruct (Qgeb _ _); [|now apply (onTime_later T)].
    now apply (onTime_checkEntry T).
Qed.

(** Closing the position when its market has ended. *)
Lemma onTime_closePosition T T' m e :
  m ∈ markets -> (pos_marketSlug <$> position e = Some (market_slug m)) ->
  (market_endDate m <= T')%Z -> (T <= T')%Z ->
  onTime markets T e -> onTime markets T' (closePositionAtExpiry cfg m e).
Proof.
  intros Hm Hslug Hend HT Hon. unfold closePositionAtExpiry.
  destruct (position e) as [p|] eqn:Hpos; [|discriminate].
  injection Hslug as Hslug.
  apply (onTime_later (market_endDate m)); [exact Hend|].
  apply (onTime_executeExit T _ _ _ _ p); [exact Hpos| |exact Hon].
  destruct Hon as (_ & _ & _ & Hp).
  destruct (Hp p Hpos) as (_ & _ & m' & Hm' & Hslug' & Hlt).
  rewrite (unique_slug m m' Hm Hm') by congruence. lia.
Qed.

Lemma onTime_ladderState T e : onTime markets T e -> ladderState e = None.
Proof. now intros [H _]. Qed.

Lemma onTime_runTick T st tick market :
  market ∈ markets -> (T <= tick_timestamp tick)%Z ->
  onTime markets T (fst st) ->
  onTime markets (tick_timestamp tick)
    (fst (runTick cfg now (marketMapOf markets) st (tick, market))).
Proof.
  intros Hm HT Hon. destruct st as [e expired]. simpl in Hon. unfold runTick.
  (* the market of the open position has ended *)
  assert (H1 : onTime markets (tick_timestamp tick)
                 (fst (expirePosition cfg (marketMapOf markets) tick (e, expired)))).
  { unfold expirePosition.
    destruct (position e) as [p|] eqn:Hpos; [|now apply (onTime_later T)].
    destruct (bool_decide _); [now apply (onTime_later T)|].
    destruct (marketMapOf markets !! pos_marketSlug p) as [m|] eqn:Hlook;
      [|now apply (onTime_later T)].
    destruct (Z.geb_spec (tick_timestamp tick) (market_endDate m)) as [Hge|Hlt];
      [|now apply (onTime_later T)].
    apply marketMapOf_lookup in Hlook. destruct Hlook as [Hin Hslug]. simpl.
    apply (onTime_closePosition T);
      [exact Hin|now rewrite Hpos, Hslug|lia|lia|exact Hon]. }
  destruct (expirePosition _ _ _ _) as [e1 expired1]. simpl in H1.
  (* no ladder in normal mode *)
  unfold expireLadder. rewrite (onTime_ladderState _ _ H1).
  destruct (bool_decide _); [exact H1|].
  destruct (Z.geb_spec (tick_timestamp tick) (market_endDate market)) as [Hge|Hlt].
  - simpl.
    set (e2 := match position e1 with Some _ => _ | None => e1 end).
    assert (H2 : onTime markets (tick_timestamp tick) e2).
    { unfold e2. destruct (position e1) as [p|] eqn:Hpos; [|exact H1].
      destruct (bool_decide _) eqn:Hslug; [|exact H1].
      apply bool_decide_eq_true in Hslug.
      apply (onTime_closePosition (tick_timestamp tick));
        [exact Hm|rewrite Hpos; simpl; now rewrite Hslug|lia|lia|exact H1]. }
    now rewrite (onTime_ladderState _ _ H2).
  - simpl. apply (onTime_processTick (tick_timestamp tick)); [exact Hm|lia|].
    exact H1.
Qed.

Lemma onTime_ticks l : forall T st,
  StronglySorted (fun a b => (entryTime a <= entryTime b)%Z) l ->
  Forall (fun x => (T <= entryTime x)%Z) l ->
  Forall (fun tm => snd tm ∈ markets /\ fst tm ∈ priceTicks (snd tm)) l ->
  onTime markets T (fst st) ->
  exists T', onTime markets T' (fst (foldl (runTick cfg now (marketMapOf markets)) st l)).
Proof.
  induction l as [|[tick market] l IH]; intros T st Hsorted Hbound Hknown Hon.
  - now exists T.
  - simpl. apply StronglySorted_inv in Hsorted. destruct Hsorted as [Hsorted Hhead].
    apply Forall_cons in Hbound. destruct Hbound as [HT _].
    apply Forall_cons in Hknown. destruct Hknown as [[Hm _] Hknown].
    apply (IH (tick_timestamp tick)); [exact Hsorted|exact Hhead|exact Hknown|].
    now apply (onTime_runTick T).
Qed.

Lemma sortTicks_sorted (l : list (PriceTick * HistoricalMarket)) :
  StronglySorted (fun a b => (entryTime a <= entryTime b)%Z) (sortTicks l).
Proof.
  unfold sortTicks. induction l as [|x l IH]; simpl; [constructor|].
  now apply insertTick_sorted.
Qed.

Lemma onTime_closeRemaining T e :
  onTime markets T e ->
  exists T', onTime markets T' (closeRemaining cfg (marketMapOf markets) e).
Proof.
  intros Hon. unfold closeRemaining. cbv zeta.
  set (e1 := match position e with Some _ => _ | None => e end).
  assert (H1 : exists T', onTime markets T' e1).
  { unfold e1. destruct (position e) as [p|] eqn:Hpos; [|now exists T].
    destruct (marketMapOf markets !! pos_marketSlug p) as [m|] eqn:Hlook;
      [|now exists T].
    apply marketMapOf_lookup in Hlook. destruct Hlook as [Hin Hslug].
    exists (Z.max T (market_endDate m)).
    apply (onTime_closePosition T);
      [exact Hin|now rewrite Hpos, Hslug|lia|lia|exact Hon]. }
  destruct H1 as [T' H1]. exists T'. now rewrite (onTime_ladderState _ _ H1).
Qed.

(** In normal mode, when no two markets share a slug, the trades [run]
    returns are in the order of time: no trade exits before it was entered,
    and each trade is entered no earlier than the trade before it exited. *)
Theorem normal_mode_chronology (sqrt : Q -> Q) (e0 : Engine) :
  chronological (res_trades (fst (run cfg now sqrt markets e0))).
Proof.
  simpl. unfold replay.
  assert (H0 : forall T, onTime markets T (resetEngine cfg e0)).
  { intros T. split; [reflexivity|]. split; [|split; [discriminate|discriminate]].
    split; [constructor|]. intros i a b Ha. discriminate. }
  pose proof (sortTicks_sorted (allTicksOf markets)) as Hsorted.
  pose proof (sortedTicks_known markets) as Hknown.
  assert (H : exists T, onTime markets T
                (fst (foldl (runTick cfg now (marketMapOf markets))
                        (resetEngine cfg e0, ∅) (sortTicks (allTicksOf markets))))).
  { destruct (sortTicks (allTicksOf markets)) as [|x l] eqn:Hl.
    - exists 0%Z. apply H0.
    - apply (onTime_ticks _ (entryTime x)); [exact Hsorted| |exact Hknown|apply H0].
      apply StronglySorted_inv in Hsorted. destruct Hsorted as [_ Hhead].
      constructor; [lia|exact Hhead]. }
  destruct H as [T H]. destruct (foldl _ _ _) as [e expired]. simpl in H.
  destruct (onTime_closeRemaining T e H) as (T' & _ & Hc & _). exact Hc.
Qed.

End Chronology.

(** An instance: the one trade of [normalConfig] on [normalMarket]. *)
Lemma normal_mode_chronology_example :
  let r := runBacktest testClock (fun q => q) normalConfig [normalMarket] in
  length (res_trades r) = 1%nat /\ chronological (res_trades r).
Proof.
  split; [reflexivity|].
  apply (normal_mode_chronology normalConfig testClock [normalMarket]).
  - discriminate.
  - apply NoDup_singleton.
Defined.

(** ** The ladder stays in good order *)

Section LadderOrder.

Variable cfg : BacktestConfig.
Variable now : nat -> Z.

Hypothesis slippage_nonneg : 0 <= slippage cfg.
Hypothesis entryThreshold_positive : 0 < entryThreshold cfg.

Lemma NoDup_skipped (completed skipped : list string) (id : string) :
  NoDup (completed ++ skipped) -> id ∉ completed -> id ∉ skipped ->
  NoDup (completed ++ skipped ++ [id]).
Proof.
  intros Hnodup Hc Hs. rewrite app_assoc. apply NoDup_app.
  split; [exact Hnodup|]. split; [|apply NoDup_singleton].
  intros x Hx Hid. apply list_elem_of_singleton in Hid. subst x.
  apply elem_of_app in Hx. tauto.
Qed.

Lemma NoDup_completed (completed skipped : list string) (id : string) :
  NoDup (completed ++ skipped) -> id ∉ completed -> id ∉ skipped ->
  NoDup ((completed ++ [id]) ++ skipped).
Proof.
  intros Hnodup Hc Hs. rewrite <- app_assoc. simpl.
  apply NoDup_app in Hnodup. destruct Hnodup as (H1 & H2 & H3).
  apply NoDup_app. split; [exact H1|]. split.
  - intros x Hx Hin. apply elem_of_cons in Hin. destruct Hin as [->|Hin];
      [contradiction|now apply (H2 x)].
  - apply NoDup_cons. now split.
Qed.

Lemma ladderSound_executeLadderBuyStep tick ls step e ls' :
  0 < bestAsk tick -> (currentStepIndex ls < length (ladderSteps cfg))%nat ->
  ladderSound cfg ls ->
  ladderState (executeLadderBuyStep cfg tick ls step e) = Some ls' ->
  ladderSound cfg ls'.
Proof.
  intros Hask Hidx Hsound. pose proof Hsound as (Hnodup & _ & Hshares & Hcost).
  unfold executeLadderBuyStep.
  destruct (bool_decide _) eqn:Hc; [now intros [= <-]|].
  destruct (bool_decide (_ ∈ skippedSteps ls)) eqn:Hs; [now intros [= <-]|].
  apply bool_decide_eq_false in Hc. apply bool_decide_eq_false in Hs.
  remember (calculateStepSize phaseBuy (step_buy step) ls (balance e) (bestAsk tick))
    as buyAmount eqn:Hbuy. clear Hbuy.
  destruct (Qltb _ 1) eqn:Hsmall; intros [= <-]; unfold ladderSound; simpl.
  - split; [now apply NoDup_skipped|]. split; [lia|]. now split.
  - apply Qltb_ge in Hsmall.
    assert (Hprice : 0 < Qmin (bestAsk tick * (1 + slippage cfg)) 0.99).
    { apply Q.min_glb_lt; [|reflexivity]. apply Qmult_lt_0_compat; lra. }
    assert (Hbought : 0 <= buyAmount / Qmin (bestAsk tick * (1 + slippage cfg)) 0.99).
    { apply Qle_shift_div_l; [exact Hprice|]. lra. }
    split; [exact Hnodup|]. split; [lia|]. split; lra.
Qed.

Lemma ladderSound_executeLadderSellStep tick ls step e ls' :
  (currentStepIndex ls < length (ladderSteps cfg))%nat ->
  ladderSound cfg ls ->
  ladderState (executeLadderSellStep cfg tick ls step e) = Some ls' ->
  ladderSound cfg ls'.
Proof.
  intros Hidx Hsound. pose proof Hsound as (Hnodup & _ & Hshares & Hcost).
  unfold executeLadderSellStep.
  destruct (bool_decide _) eqn:Hc; [now intros [= <-]|].
  destruct (bool_decide (_ ∈ skippedSteps ls)) eqn:Hs; [now intros [= <-]|].
  apply bool_decide_eq_false in Hc. apply bool_decide_eq_false in Hs.
  remember (calculateStepSize phaseSell (step_sell step) ls 0 (bestBid tick))
    as sellShares eqn:Hsell. clear Hsell.
  destruct (_ || _) eqn:Hsmall.
  - intros [= <-]. unfold ladderSound. simpl.
    split; [now apply NoDup_skipped|]. split; [lia|]. now split.
  - apply orb_false_iff in Hsmall. destruct Hsmall as [H1 H2].
    apply Qltb_ge in H1. apply Qltb_ge in H2.
    rewrite ladderState_checkCompoundLimit. simpl.
    pose proof (Q.le_min_r sellShares (totalShares ls - totalSharesSold ls)) as Hmin.
    assert (Hsold : 0 <= Qmin sellShares (totalShares ls - totalSharesSold ls))
      by (apply Q.min_glb; lra).
    destruct (Qltb _ 0.01); intros [= <-]; unfold ladderSound; simpl.
    + split; [now apply NoDup_completed|]. split; [lia|]. split; lra.
    + split; [now apply NoDup_completed|]. split; [lia|]. split; lra.
Qed.

Lemma ladderSound_reset t ls : ladderSound cfg (resetLadderState t ls).
Proof.
  unfold ladderSound. simpl. split; [constructor|]. split; [lia|]. split; lra.
Qed.

Lemma ladderSound_executeLadderStopLoss tick ls step e ls' :
  ladderState (executeLadderStopLoss cfg now tick ls step e) = Some ls' ->
  ladderSound cfg ls'.
Proof.
  unfold executeLadderStopLoss.
  destruct (Qltb _ _); intros [= <-]; apply ladderSound_reset.
Qed.

Lemma ladderSound_set_currentStepIndex k ls :
  (k <= length (ladderSteps cfg))%nat ->
  ladderSound cfg ls -> ladderSound cfg (set_currentStepIndex k ls).
Proof. intros Hk (H1 & _ & H3 & H4). now repeat split. Qed.

Lemma ladderSound_processLadderStateTick tick market e ls' :
  (forall ls, ladderState e = Some ls -> ladderSound cfg ls) ->
  ladderState (processLadderStateTick cfg now tick market (ladderSteps cfg) e)
    = Some ls' ->
  ladderSound cfg ls'.
Proof.
  intros Hsound. unfold processLadderStateTick.
  destruct (ladderState e) as [ls|] eqn:Hls; [|now rewrite Hls].
  specialize (Hsound ls eq_refl).
  destruct (ladderStopLossHit _ _ _);
    [apply ladderSound_executeLadderStopLoss|].
  destruct (negb _); [rewrite Hls; now intros [= <-]|].
  destruct (_ && _); [rewrite Hls; now intros [= <-]|].
  set (ls1 := if needsRecovery ls then _ else ls).
  assert (H1 : ladderSound cfg ls1).
  { unfold ls1. destruct (needsRecovery ls); [|exact Hsound].
    destruct Hsound as (H1 & H2 & H3 & H4). now repeat split. }
  pose proof (getActiveStep_traversal_aux (ladderSteps cfg) _ ls1 eq_refl) as Ht.
  destruct (getActiveStep (ladderSteps cfg) ls1) as [[nextStep|] ls2];
    simpl in Ht; destruct Ht as (Hshape & Hge & Hle & _ & Hfound).
  - destruct Hfound as [Hstep _].
    pose proof (lookup_lt_Some _ _ _ Hstep) as Hlt.
    assert (H2 : ladderSound cfg ls2).
    { rewrite Hshape. apply ladderSound_set_currentStepIndex; [lia|exact H1]. }
    destruct (currentStepPhase ls2).
    + destruct (Qgtb (bestAsk tick) 0 && _) eqn:Hask; [|now intros [= <-]].
      apply andb_true_iff in Hask. destruct Hask as [Hask _].
      apply Qgtb_lt in Hask. now apply ladderSound_executeLadderBuyStep.
    + destruct (_ && _); [|now intros [= <-]].
      now apply ladderSound_executeLadderSellStep.
  - assert (H2 : ladderSound cfg ls2).
    { rewrite Hshape. apply ladderSound_set_currentStepIndex; [|exact H1].
      destruct H1 as (_ & H1 & _). lia. }
    destruct (bool_decide _); [|now intros [= <-]].
    destruct (Qltb _ _); [discriminate|]. intros [= <-].
    destruct H2 as (H2 & H3 & H4 & H5). now repeat split.
Qed.

Lemma ladderSound_processLadderTick tick market e ls' :
  (forall ls, ladderState e = Some ls -> ladderSound cfg ls) ->
  ladderState (processLadderTick cfg now tick market e) = Some ls' ->
  ladderSound cfg ls'.
Proof.
  intros Hsound. unfold processLadderTick.
  destruct (bool_decide _) eqn:Hempty; [apply Hsound|].
  apply bool_decide_eq_false in Hempty.
  destruct (ladderState e) as [ls|] eqn:Hls.
  - destruct (negb _); [rewrite Hls; intros [= <-]; now apply Hsound|].
    apply ladderSound_processLadderStateTick. now rewrite Hls.
  - destruct (Qltb (balance e) 1); [now rewrite Hls|].
    destruct (isLadderMarketLocked _ _); [now rewrite Hls|].
    destruct (_ || _); [now rewrite Hls|].
    destruct (Qgtb _ _); [now rewrite Hls|].
    destruct (_ || _) eqn:Hrange; [now rewrite Hls|].
    destruct (lastTradeWonSide _ _ _); [now rewrite Hls|].
    destruct (find _ _) as [firstEnabledStep|]; [|now rewrite Hls].
    destruct (Qltb (bestAsk tick) (triggerPrice _)); [now rewrite Hls|].
    apply orb_false_iff in Hrange. destruct Hrange as [Hlow _].
    apply Qltb_ge in Hlow.
    assert (Hfresh : forall t, ladderSound cfg
              (set_lastStepTime (tick_timestamp tick)
                 (set_lastStepPrice (bestAsk tick)
                    (initializeLadderState t (tick_tokenId tick)
                       (sideOf tick market) (market_slug market)
                       (market_endDate market))))).
    { intros t. unfold ladderSound. simpl.
      split; [constructor|]. split; [lia|]. split; lra. }
    destruct (Qleb _ _); [|intros [= <-]; apply Hfresh].
    apply ladderSound_executeLadderBuyStep; [lra|simpl; lia|apply Hfresh].
Qed.

(** With a positive entry threshold and no negative slippage, the ladder of
    the engine is in good order at every point of the replay: no step is
    completed or skipped twice, the step index does not run past the end of
    the steps, and the ladder has sold no more shares than it has bought. *)
Theorem ladder_stays_sound (markets : list HistoricalMarket) (e0 : Engine)
    (n : nat) (ls : LadderState) :
  ladderState (replayPrefix cfg now markets e0 n) = Some ls ->
  ladderSound cfg ls.
Proof.
  revert ls.
  apply (prefix_invariant cfg now markets
           (fun e => forall ls, ladderState e = Some ls -> ladderSound cfg ls)).
  - intros v e He. exact He.
  - intros m e _ He ls. rewrite ladderState_closePositionAtExpiry. apply He.
  - intros m e _ He ls. now rewrite ladderState_closeLadderAtExpiry.
  - intros t m e _ _ He ls. unfold processTick.
    destruct (bool_decide (riskMode cfg = ladder)) eqn:Hmode.
    + now apply ladderSound_processLadderTick.
    + apply bool_decide_eq_false in Hmode.
      pose proof (ladderState_processTick_normal cfg now t m e Hmode) as H.
      unfold processTick in H. rewrite bool_decide_eq_false_2 in H by exact Hmode.
      rewrite H. apply He.
  - discriminate.
Qed.

End LadderOrder.

(** An instance: the ladder of [testConfig] after the buy on [ladderMarket]. *)
Lemma ladder_stays_sound_example :
  exists ls,
    ladderState (replayPrefix testConfig testClock [ladderMarket]
                   (newEngine testConfig) 2) = Some ls /\
    currentStepPhase ls = phaseSell /\ ladderSound testConfig ls.
Proof.
  assert (H1 : 0 <= slippage testConfig) by discriminate.
  assert (H2 : 0 < entryThreshold testConfig) by reflexivity.
  eexists. split; [reflexivity|]. split; [reflexivity|].
  exact (ladder_stays_sound testConfig testClock H1 H2 [ladderMarket]
           (newEngine testConfig) 2 _ eq_refl).
Defined.

(** ** The trades table *)

Section TradesTable.

Lemma find_id_snoc (l : list Db.Trade) (row : Db.Trade) (i : nat) :
  find (fun r => bool_decide (Db.id r = i)) (l ++ [row])
  = match find (fun r => bool_decide (Db.id r = i)) l with
    | Some r => Some r
    | None => if bool_decide (Db.id row = i) then Some row else None
    end.
Proof.
  induction l as [|x l IH]; simpl; [reflexivity|].
  now destruct (bool_decide (Db.id x = i)).
Qed.

Lemma find_id_bound (l : list Db.Trade) (n i : nat) (r : Db.Trade) :
  Forall (fun row => (Db.id row <= n)%nat) l ->
  find (fun r => bool_decide (Db.id r = i)) l = Some r -> (i <= n)%nat.
Proof.
  intros Hall Hfind. apply find_some in Hfind. destruct Hfind as [Hin Hid].
  apply bool_decide_eq_true in Hid. subst i.
  apply list_elem_of_In in Hin.
  exact (proj1 (Forall_forall _ _) Hall r Hin).
Qed.

Lemma find_id_map (f : Db.Trade -> Db.Trade) (l : list Db.Trade) (i : nat) :
  (forall r, Db.id (f r) = Db.id r) ->
  find (fun r => bool_decide (Db.id r = i)) (map f l)
  = f <$> find (fun r => bool_decide (Db.id r = i)) l.
Proof.
  intros Hid. induction l as [|x l IH]; simpl; [reflexivity|].
  rewrite Hid. now destruct (bool_decide _).
Qed.

Lemma updateClosed_id i x s p c row :
  Db.id (Db.updateClosed i x s p c row) = Db.id row.
Proof. unfold Db.updateClosed. now destruct (bool_decide _). Qed.

Lemma updateClosed_other i x s p c (l : list Db.Trade) :
  i ∉ map Db.id l -> map (Db.updateClosed i x s p c) l = l.
Proof.
  induction l as [|y l IH]; intros Hi; [reflexivity|]. simpl.
  unfold Db.updateClosed at 1.
  rewrite bool_decide_eq_false_2.
  - f_equal. apply IH. intros Hin. apply Hi. now right.
  - intros Hy. apply Hi. simpl. rewrite <- Hy. now left.
Qed.

Lemma sumPnl_snoc (l : list Db.Trade) (row : Db.Trade) :
  Db.sumPnl (l ++ [row])
  == Db.sumPnl l + match Db.pnl row with Some p => p | None => 0 end.
Proof.
  induction l as [|x l IH]; simpl.
  - destruct (Db.pnl row); ring.
  - destruct (Db.pnl x); rewrite IH; ring.
Qed.

Lemma sumPnl_close (l : list Db.Trade) i x s p c trade :
  NoDup (map Db.id l) ->
  find (fun r => bool_decide (Db.id r = i)) l = Some trade ->
  Db.pnl trade = None ->
  Db.sumPnl (map (Db.updateClosed i x s p c) l) == Db.sumPnl l + p.
Proof.
  induction l as [|r l IH]; intros Hnodup Hfind Hpnl; [discriminate|].
  simpl in Hnodup. apply NoDup_cons in Hnodup. destruct Hnodup as [Hr Hl].
  simpl in Hfind. simpl. unfold Db.updateClosed at 1.
  destruct (bool_decide (Db.id r = i)) eqn:Hri.
  - injection Hfind as ->. apply bool_decide_eq_true in Hri. subst i.
    simpl. rewrite Hpnl, (updateClosed_other _ _ _ _ _ l Hr). ring.
  - destruct (Db.pnl r); rewrite (IH Hl Hfind Hpnl); ring.
Qed.

Lemma count_snoc (cond : Db.Trade -> bool) (l : list Db.Trade) row :
  length (filter (fun r => cond r = true) (l ++ [row]))
  = (length (filter (fun r => cond r = true) l) + if cond row then 1 else 0)%nat.
Proof.
  rewrite filter_app, length_app, filter_cons, filter_nil.
  destruct (cond row) eqn:Hc.
  - rewrite decide_True by reflexivity. reflexivity.
  - rewrite decide_False by discriminate. reflexivity.
Qed.

(** [insertTrade] and [getTradeById] round-trip: on a well-formed table the
    id returned is new, reading it back gives the row inserted, open and
    without exit price or profit, every other id reads as before, and the
    statistics count one more trade, open, with the same wins, losses and
    total profit. *)
Theorem insertTrade_round_trip (trade : Db.NewTrade) (t : Db.Table) :
  Db.wellFormed t ->
  let t' := fst (Db.insertTrade trade t) in
  let i := snd (Db.insertTrade trade t) in
  Db.wellFormed t' /\
  Db.getTradeById i t = None /\
  Db.getTradeById i t' = Some (Db.inserted i trade) /\
  (forall j, j <> i -> Db.getTradeById j t' = Db.getTradeById j t) /\
  Db.getTotalPnL t' == Db.getTotalPnL t /\
  Db.stats_total (Db.getTradeStats t') = S (Db.stats_total (Db.getTradeStats t)) /\
  Db.stats_open (Db.getTradeStats t') = S (Db.stats_open (Db.getTradeStats t)) /\
  Db.stats_wins (Db.getTradeStats t') = Db.stats_wins (Db.getTradeStats t) /\
  Db.stats_losses (Db.getTradeStats t') = Db.stats_losses (Db.getTradeStats t).
Proof.
  intros [Hnodup Hbound]. simpl.
  assert (Hnew : Db.getTradeById (S (Db.lastId t)) t = None).
  { unfold Db.getTradeById.
    destruct (find _ (Db.rows t)) as [r|] eqn:Hfind; [|reflexivity].
    pose proof (find_id_bound _ _ _ _ Hbound Hfind). lia. }
  split; [|split; [exact Hnew|split; [|split; [|split; [|split; [|split; [|split]]]]]]].
  - split; simpl.
    + rewrite map_app. apply NoDup_app. split; [exact Hnodup|].
      split; [|apply NoDup_singleton].
      intros x Hx Hin. apply list_elem_of_singleton in Hin. subst x.
      apply list_elem_of_fmap in Hx. destruct Hx as (r & Hr & Hin).
      pose proof (proj1 (Forall_forall _ _) Hbound r Hin) as Hle.
      simpl in Hle, Hr. lia.
    + apply Forall_app. split; [|apply Forall_singleton; simpl; lia].
      eapply Forall_impl; [exact Hbound|]. intros r Hr. simpl in *. lia.
  - unfold Db.getTradeById in *. simpl. rewrite find_id_snoc, Hnew. simpl.
    now rewrite bool_decide_eq_true_2 by reflexivity.
  - intros j Hj. unfold Db.getTradeById. simpl. rewrite find_id_snoc.
    destruct (find (fun r => bool_decide (Db.id r = j)) (Db.rows t));
      [reflexivity|]. simpl.
    now rewrite bool_decide_eq_false_2 by congruence.
  - unfold Db.getTotalPnL. simpl. rewrite sumPnl_snoc. simpl. ring.
  - simpl. rewrite length_app. simpl. lia.
  - unfold Db.getTradeStats, Db.countWhere. simpl. rewrite count_snoc. simpl. lia.
  - unfold Db.getTradeStats, Db.countWhere. simpl. rewrite count_snoc. simpl. lia.
  - unfold Db.getTradeStats, Db.countWhere. simpl. rewrite count_snoc. simpl. lia.
Qed.

(** [closeTrade] on a well-formed table: an id that is not in the table
    changes nothing; the row of an id that is there becomes closed, with
    the exit price, the status, the closing time and the profit
    [(exitPrice - entry_price) * shares], every other id reads as before,
    and, when the row had no profit yet, the total profit grows by that of
    the row. *)
Theorem closeTrade_closes (now : string) (i : nat) (exitPrice : Q)
    (s : Db.Status) (t : Db.Table) :
  Db.wellFormed t ->
  match Db.getTradeById i t with
  | None => Db.closeTrade now i exitPrice s t = t
  | Some trade =>
    let t' := Db.closeTrade now i exitPrice s t in
    Db.wellFormed t' /\
    Db.getTradeById i t' = Some (Db.closed now exitPrice s trade) /\
    (forall j, j <> i -> Db.getTradeById j t' = Db.getTradeById j t) /\
    length (Db.rows t') = length (Db.rows t) /\
    (Db.pnl trade = None ->
     Db.getTotalPnL t'
       == Db.getTotalPnL t + (exitPrice - Db.entry_price trade) * Db.shares trade)
  end.
Proof.
  intros [Hnodup Hbound]. unfold Db.closeTrade.
  destruct (Db.getTradeById i t) as [trade|] eqn:Hget; [|reflexivity].
  simpl. unfold Db.getTradeById in *. simpl.
  set (p := (exitPrice - Db.entry_price trade) * Db.shares trade).
  assert (Hid : Db.id trade = i).
  { apply find_some in Hget. destruct Hget as [_ H].
    now apply bool_decide_eq_true in H. }
  split; [|split; [|split; [|split]]].
  - split; simpl.
    + rewrite <- list_fmap_compose.
      erewrite list_fmap_ext; [exact Hnodup|].
      intros k r _. simpl. apply updateClosed_id.
    + apply Forall_fmap. eapply Forall_impl; [exact Hbound|].
      intros r Hr. simpl. now rewrite updateClosed_id.
  - rewrite find_id_map by (intros r; apply updateClosed_id). rewrite Hget. simpl.
    unfold Db.updateClosed. now rewrite bool_decide_eq_true_2 by exact Hid.
  - intros j Hj. rewrite find_id_map by (intros r; apply updateClosed_id).
    destruct (find (fun r => bool_decide (Db.id r = j)) (Db.rows t))
      as [r|] eqn:Hfind; [|reflexivity]. simpl.
    apply find_some in Hfind. destruct Hfind as [_ Hr].
    apply bool_decide_eq_true in Hr.
    unfold Db.updateClosed. now rewrite bool_decide_eq_false_2 by congruence.
  - apply length_map.
  - intros Hpnl. unfold Db.getTotalPnL. simpl.
    now apply (sumPnl_close _ _ _ _ _ _ trade).
Qed.

Lemma percentage_bounds (w l : nat) :
  0 <= (if (0 <? w + l)%nat
        then inject_Z (Z.of_nat w) / inject_Z (Z.of_nat (w + l)) * 100
        else 0) <= 100.
Proof.
  destruct (0 <? w + l)%nat eqn:Hpos; [|split; lra].
  apply Nat.ltb_lt in Hpos.
  assert (Hc : 0 < inject_Z (Z.of_nat (w + l))).
  { change 0 with (inject_Z 0). rewrite <- Zlt_Qlt. lia. }
  assert (Hw : 0 <= inject_Z (Z.of_nat w)).
  { change 0 with (inject_Z 0). rewrite <- Zle_Qle. lia. }
  assert (Hle : inject_Z (Z.of_nat w) <= inject_Z (Z.of_nat (w + l))).
  { rewrite <- Zle_Qle. lia. }
  assert (Hratio : 0 <= inject_Z (Z.of_nat w) / inject_Z (Z.of_nat (w + l)) <= 1).
  { split; [apply Qle_shift_div_l|apply Qle_shift_div_r]; try exact Hc; lra. }
  lra.
Qed.

Lemma countWhere_disjoint (f g : Db.Trade -> bool) (t : Db.Table) :
  (forall row, f row = true -> g row = true -> False) ->
  (Db.countWhere f t + Db.countWhere g t <= length (Db.rows t))%nat.
Proof.
  intros Hfg. unfold Db.countWhere.
  induction (Db.rows t) as [|r l IH]; [simpl; lia|].
  rewrite !filter_cons.
  destruct (f r) eqn:Hf, (g r) eqn:Hg;
    repeat (destruct (decide _); try congruence); simpl; try lia.
  exfalso. now apply (Hfg r).
Qed.

Lemma countWhere_none (f : Db.Trade -> bool) (t : Db.Table) :
  (forall row, row ∈ Db.rows t -> f row = false) -> Db.countWhere f t = 0%nat.
Proof.
  unfold Db.countWhere.
  induction (Db.rows t) as [|r l IH]; intros Hf; [reflexivity|].
  rewrite filter_cons, decide_False.
  - apply IH. intros row Hrow. apply Hf. now right.
  - rewrite (Hf r); [discriminate|now left].
Qed.

(** What [getTradeStats] counts: a trade is a win, a loss, or neither (open,
    or closed with a profit of exactly zero), never both; the open trades
    are among the trades; the win rate is a percentage; and while no trade
    has a profit, there is no win, no loss, and the win rate is 0. *)
Theorem getTradeStats_counts (t : Db.Table) :
  let st := Db.getTradeStats t in
  Db.stats_total st = length (Db.rows t) /\
  (Db.stats_wins st + Db.stats_losses st <= Db.stats_total st)%nat /\
  (Db.stats_open st <= Db.stats_total st)%nat /\
  0 <= Db.stats_winRate st <= 100 /\
  ((forall row, row ∈ Db.rows t -> Db.pnl row = None) ->
   Db.stats_wins st = 0%nat /\ Db.stats_losses st = 0%nat /\
   Db.stats_winRate st = 0).
Proof.
  unfold Db.getTradeStats.
  cbn [Db.stats_total Db.stats_wins Db.stats_losses Db.stats_open Db.stats_winRate].
  split; [reflexivity|]. split; [|split; [|split]].
  - apply countWhere_disjoint. intros row Hw Hl.
    destruct (Db.pnl row) as [p|]; [|discriminate].
    apply Qgtb_lt in Hw. apply Qltb_lt in Hl. lra.
  - unfold Db.countWhere. apply length_filter.
  - apply percentage_bounds.
  - intros Hnone.
    rewrite !countWhere_none; [now repeat split| |];
      intros row Hrow; now rewrite (Hnone row Hrow).
Qed.

End TradesTable.

(** Instances: a first trade in an empty table, and its close at 0.99. *)
Lemma insertTrade_round_trip_example :
  Db.wellFormed Db.emptyTable /\
  Db.getTradeById 1 (fst (Db.insertTrade Db.sampleTrade Db.emptyTable))
  = Some (Db.inserted 1 Db.sampleTrade).
Proof.
  assert (H : Db.wellFormed Db.emptyTable) by (split; constructor).
  split; [exact H|].
  exact (proj1 (proj2 (proj2 (insertTrade_round_trip Db.sampleTrade Db.emptyTable H)))).
Defined.

Lemma closeTrade_closes_example :
  let t := fst (Db.insertTrade Db.sampleTrade Db.emptyTable) in
  Db.wellFormed t /\
  Db.getTradeById 1 (Db.closeTrade "2024-01-01T00:15:00.000Z" 1 0.99 Db.RESOLVED t)
  = Some (Db.closed "2024-01-01T00:15:00.000Z" 0.99 Db.RESOLVED
            (Db.inserted 1 Db.sampleTrade)).
Proof.
  assert (H : Db.wellFormed (fst (Db.insertTrade Db.sampleTrade Db.emptyTable))).
  { split; simpl; [apply NoDup_singleton|apply Forall_singleton; simpl; lia]. }
  split; [exact H|].
  exact (proj1 (proj2 (closeTrade_closes "2024-01-01T00:15:00.000Z" 1 0.99
                         Db.RESOLVED _ H))).
Defined.

(** ** The balance the live bot trades with *)

Section LiveBalanceProperties.

Variable toFixed2 : Q -> string.
Variable config : BotConfig.

Lemma applyCompoundLimit_over w s :
  0 < bot_compoundLimit config -> bot_compoundLimit config < w ->
  let s1 := applyCompoundLimit toFixed2 config w s in
  bot_balance s1 = bot_baseBalance config /\
  bot_savedProfit s1 = w - bot_baseBalance config.
Proof.
  intros Hl Hw. cbv zeta. unfold applyCompoundLimit.
  destruct (Qleb (bot_compoundLimit config) 0) eqn:E1.
  { apply Qleb_le in E1. lra. }
  destruct (Qgtb w (bot_compoundLimit config)) eqn:E2.
  - now split.
  - apply Qgtb_le in E2. lra.
Qed.

Lemma applyCompoundLimit_under w s :
  ~ (0 < bot_compoundLimit config /\ bot_compoundLimit config < w) ->
  let s1 := applyCompoundLimit toFixed2 config w s in
  bot_balance s1 = w /\
  bot_logged s1 = bot_logged s /\
  (bot_savedProfit s1 = bot_savedProfit s \/
   bot_savedProfit s1 = 0 /\ 0 < bot_savedProfit s /\
   w <= bot_baseBalance config).
Proof.
  intros Hn. cbv zeta. unfold applyCompoundLimit.
  destruct (Qleb (bot_compoundLimit config) 0) eqn:E1.
  { simpl. now repeat split; try left. }
  destruct (Qgtb w (bot_compoundLimit config)) eqn:E2.
  { apply Qleb_gt in E1. apply Qgtb_lt in E2. tauto. }
  simpl. destruct (Qgtb (bot_savedProfit s) 0) eqn:E3; simpl.
  - destruct (Qleb w (bot_baseBalance config)) eqn:E4; simpl.
    + apply Qgtb_lt in E3. apply Qleb_le in E4. repeat split. now right.
    + repeat split. now left.
  - repeat split. now left.
Qed.

(** [applyCompoundLimit] settles the account at once: applied again to
    the same wallet balance it changes nothing and logs nothing.  Over a
    positive limit the bot trades with [baseBalance] and books the rest of
    the wallet as saved, so that [balance + savedProfit] is the wallet
    balance; otherwise it trades with the whole wallet, logs nothing, and
    keeps [savedProfit] unless the wallet has fallen to [baseBalance] or
    below, which resets it to 0.  With [baseBalance <= compoundLimit] the
    balance it trades with never exceeds the wallet, and a [savedProfit]
    that was not negative stays so. *)
Theorem applyCompoundLimit_settles (w : Q) (s : BotState) :
  let s1 := applyCompoundLimit toFixed2 config w s in
  applyCompoundLimit toFixed2 config w s1 = s1 /\
  (0 < bot_compoundLimit config -> bot_compoundLimit config < w ->
   bot_balance s1 = bot_baseBalance config /\
   bot_balance s1 + bot_savedProfit s1 == w) /\
  (~ (0 < bot_compoundLimit config /\ bot_compoundLimit config < w) ->
   bot_balance s1 = w /\ bot_logged s1 = bot_logged s /\
   (bot_savedProfit s1 = bot_savedProfit s \/
    bot_savedProfit s1 = 0 /\ w <= bot_baseBalance config)) /\
  (bot_baseBalance config <= bot_compoundLimit config ->
   bot_balance s1 <= w /\
   (0 <= bot_savedProfit s -> 0 <= bot_savedProfit s1)).
Proof.
  cbv zeta. split; [|split; [|split]].
  - unfold applyCompoundLimit.
    destruct (Qleb (bot_compoundLimit config) 0) eqn:E1; [reflexivity|].
    destruct (Qgtb w (bot_compoundLimit config)) eqn:E2.
    + cbn [bot_savedProfit set_bot_balance set_bot_savedProfit].
      set (saved := w - bot_baseBalance config).
      assert (E3 : Qgtb saved (saved + 0.01) = false).
      { apply Qgtb_le. lra. }
      now rewrite E3.
    + cbn [bot_savedProfit set_bot_balance set_bot_savedProfit bot_balance].
      destruct (Qgtb (bot_savedProfit s) 0 && Qleb w (bot_baseBalance config))
        eqn:E3.
      * cbn [bot_savedProfit set_bot_savedProfit].
        now change (Qgtb 0 0) with false.
      * cbn [bot_savedProfit set_bot_balance]. now rewrite E3.
  - intros Hl Hw.
    destruct (applyCompoundLimit_over w s Hl Hw) as [Hb Hs].
    split; [exact Hb|]. rewrite Hb, Hs. lra.
  - intros Hn.
    destruct (applyCompoundLimit_under w s Hn) as (Hb & Hlog & Hs).
    split; [exact Hb|]. split; [exact Hlog|]. tauto.
  - intros Hbase.
    destruct (Qlt_le_dec 0 (bot_compoundLimit config)) as [Hl|Hl];
      [destruct (Qlt_le_dec (bot_compoundLimit config) w) as [Hw|Hw]|].
    + destruct (applyCompoundLimit_over w s Hl Hw) as [Hb Hs].
      rewrite Hb, Hs. split; [lra|]. intros _. lra.
    + destruct (applyCompoundLimit_under w s) as (Hb & _ & Hs); [lra|].
      rewrite Hb. split; [lra|]. intros H0.
      destruct Hs as [Hs|[Hs _]]; rewrite Hs; [exact H0|lra].
    + destruct (applyCompoundLimit_under w s) as (Hb & _ & Hs); [lra|].
      rewrite Hb. split; [lra|]. intros H0.
      destruct Hs as [Hs|[Hs _]]; rewrite Hs; [exact H0|lra].
Qed.

End LiveBalanceProperties.

(** ** The averages of a run *)

Section Averages.

Variable cfg : BacktestConfig.
Variable sqrt : Q -> Q.

Lemma sumOf_wins_losses (l : list BacktestTrade) :
  sumOf trade_pnl l
  == sumOf trade_pnl (filter (fun t => Qgtb (trade_pnl t) 0 = true) l)
     + sumOf trade_pnl (filter (fun t => Qleb (trade_pnl t) 0 = true) l).
Proof.
  induction l as [|t l IH] using rev_ind; [reflexivity|].
  rewrite !filter_app, !filter_cons, !filter_nil, win_or_loss, sumOf_snoc.
  destruct (Qgtb (trade_pnl t) 0) eqn:H; simpl;
    repeat (destruct (decide _); try congruence);
    rewrite ?app_nil_r, ?sumOf_snoc, IH; ring.
Qed.

Lemma sumOf_wins (l : list BacktestTrade) :
  0 <= sumOf trade_pnl (filter (fun t => Qgtb (trade_pnl t) 0 = true) l) /\
  ((0 < length (filter (fun t => Qgtb (trade_pnl t) 0 = true) l))%nat ->
   0 < sumOf trade_pnl (filter (fun t => Qgtb (trade_pnl t) 0 = true) l)).
Proof.
  induction l as [|t l [IH1 IH2]] using rev_ind;
    [split; [discriminate|simpl; lia]|].
  rewrite filter_app, filter_cons, filter_nil.
  destruct (decide (Qgtb (trade_pnl t) 0 = true)) as [H|H].
  - rewrite sumOf_snoc. apply Qgtb_lt in H. split; [lra|]. intros _. lra.
  - now rewrite app_nil_r.
Qed.

Lemma sumOf_losses (l : list BacktestTrade) :
  sumOf trade_pnl (filter (fun t => Qleb (trade_pnl t) 0 = true) l) <= 0.
Proof.
  induction l as [|t l IH] using rev_ind; [discriminate|].
  rewrite filter_app, filter_cons, filter_nil.
  destruct (decide (Qleb (trade_pnl t) 0 = true)) as [H|H].
  - rewrite sumOf_snoc. apply Qleb_le in H. lra.
  - now rewrite app_nil_r.
Qed.

Lemma lengthQ_wins_losses (l : list BacktestTrade) :
  lengthQ (filter (fun t => Qgtb (trade_pnl t) 0 = true) l)
  + lengthQ (filter (fun t => Qleb (trade_pnl t) 0 = true) l) == lengthQ l.
Proof.
  unfold lengthQ. rewrite <- inject_Z_plus, <- Nat2Z.inj_add.
  now rewrite wins_losses_length.
Qed.

Lemma expectancy_algebra (W L N GP GL aw al : Q) :
  0 < N -> W + L == N -> aw * W == GP -> al * L == - GL ->
  W / N * aw - (1 - W / N) * al == (GP + GL) / N.
Proof.
  intros HN HWL Haw Hal.
  assert (H : W / N * aw - (1 - W / N) * al == (aw * W - al * (N - W)) / N)
    by (field; lra).
  assert (Hnum : aw * W - al * (N - W) == GP + GL).
  { assert (HL : al * (N - W) == al * L) by (rewrite <- HWL; ring).
    rewrite HL, Haw, Hal. ring. }
  now rewrite H, Hnum.
Qed.

(** The averages [calculateMetrics] reports (pnl as an exact number):
    [avgWin] and [avgLoss] are not negative, the wins at [avgWin] each less
    the losses at [avgLoss] each make up [totalPnL], [expectancy] is
    [avgTradeReturn], and a finite [profitFactor] is not negative. *)
Theorem metrics_averages (e : Engine) :
  let m := calculateMetrics cfg sqrt e in
  0 <= avgWin m /\ 0 <= avgLoss m /\
  avgWin m * inject_Z (Z.of_nat (wins m))
    - avgLoss m * inject_Z (Z.of_nat (losses m)) == totalPnL m /\
  expectancy m == avgTradeReturn m /\
  (forall x, profitFactor m = Finite x -> 0 <= x).
Proof.
  unfold calculateMetrics.
  destruct (calculateMaxDrawdown cfg e) as [md mdp].
  destruct (calculateConsecutive e) as [mw ml].
  cbn [avgWin avgLoss wins losses totalPnL expectancy avgTradeReturn
       profitFactor winRate].
  pose proof (sumOf_wins_losses (trades e)) as Hsum.
  pose proof (sumOf_wins (trades e)) as [Hgp Hgp'].
  pose proof (sumOf_losses (trades e)) as Hgl.
  pose proof (lengthQ_wins_losses (trades e)) as Hlen.
  set (w := filter (fun t => Qgtb (trade_pnl t) 0 = true) (trades e)) in *.
  set (l := filter (fun t => Qleb (trade_pnl t) 0 = true) (trades e)) in *.
  set (GP := sumOf trade_pnl w) in *. set (GL := sumOf trade_pnl l) in *.
  fold (lengthQ w). fold (lengthQ l).
  set (aw := if (0 <? length w)%nat then GP / lengthQ w else 0).
  set (al := if (0 <? length l)%nat then Qabs (GL / lengthQ l) else 0).
  assert (Haw : 0 <= aw /\ aw * lengthQ w == GP).
  { unfold aw. destruct (0 <? length w)%nat eqn:Hw.
    - apply Nat.ltb_lt in Hw. pose proof (lengthQ_positive w Hw) as Hp.
      split; [apply Qle_shift_div_l; [exact Hp|lra]|field; lra].
    - apply Nat.ltb_ge in Hw. destruct w; [|simpl in Hw; lia].
      split; [lra|reflexivity]. }
  assert (Hal : 0 <= al /\ al * lengthQ l == - GL).
  { unfold al. destruct (0 <? length l)%nat eqn:Hl.
    - apply Nat.ltb_lt in Hl. pose proof (lengthQ_positive l Hl) as Hp.
      split; [apply Qabs_nonneg|].
      rewrite Qabs_neg.
      + field; lra.
      + apply Qle_shift_div_r; [exact Hp|lra].
    - apply Nat.ltb_ge in Hl. destruct l; [|simpl in Hl; lia].
      split; [lra|reflexivity]. }
  destruct Haw as [Haw0 Haw], Hal as [Hal0 Hal].
  split; [exact Haw0|]. split; [exact Hal0|].
  split; [rewrite Haw, Hal, Hsum; ring|].
  split.
  - destruct (0 <? length (trades e))%nat eqn:Hn.
    + apply Nat.ltb_lt in Hn.
      pose proof (lengthQ_positive (trades e) Hn) as Hp.
      rewrite Hsum.
      now apply (expectancy_algebra (lengthQ w) (lengthQ l)).
    + apply Nat.ltb_ge in Hn. destruct (trades e); [|simpl in Hn; lia].
      unfold aw, al. simpl. ring.
  - intros x. destruct (Qgtb (Qabs GL) 0) eqn:Hg.
    + intros [= <-]. apply Qgtb_lt in Hg.
      apply Qle_shift_div_l; [exact Hg|lra].
    + destruct (Qgtb GP 0); [discriminate|]. intros [= <-]. lra.
Qed.

End Averages.

(** ** The trades a run records *)

Section RecordedTrades.

Variable cfg : BacktestConfig.
Variable now : nat -> Z.

Lemma recorded_same P e e' : trades e' = trades e -> recorded P e e'.
Proof. now left. Qed.

Lemma recorded_after P e e1 e' :
  trades e' = trades e1 -> recorded P e e1 -> recorded P e e'.
Proof.
  intros H [H1|(t & H1 & Ht)]; [left|right; exists t; split; [|exact Ht]];
    now rewrite H.
Qed.

Lemma recorded_Forall P e e' :
  recorded P e e' -> Forall P (trades e) -> Forall P (trades e').
Proof.
  intros [H|(t & H & Ht)] He; rewrite H; [exact He|].
  apply Forall_app. split; [exact He|now apply Forall_singleton].
Qed.

Lemma trades_recordLadderTrade t e :
  trades (recordLadderTrade t e) = trades e ++ [t].
Proof. unfold recordLadderTrade. simpl. now destruct (Qgtb _ _). Qed.

Lemma trades_executeLadderBuyStep tick ls step e :
  trades (executeLadderBuyStep cfg tick ls step e) = trades e.
Proof. unfold executeLadderBuyStep. now repeat break_test. Qed.

Lemma recorded_executeLadderSellStep tick ls step e :
  recorded (ladderTrade cfg) e (executeLadderSellStep cfg tick ls step e).
Proof.
  unfold executeLadderSellStep.
  destruct (bool_decide _); [now left|].
  destruct (bool_decide _); [now left|].
  cbv zeta.
  destruct (Qltb _ 0.01 || Qltb _ 0.01) eqn:Hdust; [now left|].
  apply orb_false_iff in Hdust as [H1 H2].
  apply Qltb_ge in H1. apply Qltb_ge in H2.
  right. eexists. split.
  - rewrite trades_checkCompoundLimit. simpl.
    now rewrite trades_recordLadderTrade.
  - split; simpl; [now apply Q.min_glb|eauto].
Qed.

Lemma recorded_executeLadderStopLoss tick ls step e :
  recorded (ladderTrade cfg) e (executeLadderStopLoss cfg now tick ls step e).
Proof.
  unfold executeLadderStopLoss. cbv zeta.
  destruct (Qltb _ _) eqn:Hdust; [now left|].
  apply Qltb_ge in Hdust.
  right. eexists. split.
  - simpl. rewrite trades_checkCompoundLimit.
    now rewrite trades_recordLadderTrade.
  - split; simpl; [exact Hdust|]. split; [eauto|apply Q.le_max_r].
Qed.

Lemma resolutionPrice_cases market side :
  resolutionPrice cfg market side = profitTarget cfg \/
  resolutionPrice cfg market side = 0.01.
Proof.
  unfold resolutionPrice. destruct (outcome market); [|now left].
  destruct (bool_decide _); [now left|now right].
Qed.

Lemma recorded_closeLadderAtExpiry market e :
  recorded (ladderTrade cfg) e (closeLadderAtExpiry cfg market e).
Proof.
  unfold closeLadderAtExpiry.
  destruct (ladderState e) as [ls|]; [|now left].
  cbv zeta. destruct (Qltb _ _) eqn:Hdust; [now left|].
  apply Qltb_ge in Hdust.
  right. eexists. split.
  - simpl. rewrite trades_checkCompoundLimit.
    now rewrite trades_recordLadderTrade.
  - split; simpl; [exact Hdust|].
    split; [reflexivity|apply resolutionPrice_cases].
Qed.

Lemma recorded_processLadderStateTick tick market steps e :
  recorded (ladderTrade cfg) e (processLadderStateTick cfg now tick market steps e).
Proof.
  unfold processLadderStateTick.
  destruct (ladderState e) as [ls|]; [|now left].
  destruct (ladderStopLossHit _ _ _); [apply recorded_executeLadderStopLoss|].
  destruct (negb _); [now left|].
  destruct (_ && _); [now left|].
  destruct (getActiveStep _ _) as [[nextStep|] ls'].
  - destruct (currentStepPhase ls').
    + destruct (_ && _); [|now left].
      left. apply trades_executeLadderBuyStep.
    + destruct (_ && _); [|now left].
      apply recorded_executeLadderSellStep.
  - repeat break_test; now left.
Qed.

Lemma recorded_processLadderTick tick market e :
  recorded (ladderTrade cfg) e (processLadderTick cfg now tick market e).
Proof.
  unfold processLadderTick.
  destruct (bool_decide _); [now left|].
  destruct (ladderState e).
  - destruct (negb _); [now left|].
    apply recorded_processLadderStateTick.
  - repeat (break_test; try now left).
    left. now rewrite trades_executeLadderBuyStep.
Qed.

Lemma recorded_executeExit exitPrice exitTimestamp exitReason e :
  match exitReason with
  | PROFIT_TARGET => exitPrice = profitTarget cfg
  | STOP_LOSS => True
  | MARKET_RESOLVED => exitPrice = profitTarget cfg \/ exitPrice = 0.01
  | _ => False
  end ->
  recorded (normalTrade cfg) e
    (executeExit cfg exitPrice exitTimestamp exitReason e).
Proof.
  intros Hreason. unfold executeExit.
  destruct (position e) as [p|]; [|now left].
  right. eexists. split.
  - rewrite trades_checkCompoundLimit. simpl.
    destruct (Qgtb _ _); reflexivity.
  - split; [reflexivity|]. split; [reflexivity|]. simpl.
    destruct exitReason; try exact Hreason.
    rewrite bool_decide_eq_true_2 by reflexivity. apply Q.le_max_r.
Qed.

Lemma recorded_closePositionAtExpiry market e :
  recorded (normalTrade cfg) e (closePositionAtExpiry cfg market e).
Proof.
  unfold closePositionAtExpiry.
  destruct (position e) as [p|]; [|now left].
  apply recorded_executeExit, resolutionPrice_cases.
Qed.

Lemma trades_checkEntry tick market e :
  trades (checkEntry cfg tick market e) = trades e.
Proof. unfold checkEntry. now repeat break_test. Qed.

Lemma recorded_processTick_normal tick market e :
  riskMode cfg <> ladder ->
  recorded (normalTrade cfg) e (processTick cfg now tick market e).
Proof.
  intros Hmode. unfold processTick.
  rewrite bool_decide_eq_false_2 by exact Hmode.
  destruct (position e) eqn:Hp.
  - destruct (bool_decide _); [|now left].
    destruct (Qgeb _ _); [now apply recorded_executeExit|].
    unfold checkStopLoss. rewrite Hp.
    destruct (Qleb _ _); [now apply recorded_executeExit|now left].
  - destruct (Qgeb _ _); [|now left].
    left. apply trades_checkEntry.
Qed.

(** Every trade an engine has recorded is one of its mode, and the engine
    holds what its mode allows. *)
Lemma recordedTrade_invariant markets e0 :
  modeExclusive cfg (replay cfg now markets e0) /\
  Forall (recordedTrade cfg) (trades (replay cfg now markets e0)).
Proof.
  apply (replay_invariant cfg now markets
           (fun e => modeExclusive cfg e /\ Forall (recordedTrade cfg) (trades e))).
  - intros v e He. exact He.
  - intros m e _ [HM HT]. split; [now apply modeExclusive_closePosition|].
    unfold recordedTrade. destruct (bool_decide (riskMode cfg = ladder)) eqn:Hmode.
    + apply bool_decide_eq_true in Hmode. unfold closePositionAtExpiry.
      rewrite (proj1 HM Hmode). unfold recordedTrade in HT.
      now rewrite bool_decide_eq_true_2 in HT by exact Hmode.
    + apply (recorded_Forall _ e); [apply recorded_closePositionAtExpiry|].
      unfold recordedTrade in HT. now rewrite Hmode in HT.
  - intros m e _ [HM HT]. split; [now apply modeExclusive_closeLadder|].
    unfold recordedTrade. destruct (bool_decide (riskMode cfg = ladder)) eqn:Hmode.
    + apply (recorded_Forall _ e); [apply recorded_closeLadderAtExpiry|].
      unfold recordedTrade in HT. now rewrite Hmode in HT.
    + apply bool_decide_eq_false in Hmode. unfold closeLadderAtExpiry.
      rewrite (proj2 HM Hmode). unfold recordedTrade in HT.
      now rewrite bool_decide_eq_false_2 in HT by exact Hmode.
  - intros t m e _ _ [HM HT]. split; [now apply modeExclusive_processTick|].
    unfold recordedTrade. destruct (bool_decide (riskMode cfg = ladder)) eqn:Hmode.
    + apply (recorded_Forall _ e).
      * unfold processTick. rewrite Hmode. apply recorded_processLadderTick.
      * unfold recordedTrade in HT. now rewrite Hmode in HT.
    + apply (recorded_Forall _ e).
      * apply recorded_processTick_normal. now apply bool_decide_eq_false in Hmode.
      * unfold recordedTrade in HT. now rewrite Hmode in HT.
  - split; [now split|constructor].
Qed.

(** Every trade [run] returns is a trade of the configured mode.  In ladder
    mode it sells at least 0.01 shares (no dust is recorded) and is a step's
    sell or a step's stop-loss, naming the step, or a close at a market's
    end, naming none; in any other mode it names no step, its pnl is
    [(exitPrice - entryPrice) * shares], and it is a close at the profit
    target, a stop-loss or a close at a market's end.  A stop-loss of either
    mode is recorded at 0.01 or more, a close at a market's end at the profit
    target or at 0.01, and no trade is ever a [TIME_EXIT]. *)
Theorem run_records_mode_trades (sqrt : Q -> Q)
    (markets : list HistoricalMarket) (e0 : Engine) :
  Forall (recordedTrade cfg) (res_trades (fst (run cfg now sqrt markets e0))) /\
  Forall (fun t => trade_exitReason t <> TIME_EXIT)
         (res_trades (fst (run cfg now sqrt markets e0))).
Proof.
  pose proof (recordedTrade_invariant markets e0) as [_ H].
  split; [exact H|].
  unfold run. simpl. eapply Forall_impl; [exact H|]. intros t.
  unfold recordedTrade, ladderTrade, normalTrade.
  destruct (bool_decide _); intros Ht Hr; rewrite Hr in Ht; tauto.
Qed.

End RecordedTrades.

(** ** The lock of a finished ladder *)

Section LadderLock.

Variable cfg : BacktestConfig.
Variable now : nat -> Z.

Lemma locks_checkCompoundLimit e :
  ladderMarketLocks (checkCompoundLimit cfg e) = ladderMarketLocks e.
Proof. unfold checkCompoundLimit. now repeat break_test. Qed.

Lemma locks_recordLadderTrade t e :
  ladderMarketLocks (recordLadderTrade t e) = ladderMarketLocks e.
Proof. unfold recordLadderTrade. simpl. now destruct (Qgtb _ _). Qed.

Lemma locks_executeLadderBuyStep tick ls step e :
  ladderMarketLocks (executeLadderBuyStep cfg tick ls step e)
  = ladderMarketLocks e.
Proof. unfold executeLadderBuyStep. now repeat break_test. Qed.

Lemma locks_executeLadderSellStep tick ls step e :
  ladderMarketLocks (executeLadderSellStep cfg tick ls step e)
  = ladderMarketLocks e.
Proof.
  unfold executeLadderSellStep.
  destruct (bool_decide _); [reflexivity|].
  destruct (bool_decide _); [reflexivity|].
  cbv zeta. destruct (_ || _); [reflexivity|].
  rewrite locks_checkCompoundLimit. simpl. now rewrite locks_recordLadderTrade.
Qed.

Lemma locks_executeLadderStopLoss tick ls step e :
  ladderMarketLocks (executeLadderStopLoss cfg now tick ls step e)
  = ladderMarketLocks e ∖ {[ ls_marketSlug ls ]}.
Proof.
  unfold executeLadderStopLoss. cbv zeta.
  destruct (Qltb _ _); [reflexivity|]. simpl.
  now rewrite locks_checkCompoundLimit, locks_recordLadderTrade.
Qed.

Lemma locks_closeLadderAtExpiry market e :
  ladderMarketLocks (closeLadderAtExpiry cfg market e) = ladderMarketLocks e.
Proof.
  unfold closeLadderAtExpiry. destruct (ladderState e); [|reflexivity].
  cbv zeta. destruct (Qltb _ _); [reflexivity|]. simpl.
  now rewrite locks_checkCompoundLimit, locks_recordLadderTrade.
Qed.

Lemma locks_executeExit exitPrice exitTimestamp exitReason e :
  ladderMarketLocks (executeExit cfg exitPrice exitTimestamp exitReason e)
  = ladderMarketLocks e.
Proof.
  unfold executeExit. destruct (position e); [|reflexivity].
  rewrite locks_checkCompoundLimit. simpl. now destruct (Qgtb _ _).
Qed.

Lemma locks_closePositionAtExpiry market e :
  ladderMarketLocks (closePositionAtExpiry cfg market e) = ladderMarketLocks e.
Proof.
  unfold closePositionAtExpiry. destruct (position e); [|reflexivity].
  apply locks_executeExit.
Qed.

Lemma locks_processTick_normal tick market e :
  riskMode cfg <> ladder ->
  ladderMarketLocks (processTick cfg now tick market e) = ladderMarketLocks e.
Proof.
  intros Hmode. unfold processTick.
  rewrite bool_decide_eq_false_2 by exact Hmode.
  destruct (position e) eqn:Hp.
  - destruct (bool_decide _); [|reflexivity].
    destruct (Qgeb _ _); [apply locks_executeExit|].
    unfold checkStopLoss. rewrite Hp.
    destruct (Qleb _ _); [apply locks_executeExit|reflexivity].
  - destruct (Qgeb _ _); [|reflexivity].
    destruct (checkEntry_cases cfg tick market e) as [->|[-> _]]; reflexivity.
Qed.

Lemma locked_processLadderStateTick s tick market steps e :
  retired s e ->
  s ∈ ladderMarketLocks (processLadderStateTick cfg now tick market steps e).
Proof.
  intros [Hs Hslug]. unfold processLadderStateTick.
  destruct (ladderState e) as [ls|] eqn:Hls; [|exact Hs].
  assert (Hne : ls_marketSlug ls <> s).
  { intros <-. apply Hslug. unfold ladderSlug. now rewrite Hls. }
  destruct (ladderStopLossHit _ _ _).
  { rewrite locks_executeLadderStopLoss. apply elem_of_difference.
    split; [exact Hs|]. rewrite elem_of_singleton. congruence. }
  destruct (negb _); [exact Hs|].
  destruct (_ && _); [exact Hs|].
  destruct (getActiveStep _ _) as [[nextStep|] ls'].
  - destruct (currentStepPhase ls'); (destruct (_ && _); [|exact Hs]).
    + now rewrite locks_executeLadderBuyStep.
    + now rewrite locks_executeLadderSellStep.
  - repeat break_test; simpl; try exact Hs;
      apply elem_of_union; now left.
Qed.

Lemma retired_processTick s tick market e :
  retired s e -> retired s (processTick cfg now tick market e).
Proof.
  intros Hr. pose proof Hr as [Hs Hslug].
  destruct (decide (riskMode cfg = ladder)) as [Hmode|Hmode].
  - unfold processTick. rewrite bool_decide_eq_true_2 by exact Hmode.
    unfold processLadderTick.
    destruct (bool_decide (length (ladderSteps cfg) = 0%nat)); [exact Hr|].
    destruct (ladderState e) eqn:Hls.
    + destruct (negb _); [exact Hr|].
      split; [now apply locked_processLadderStateTick|].
      destruct (ladderSlug_processLadderStateTick cfg now tick market
                  (ladderSteps cfg) e) as [H|H]; rewrite H;
        [exact Hslug|discriminate].
    + destruct (Qltb (balance e) 1); [exact Hr|].
      unfold isLadderMarketLocked.
      destruct (bool_decide (market_slug market ∈ ladderMarketLocks e)) eqn:Hlock;
        [exact Hr|].
      apply bool_decide_eq_false in Hlock.
      assert (Hne : market_slug market <> s) by (intros <-; now apply Hlock).
      destruct (_ || _); [exact Hr|].
      destruct (Qgtb _ _); [exact Hr|].
      destruct (_ || _); [exact Hr|].
      destruct (lastTradeWonSide _ _ _); [exact Hr|].
      destruct (find _ _); [|exact Hr].
      destruct (Qltb _ _); [exact Hr|].
      cbv zeta. destruct (Qleb _ _).
      * split; [now rewrite locks_executeLadderBuyStep|].
        rewrite ladderSlug_executeLadderBuyStep. simpl. congruence.
      * split; [exact Hs|]. unfold ladderSlug. simpl. congruence.
  - split; [now rewrite locks_processTick_normal|].
    unfold ladderSlug. now rewrite ladderState_processTick_normal.
Qed.

Lemma retired_closePosition s market e :
  retired s e -> retired s (closePositionAtExpiry cfg market e).
Proof.
  intros [Hs Hslug]. split; [now rewrite locks_closePositionAtExpiry|].
  unfold ladderSlug. now rewrite ladderState_closePositionAtExpiry.
Qed.

Lemma retired_closeLadder s market e :
  retired s e -> retired s (closeLadderAtExpiry cfg market e).
Proof.
  intros [Hs Hslug]. split; [now rewrite locks_closeLadderAtExpiry|].
  unfold ladderSlug. now rewrite ladderState_closeLadderAtExpiry.
Qed.

Lemma replayPrefix_from markets e0 n m :
  (n <= m)%nat ->
  exists l,
    Forall (fun tm => snd tm ∈ markets /\ fst tm ∈ priceTicks (snd tm)) l /\
    replayPrefix cfg now markets e0 m
    = fst (foldl (runTick cfg now (marketMapOf markets))
             (foldl (runTick cfg now (marketMapOf markets))
                (resetEngine cfg e0, ∅)
                (take n (sortTicks (allTicksOf markets)))) l).
Proof.
  intros Hnm. exists (drop n (take m (sortTicks (allTicksOf markets)))).
  split; [apply Forall_drop, Forall_take, sortedTicks_known|].
  unfold replayPrefix. rewrite <- foldl_app.
  replace (take n (sortTicks (allTicksOf markets)))
    with (take n (take m (sortTicks (allTicksOf markets))))
    by (rewrite take_take; f_equal; lia).
  now rewrite take_drop.
Qed.

(** The lock of a finished ladder is final.  Once a market is locked while
    the engine holds no ladder in it (the ladder ran out of steps with no
    shares left, or was closed at the market's end), the market stays locked
    and the engine holds no ladder in it for the rest of the replay: nothing
    but a stop-loss of a ladder in the market clears the lock, and no ladder
    starts in a locked market. *)
Theorem ladder_lock_is_final (sqrt : Q -> Q) (markets : list HistoricalMarket)
    (e0 : Engine) (s : string) (n m : nat) :
  (n <= m)%nat ->
  retired s (replayPrefix cfg now markets e0 n) ->
  retired s (replayPrefix cfg now markets e0 m) /\
  retired s (snd (run cfg now sqrt markets e0)).
Proof.
  intros Hnm Hn.
  assert (Hm : retired s (replayPrefix cfg now markets e0 m)).
  { destruct (replayPrefix_from markets e0 n m Hnm) as (l & Hl & Heq).
    rewrite Heq.
    apply (ticks_invariant cfg now markets (retired s)); try exact Hl.
    - intros v e He. exact He.
    - intros mk e _. apply retired_closePosition.
    - intros mk e _. apply retired_closeLadder.
    - intros t mk e _ _. apply retired_processTick.
    - exact Hn. }
  split; [exact Hm|].
  apply (replay_invariant_from cfg now markets (retired s)) with (n := n);
    try exact Hn.
  - intros v e He. exact He.
  - intros mk e _. apply retired_closePosition.
  - intros mk e _. apply retired_closeLadder.
  - intros t mk e _ _. apply retired_processTick.
Qed.

End LadderLock.

(** An instance: the ladder of [testConfig] has bought and sold on
    [finishedLadderMarket] when the fourth tick finds no step left and locks
    the market; the ask of 0.65 that follows starts no ladder. *)
Lemma ladder_lock_is_final_example :
  retired "btc-updown-15m-1"
    (replayPrefix testConfig testClock [finishedLadderMarket]
       (newEngine testConfig) 4) /\
  retired "btc-updown-15m-1"
    (replayPrefix testConfig testClock [finishedLadderMarket]
       (newEngine testConfig) 5).
Proof.
  assert (H : retired "btc-updown-15m-1"
                (replayPrefix testConfig testClock [finishedLadderMarket]
                   (newEngine testConfig) 4)).
  { split; [|vm_compute; discriminate].
    apply (bool_decide_unpack _). vm_compute. exact I. }
  split; [exact H|].
  exact (proj1 (ladder_lock_is_final testConfig testClock (fun q => q)
                  [finishedLadderMarket] (newEngine testConfig) _ 4 5
                  (le_S _ _ (le_n 4)) H)).
Defined.
